(** * PoseKit: the pose geometry utilities of [apps/web/src/utils/poseUtils.ts]

    A shallow embedding of the keypoint transforms (mirror, scale, rotate,
    composition), the similarity score and nearest-neighbour search, the
    variation generator, the validator and the OpenPose import/export,
    followed by the properties the specification states about them and by
    further properties of the code.

    JavaScript numbers are IEEE 754 binary64 values.  They are modelled by
    [spec_float] with the operations of [SpecFloat] at precision 53 and
    maximal exponent 1024, so every definition below computes. *)

From Stdlib Require Import ZArith List String Ascii Bool Lia PeanoNat.
From Stdlib Require Import Floats.SpecFloat.
From Stdlib Require Import Sorting.Sorted Sorting.Permutation.
From Stdlib Require Import DecimalString.
Import ListNotations.

(* ================================================================== *)
(** * Numbers *)
(* ================================================================== *)

Module Num.

Definition number := spec_float.

Definition prec : Z := 53.
Definition emax : Z := 1024.

Definition NaN : number := S754_nan.
Definition zero : number := S754_zero false.

Definition add : number -> number -> number := SFadd prec emax.
Definition sub : number -> number -> number := SFsub prec emax.
Definition mul : number -> number -> number := SFmul prec emax.
Definition div : number -> number -> number := SFdiv prec emax.
Definition sqrt : number -> number := SFsqrt prec emax.

(** [a < b], [a > b], [a >= b], [a === b] on numbers; all false on NaN. *)
Definition ltb (a b : number) : bool := SFltb a b.
Definition gtb (a b : number) : bool := SFltb b a.
Definition geb (a b : number) : bool := SFleb b a.
Definition leb (a b : number) : bool := SFleb a b.
Definition eqb (a b : number) : bool := SFeqb a b.

(** The number denoted by an integer literal (round to nearest even). *)
Definition of_Z (z : Z) : number := binary_normalize prec emax z 0 false.
Definition of_nat (n : nat) : number := of_Z (Z.of_nat n).

(** A decimal literal [n/d] denotes the double nearest to the quotient,
    which is what the correctly rounded division returns. *)
Definition of_ratio (n d : Z) : number := div (of_Z n) (of_Z d).

Definition one : number := Eval vm_compute in of_Z 1.
Definition five : number := Eval vm_compute in of_Z 5.
Definition half : number := Eval vm_compute in of_ratio 1 2.

(** [Math.max(a, b)]: NaN if either argument is NaN, and [+0] is taken
    to be larger than [-0]. *)
Definition Math_max (a b : number) : number :=
  match SFcompare a b with
  | None => NaN
  | Some Lt => b
  | Some Gt => a
  | Some Eq => match a with S754_zero true => b | _ => a end
  end.

(** [ToBoolean] of a number: [+0], [-0] and NaN are falsy. *)
Definition truthy (a : number) : bool :=
  match a with
  | S754_zero _ | S754_nan => false
  | _ => true
  end.

Definition is_nan (a : number) : bool :=
  match a with S754_nan => true | _ => false end.

End Num.

Import Num.

Declare Scope num_scope.
Delimit Scope num_scope with num.
Infix "+" := Num.add : num_scope.
Infix "-" := Num.sub : num_scope.
Infix "*" := Num.mul : num_scope.
Infix "/" := Num.div : num_scope.

Arguments Num.add : simpl never.
Arguments Num.sub : simpl never.
Arguments Num.mul : simpl never.
Arguments Num.div : simpl never.
Arguments Num.sqrt : simpl never.
Arguments Num.of_Z : simpl never.
Arguments Num.of_ratio : simpl never.

(* ================================================================== *)
(** * Completion of a JavaScript call: a value or a thrown exception *)
(* ================================================================== *)

Inductive js_error : Type :=
| TypeError (msg : string).

Inductive js (A : Type) : Type :=
| Return (a : A)
| Throw (e : js_error).

Arguments Return {A} a.
Arguments Throw {A} e.

Definition bind {A B : Type} (c : js A) (k : A -> js B) : js B :=
  match c with
  | Return a => k a
  | Throw e => Throw e
  end.

Notation "x <- c ;; k" := (bind c (fun x => k))
  (at level 61, c at next level, right associativity).

(** [Array.prototype.map] with a callback that may throw: the callback is
    run on the elements from left to right with their index, and the first
    exception aborts the call. *)
Fixpoint mapi_from {A B : Type} (f : A -> nat -> js B) (i : nat) (l : list A)
  : js (list B) :=
  match l with
  | [] => Return []
  | a :: l' =>
      b <- f a i ;;
      bs <- mapi_from f (S i) l' ;;
      Return (b :: bs)
  end.

Definition Array_map {A B : Type} (f : A -> nat -> js B) (l : list A) : js (list B) :=
  mapi_from f 0 l.

(* ================================================================== *)
(** * Data model *)
(* ================================================================== *)

Record Keypoint : Type := mkKeypoint {
  x : number;
  y : number;
  confidence : number;
  label : string
}.

Record PoseData : Type := mkPoseData {
  keypoints : list Keypoint;
  skeleton : list (nat * nat);
  width : number;
  height : number
}.

(** Standard COCO pose keypoint indices. *)
Module COCO_KEYPOINTS.
Definition NOSE := 0.
Definition LEFT_EYE := 1.
Definition RIGHT_EYE := 2.
Definition LEFT_EAR := 3.
Definition RIGHT_EAR := 4.
Definition LEFT_SHOULDER := 5.
Definition RIGHT_SHOULDER := 6.
Definition LEFT_ELBOW := 7.
Definition RIGHT_ELBOW := 8.
Definition LEFT_WRIST := 9.
Definition RIGHT_WRIST := 10.
Definition LEFT_HIP := 11.
Definition RIGHT_HIP := 12.
Definition LEFT_KNEE := 13.
Definition RIGHT_KNEE := 14.
Definition LEFT_ANKLE := 15.
Definition RIGHT_ANKLE := 16.

(** [Object.keys(COCO_KEYPOINTS)], in insertion order. *)
Definition keys : list string :=
  [ "NOSE"; "LEFT_EYE"; "RIGHT_EYE"; "LEFT_EAR"; "RIGHT_EAR";
    "LEFT_SHOULDER"; "RIGHT_SHOULDER"; "LEFT_ELBOW"; "RIGHT_ELBOW";
    "LEFT_WRIST"; "RIGHT_WRIST"; "LEFT_HIP"; "RIGHT_HIP";
    "LEFT_KNEE"; "RIGHT_KNEE"; "LEFT_ANKLE"; "RIGHT_ANKLE" ]%string.
End COCO_KEYPOINTS.

Import COCO_KEYPOINTS.

(** Mirror mapping for left-right keypoints, as the list of entries the
    [Map] is built from. *)
Definition MIRROR_MAPPING : list (nat * nat) :=
  [ (LEFT_EYE, RIGHT_EYE);
    (RIGHT_EYE, LEFT_EYE);
    (LEFT_EAR, RIGHT_EAR);
    (RIGHT_EAR, LEFT_EAR);
    (LEFT_SHOULDER, RIGHT_SHOULDER);
    (RIGHT_SHOULDER, LEFT_SHOULDER);
    (LEFT_ELBOW, RIGHT_ELBOW);
    (RIGHT_ELBOW, LEFT_ELBOW);
    (LEFT_WRIST, RIGHT_WRIST);
    (RIGHT_WRIST, LEFT_WRIST);
    (LEFT_HIP, RIGHT_HIP);
    (RIGHT_HIP, LEFT_HIP);
    (LEFT_KNEE, RIGHT_KNEE);
    (RIGHT_KNEE, LEFT_KNEE);
    (LEFT_ANKLE, RIGHT_ANKLE);
    (RIGHT_ANKLE, LEFT_ANKLE) ].

(** [Map.prototype.get]: the value of the entry with the given key, or
    [undefined].  Building a [Map] from entries keeps the last entry of
    a repeated key. *)
Fixpoint Map_get (m : list (nat * nat)) (k : nat) : option nat :=
  match m with
  | [] => None
  | (k', v) :: m' =>
      match Map_get m' k with
      | Some v' => Some v'
      | None => if Nat.eqb k' k then Some v else None
      end
  end.

(* ================================================================== *)
(** * Transforms *)
(* ================================================================== *)

Local Open Scope num_scope.

(** The callback of [mirrorPose].  Reading [.x] of [keypoints[mirroredIndex]]
    throws when that element is [undefined]. *)
Definition mirrorKeypoint (keypoints : list Keypoint) (width : number)
    (keypoint : Keypoint) (index : nat) : js Keypoint :=
  let mirroredIndex := Map_get MIRROR_MAPPING index in
  let sourceKeypoint :=
    match mirroredIndex with
    | Some j => nth_error keypoints j
    | None => Some keypoint
    end in
  match sourceKeypoint with
  | None => Throw (TypeError "Cannot read properties of undefined (reading 'x')")
  | Some source =>
      Return {| x := width - x source;
                y := y source;
                confidence := confidence source;
                label := label keypoint |}
  end.

Definition mirrorPose (poseData : PoseData) : js PoseData :=
  let '(mkPoseData keypoints skeleton width height) := poseData in
  mirroredKeypoints <- Array_map (mirrorKeypoint keypoints width) keypoints ;;
  Return {| keypoints := mirroredKeypoints;
            skeleton := skeleton;
            width := width;
            height := height |}.

Definition scalePose (poseData : PoseData) (newWidth newHeight : number) : PoseData :=
  let '(mkPoseData keypoints skeleton width height) := poseData in
  let scaleX := newWidth / width in
  let scaleY := newHeight / height in
  let scaledKeypoints :=
    map (fun keypoint =>
           {| x := x keypoint * scaleX;
              y := y keypoint * scaleY;
              confidence := confidence keypoint;
              label := label keypoint |}) keypoints in
  {| keypoints := scaledKeypoints;
     skeleton := skeleton;
     width := newWidth;
     height := newHeight |}.

(** [Math.PI], the double nearest to pi (0x400921FB54442D18). *)
Definition Math_PI : number := S754_finite false 7074237752028440 (-51).

(** ECMAScript leaves [Math.cos] and [Math.sin] implementation-approximated;
    the development is parametric in the two functions of the engine. *)
Class MathImpl : Type := {
  Math_cos : number -> number;
  Math_sin : number -> number
}.

Section Rotation.
Context {engine : MathImpl}.

Definition rotatePose (poseData : PoseData) (angle : number) : PoseData :=
  let '(mkPoseData keypoints skeleton width height) := poseData in
  let centerX := width / of_Z 2 in
  let centerY := height / of_Z 2 in
  let radians := (angle * Math_PI) / of_Z 180 in
  let cos := Math_cos radians in
  let sin := Math_sin radians in
  let rotatedKeypoints :=
    map (fun keypoint =>
           let relativeX := x keypoint - centerX in
           let relativeY := y keypoint - centerY in
           let rotatedX := relativeX * cos - relativeY * sin in
           let rotatedY := relativeX * sin + relativeY * cos in
           {| x := rotatedX + centerX;
              y := rotatedY + centerY;
              confidence := confidence keypoint;
              label := label keypoint |}) keypoints in
  {| keypoints := rotatedKeypoints;
     skeleton := skeleton;
     width := width;
     height := height |}.

(** The [scale] field of the transformation object. *)
Record ScaleTarget : Type := mkScaleTarget {
  scale_width : number;
  scale_height : number
}.

(** The transformation object; every field is optional. *)
Record Transformations : Type := mkTransformations {
  mirror : option bool;
  scale : option ScaleTarget;
  rotation : option number
}.

(** The three [if] tests of [transformPose], by [ToBoolean]: an absent
    field is [undefined] and falsy, an object is truthy, a number is
    truthy unless it is [+0], [-0] or NaN. *)
Definition mirror_requested (t : Transformations) : bool :=
  match mirror t with Some b => b | None => false end.

Definition scale_requested (t : Transformations) : option ScaleTarget :=
  scale t.

Definition rotation_requested (t : Transformations) : option number :=
  match rotation t with
  | Some r => if truthy r then Some r else None
  | None => None
  end.

Definition transformPose (poseData : PoseData) (transformations : Transformations)
  : js PoseData :=
  let result := poseData in
  result <- (if mirror_requested transformations
             then mirrorPose result
             else Return result) ;;
  let result :=
    match scale_requested transformations with
    | Some s => scalePose result (scale_width s) (scale_height s)
    | None => result
    end in
  let result :=
    match rotation_requested transformations with
    | Some r => rotatePose result r
    | None => result
    end in
  Return result.

End Rotation.

(* ================================================================== *)
(** * Similarity *)
(* ================================================================== *)

Definition undefined_read (prop : string) : js_error :=
  TypeError ("Cannot read properties of undefined (reading '" ++ prop ++ "')").

(** The body of the [for] loop of [calculatePoseSimilarity], run for
    [steps] iterations from index [i] on the accumulators
    [(totalDistance, validPoints)].  [validPoints] only counts, so it is
    kept as a natural number and converted where it is divided by. *)
Fixpoint similarity_loop (pose1 pose2 : PoseData) (i steps : nat)
    (acc : number * nat) : js (number * nat) :=
  match steps with
  | O => Return acc
  | S steps' =>
      let '(totalDistance, validPoints) := acc in
      match nth_error (keypoints pose1) i with
      | None => Throw (undefined_read "confidence")
      | Some kp1 =>
          if gtb (confidence kp1) half then
            match nth_error (keypoints pose2) i with
            | None => Throw (undefined_read "confidence")
            | Some kp2 =>
                if gtb (confidence kp2) half then
                  let dx := x kp1 - x kp2 in
                  let dy := y kp1 - y kp2 in
                  let distance := sqrt (dx * dx + dy * dy) in
                  let normalizedDistance :=
                    distance / sqrt (width pose1 * width pose1
                                     + height pose1 * height pose1) in
                  similarity_loop pose1 pose2 (S i) steps'
                    (totalDistance + normalizedDistance, S validPoints)
                else similarity_loop pose1 pose2 (S i) steps' acc
            end
          else similarity_loop pose1 pose2 (S i) steps' acc
      end
  end.

Definition calculatePoseSimilarity (pose1 pose2 : PoseData) : js number :=
  if negb (List.length (keypoints pose1) =? List.length (keypoints pose2))%nat then
    Return zero
  else
    acc <- similarity_loop pose1 pose2 0 (List.length (keypoints pose1)) (zero, O) ;;
    let '(totalDistance, validPoints) := acc in
    if (validPoints =? 0)%nat then Return zero
    else
      let avgDistance := totalDistance / of_nat validPoints in
      Return (Math_max zero (one - avgDistance * five)).

(* ================================================================== *)
(** * Nearest-neighbour search *)
(* ================================================================== *)

(** A candidate: [PoseData & { id: string }]. *)
Record IdentifiedPose : Type := mkIdentifiedPose {
  pose_id : string;
  pose_data : PoseData
}.

(** An element of the result: [{ pose, similarity }]. *)
Record Scored : Type := mkScored {
  pose : IdentifiedPose;
  similarity : number
}.

Section ArraySort.
Variable A : Type.
Variable comparefn : A -> A -> number.

(** [comparefn(a, b) > 0]: [a] has to come after [b].  A NaN result
    counts as [+0]. *)
Definition comes_after (a b : A) : bool := gtb (comparefn a b) zero.

Fixpoint sort_insert (a : A) (l : list A) : list A :=
  match l with
  | [] => [a]
  | b :: l' => if comes_after a b then b :: sort_insert a l' else a :: l
  end.

(** [Array.prototype.sort] is a stable sort (ECMAScript 2019): an
    element moves behind a later one only when the comparator says it
    comes after it.  Insertion from the right is such a sort. *)
Definition Array_sort (l : list A) : list A := fold_right sort_insert [] l.
End ArraySort.

Arguments comes_after {A} comparefn a b.
Arguments sort_insert {A} comparefn a l.
Arguments Array_sort {A} comparefn l.

Inductive integer_or_infinity : Type :=
| Int (z : Z)
| PosInfinity
| NegInfinity.

(** [ToIntegerOrInfinity]: NaN and the zeros give 0, a finite number is
    truncated toward zero. *)
Definition ToIntegerOrInfinity (n : number) : integer_or_infinity :=
  match n with
  | S754_nan => Int 0
  | S754_zero _ => Int 0
  | S754_infinity false => PosInfinity
  | S754_infinity true => NegInfinity
  | S754_finite s m e => Int (cond_Zopp s (Z.shiftl (Zpos m) e))
  end.

(** [Array.prototype.slice(0, end)]. *)
Definition Array_slice0 {A : Type} (l : list A) (end_ : number) : list A :=
  let len := Z.of_nat (List.length l) in
  let final :=
    match ToIntegerOrInfinity end_ with
    | NegInfinity => 0%Z
    | Int relativeEnd =>
        if (relativeEnd <? 0)%Z then Z.max (len + relativeEnd) 0
        else Z.min relativeEnd len
    | PosInfinity => len
    end in
  firstn (Z.to_nat final) l.

Definition default_threshold : number := Eval vm_compute in of_ratio 7 10.
Definition default_maxResults : number := five.

Definition or_default (a : option number) (d : number) : number :=
  match a with Some v => v | None => d end.

(** The callback of the [map] of [findSimilarPoses]. *)
Definition score_candidate (targetPose : PoseData) (p : IdentifiedPose) (_ : nat)
  : js Scored :=
  s <- calculatePoseSimilarity targetPose (pose_data p) ;;
  Return {| pose := p; similarity := s |}.

(** The comparator of the [sort] of [findSimilarPoses]. *)
Definition by_similarity_desc (a b : Scored) : number :=
  similarity b - similarity a.

Definition findSimilarPoses (targetPose : PoseData) (poses : list IdentifiedPose)
    (threshold maxResults : option number) : js (list Scored) :=
  let threshold := or_default threshold default_threshold in
  let maxResults := or_default maxResults default_maxResults in
  scored <- Array_map (score_candidate targetPose) poses ;;
  let kept := filter (fun item => geb (similarity item) threshold) scored in
  let sorted := Array_sort by_similarity_desc kept in
  Return (Array_slice0 sorted maxResults).

(** The arrays [findSimilarPoses] works on are objects in a store.  [map],
    [filter] and [slice] allocate a new array; [sort] sorts the array it is
    called on in place and returns the same reference. *)
Inductive array_object : Type :=
| PoseArray (elements : list IdentifiedPose)
| ScoredArray (elements : list Scored).

Definition store : Type := list array_object.
Definition reference : Type := nat.

Definition allocate (h : store) (o : array_object) : reference * store :=
  (List.length h, h ++ [o]).

Fixpoint overwrite (h : store) (r : reference) (o : array_object) : store :=
  match h, r with
  | [], _ => []
  | _ :: h', O => o :: h'
  | o' :: h', S r' => o' :: overwrite h' r' o
  end.

(** [findSimilarPoses] on a candidate array of the store: the same steps,
    with the arrays they allocate and the one they overwrite. *)
Definition findSimilarPoses_in_store (h : store) (targetPose : PoseData)
    (poses : reference) (threshold maxResults : option number)
  : js (reference * store) :=
  let threshold := or_default threshold default_threshold in
  let maxResults := or_default maxResults default_maxResults in
  match nth_error h poses with
  | Some (PoseArray candidates) =>
      scored <- Array_map (score_candidate targetPose) candidates ;;
      let '(mapped, h) := allocate h (ScoredArray scored) in
      let kept := filter (fun item => geb (similarity item) threshold) scored in
      let '(filtered, h) := allocate h (ScoredArray kept) in
      let sorted := Array_sort by_similarity_desc kept in
      let h := overwrite h filtered (ScoredArray sorted) in
      let '(similarities, h) :=
        allocate h (ScoredArray (Array_slice0 sorted maxResults)) in
      Return (similarities, h)
  | _ => Throw (TypeError "poses.map is not a function")
  end.

(* ================================================================== *)
(** * Variations *)
(* ================================================================== *)

Record Variation : Type := mkVariation {
  variation_id : string;
  title : string;
  poseData : PoseData;
  transformation : string
}.

Definition num_0_8 : number := Eval vm_compute in of_ratio 8 10.
Definition num_1_2 : number := Eval vm_compute in of_ratio 12 10.
Definition num_15 : number := Eval vm_compute in of_Z 15.
Definition num_minus_15 : number := Eval vm_compute in of_Z (-15).

Section Variations.
Context {engine : MathImpl}.

Definition generatePoseVariations (poseData : PoseData) : js (list Variation) :=
  let variations := [] in
  (* Original *)
  let variations := variations ++
    [ {| variation_id := "original"; title := "Original";
         poseData := poseData; transformation := "none" |} ] in
  (* Mirrored *)
  mirrored <- mirrorPose poseData ;;
  let variations := variations ++
    [ {| variation_id := "mirrored"; title := "Mirrored";
         poseData := mirrored; transformation := "mirror" |} ] in
  (* Scaled variations *)
  let scaledSmall :=
    scalePose poseData (width poseData * num_0_8) (height poseData * num_0_8) in
  let variations := variations ++
    [ {| variation_id := "scaled-small"; title := "Scaled 80%";
         poseData := scaledSmall; transformation := "scale-0.8" |} ] in
  let scaledLarge :=
    scalePose poseData (width poseData * num_1_2) (height poseData * num_1_2) in
  let variations := variations ++
    [ {| variation_id := "scaled-large"; title := "Scaled 120%";
         poseData := scaledLarge; transformation := "scale-1.2" |} ] in
  (* Rotated variations *)
  let rotated15 := rotatePose poseData num_15 in
  let variations := variations ++
    [ {| variation_id := "rotated-15"; title := "Rotated 15°";
         poseData := rotated15; transformation := "rotate-15" |} ] in
  let rotatedMinus15 := rotatePose poseData num_minus_15 in
  let variations := variations ++
    [ {| variation_id := "rotated-minus-15"; title := "Rotated -15°";
         poseData := rotatedMinus15; transformation := "rotate--15" |} ] in
  Return variations.

End Variations.

(* ================================================================== *)
(** * OpenPose interchange *)
(* ================================================================== *)

(** One entry of [people].  [pose_keypoints_2d] is the only field the
    import reads; on an arbitrary input it may be absent. *)
Record OpenPosePerson : Type := mkOpenPosePerson {
  person_id : list number;
  pose_keypoints_2d : option (list number);
  face_keypoints_2d : list number;
  hand_left_keypoints_2d : list number;
  hand_right_keypoints_2d : list number;
  pose_keypoints_3d : list number;
  face_keypoints_3d : list number;
  hand_left_keypoints_3d : list number;
  hand_right_keypoints_3d : list number
}.

Record OpenPoseData : Type := mkOpenPoseData {
  version : option number;
  people : option (list OpenPosePerson)
}.

Definition num_1_3 : number := Eval vm_compute in of_ratio 13 10.
Definition num_minus_1 : number := Eval vm_compute in of_Z (-1).
Definition num_768 : number := Eval vm_compute in of_Z 768.

Definition toPoseOpenPoseFormat (poseData : PoseData) : OpenPoseData :=
  {| version := Some num_1_3;
     people := Some
       [ {| person_id := [num_minus_1];
            pose_keypoints_2d :=
              Some (flat_map (fun kp => [x kp; y kp; confidence kp])
                             (keypoints poseData));
            face_keypoints_2d := [];
            hand_left_keypoints_2d := [];
            hand_right_keypoints_2d := [];
            pose_keypoints_3d := [];
            face_keypoints_3d := [];
            hand_left_keypoints_3d := [];
            hand_right_keypoints_3d := [] |} ] |}.

(** A keypoint as the import builds it: an index past the end of the flat
    array reads [undefined] ([None]). *)
Record ImportedKeypoint : Type := mkImportedKeypoint {
  imported_x : option number;
  imported_y : option number;
  imported_confidence : option number;
  imported_label : string
}.

Record ImportedPose : Type := mkImportedPose {
  imported_keypoints : list ImportedKeypoint;
  imported_skeleton : list (nat * nat);
  imported_width : number;
  imported_height : number
}.

(** [Object.keys(COCO_KEYPOINTS)[n] || `keypoint_${n}`]. *)
Definition keypoint_label (n : nat) : string :=
  match nth_error COCO_KEYPOINTS.keys n with
  | Some name => name
  | None => "keypoint_" ++ NilEmpty.string_of_uint (Nat.to_uint n)
  end.

(** The [for (let i = 0; i < poseKeypoints.length; i += 3)] loop, with
    [fuel] bounding the number of iterations. *)
Fixpoint import_loop (poseKeypoints : list number) (i fuel : nat)
    (keypoints : list ImportedKeypoint) : list ImportedKeypoint :=
  match fuel with
  | O => keypoints
  | S fuel' =>
      if (i <? List.length poseKeypoints)%nat then
        import_loop poseKeypoints (i + 3)%nat fuel'
          (keypoints ++
             [ {| imported_x := nth_error poseKeypoints i;
                  imported_y := nth_error poseKeypoints (i + 1)%nat;
                  imported_confidence := nth_error poseKeypoints (i + 2)%nat;
                  imported_label := keypoint_label (List.length keypoints) |} ])
      else keypoints
  end.

(** Standard COCO skeleton connections. *)
Definition COCO_SKELETON : list (nat * nat) :=
  [ (0, 1); (0, 2); (1, 3); (2, 4);
    (5, 6); (5, 7); (7, 9); (6, 8); (8, 10);
    (5, 11); (6, 12); (11, 12);
    (11, 13); (13, 15); (12, 14); (14, 16) ]%nat.

Definition fromOpenPoseFormat (openPoseData : OpenPoseData) : option ImportedPose :=
  match people openPoseData with
  | None => None
  | Some [] => None
  | Some (person :: _) =>
      match pose_keypoints_2d person with
      | None => None
      | Some poseKeypoints =>
          if (List.length poseKeypoints <? 51)%nat then None
          else
            let keypoints :=
              import_loop poseKeypoints 0 (List.length poseKeypoints) [] in
            Some {| imported_keypoints := keypoints;
                    imported_skeleton := COCO_SKELETON;
                    imported_width := num_768;
                    imported_height := num_768 |}
      end
  end.

Local Close Scope num_scope.

(* ================================================================== *)
(** * Validation *)
(* ================================================================== *)

(** [validatePoseData] takes [any].  The values it is given are plain
    data: primitives, arrays and objects without accessors, as a literal
    or [JSON.parse] builds them.  The properties of an object are kept in
    lookup order. *)
#[warnings="-register-all"] Inductive value : Type :=
| JSUndefined
| JSNull
| JSBoolean (b : bool)
| JSNumber (n : number)
| JSString (s : string)
| JSArray (elements : list value)
| JSObject (properties : list (string * value)).

Definition ToBoolean (v : value) : bool :=
  match v with
  | JSUndefined | JSNull => false
  | JSBoolean b => b
  | JSNumber n => truthy n
  | JSString s => match s with EmptyString => false | _ => true end
  | JSArray _ | JSObject _ => true
  end.

Fixpoint own_property (properties : list (string * value)) (key : string) : value :=
  match properties with
  | [] => JSUndefined
  | (k, v) :: rest => if String.eqb k key then v else own_property rest key
  end.

(** [v.key] for the property names the validator reads ([keypoints],
    [skeleton], [width], [height], [x], [y], [confidence], [label]), none
    of which a built-in prototype defines: reading a property of
    [undefined] or [null] throws, a primitive or an array has none of
    them, an object has those of its table. *)
Definition Get (v : value) (key : string) : js value :=
  match v with
  | JSUndefined =>
      Throw (TypeError ("Cannot read properties of undefined (reading '"
                          ++ key ++ "')"))
  | JSNull =>
      Throw (TypeError ("Cannot read properties of null (reading '"
                          ++ key ++ "')"))
  | JSObject properties => Return (own_property properties key)
  | _ => Return JSUndefined
  end.

Definition Array_isArray (v : value) : bool :=
  match v with JSArray _ => true | _ => false end.

(** [typeof v === 'number'] and [typeof v === 'string']. *)
Definition typeof_number (v : value) : bool :=
  match v with JSNumber _ => true | _ => false end.

Definition typeof_string (v : value) : bool :=
  match v with JSString _ => true | _ => false end.

(** [Array.prototype.every] with a callback that returns a boolean and may
    throw: the elements are tested from left to right, the first failing
    test ends the scan with [false], the first exception aborts it. *)
Fixpoint Array_every (callbackfn : value -> js bool) (l : list value) : js bool :=
  match l with
  | [] => Return true
  | a :: l' =>
      b <- callbackfn a ;;
      if b then Array_every callbackfn l' else Return false
  end.

(** The callback of the [every] of [validatePoseData]. *)
Definition validKeypoint (kp : value) : js bool :=
  vx <- Get kp "x" ;;
  if negb (typeof_number vx) then Return false else
  vy <- Get kp "y" ;;
  if negb (typeof_number vy) then Return false else
  vc <- Get kp "confidence" ;;
  if negb (typeof_number vc) then Return false else
  vl <- Get kp "label" ;;
  Return (typeof_string vl).

(** The [&&] chain returns its first falsy operand: [poseData] itself
    when that is falsy, and a boolean from then on. *)
Definition validatePoseData (poseData : value) : js value :=
  if negb (ToBoolean poseData) then Return poseData else
  keypoints <- Get poseData "keypoints" ;;
  if negb (Array_isArray keypoints) then Return (JSBoolean false) else
  skeleton <- Get poseData "skeleton" ;;
  if negb (Array_isArray skeleton) then Return (JSBoolean false) else
  width <- Get poseData "width" ;;
  if negb (typeof_number width) then Return (JSBoolean false) else
  height <- Get poseData "height" ;;
  if negb (typeof_number height) then Return (JSBoolean false) else
  keypoints <- Get poseData "keypoints" ;;
  match keypoints with
  | JSArray elements =>
      ok <- Array_every validKeypoint elements ;;
      Return (JSBoolean ok)
  | _ => Throw (TypeError "poseData.keypoints.every is not a function")
  end.

(* ================================================================== *)
(** * Specification vocabulary *)
(* ================================================================== *)

(** ** Mirror partners *)

(** The position whose keypoint supplies the values of position [i]. *)
Definition mirror_source (i : nat) : nat :=
  match Map_get MIRROR_MAPPING i with
  | Some j => j
  | None => i
  end.

(** Every position below [n] has its mirror partner below [n]. *)
Definition partners_in_range (n : nat) : bool :=
  forallb (fun i => mirror_source i <? n)%nat (seq 0 n).

(** What a successful [mirrorPose] returns, position by position. *)
Definition mirror_image (P M : PoseData) : Prop :=
  width M = width P /\ height M = height P /\ skeleton M = skeleton P /\
  List.length (keypoints M) = List.length (keypoints P) /\
  forall i k, nth_error (keypoints P) i = Some k ->
    exists src,
      nth_error (keypoints P) (mirror_source i) = Some src /\
      nth_error (keypoints M) i =
        Some {| x := sub (width P) (x src); y := y src;
                confidence := confidence src; label := label k |}.

(** The keypoint two mirror passes produce from [k]: [x] has gone through
    [width - (width - x)], the other fields are [k]'s. *)
Definition flip_twice (w : number) (k : Keypoint) : Keypoint :=
  {| x := sub w (sub w (x k)); y := y k;
     confidence := confidence k; label := label k |}.

(** ** Similarity and search *)

(** The test of the loop body: both confidences are above 0.5. *)
Definition both_confident (kp1 kp2 : Keypoint) : bool :=
  gtb (confidence kp1) half && gtb (confidence kp2) half.

(** No index of the two keypoint arrays passes the confidence test. *)
Definition no_confident_pair (P Q : PoseData) : Prop :=
  forall i kp1 kp2,
    nth_error (keypoints P) i = Some kp1 ->
    nth_error (keypoints Q) i = Some kp2 ->
    both_confident kp1 kp2 = false.

(** A score: [+0], or a positive canonical double that is at most one. *)
Definition score (r : number) : bool :=
  match r with
  | S754_zero false => true
  | S754_finite false m e => bounded prec emax m e && leb r one
  | _ => false
  end.

(** NaN, or a value whose sign bit is clear. *)
Definition not_negative (a : number) : bool :=
  match a with
  | S754_nan => true
  | S754_zero s | S754_infinity s | S754_finite s _ _ => negb s
  end.

(** The number of leading entries [slice(0, maxResults)] keeps for a
    [maxResults] that is not negative: its integer part, and no limit
    ([None]) for [+Infinity]. *)
Definition result_cap (maxResults : number) : option nat :=
  match ToIntegerOrInfinity maxResults with
  | Int z => Some (Z.to_nat z)
  | PosInfinity => None
  | NegInfinity => Some O
  end.

(** The entries a cap keeps. *)
Definition take_cap {A : Type} (cap : option nat) (l : list A) : list A :=
  match cap with
  | Some n => firstn n l
  | None => l
  end.

(** ** Composition *)

(** A rotation angle [transformPose] acts on: a number that is neither
    zero ([+0] or [-0]) nor NaN. *)
Definition rotation_applies (r : number) : bool :=
  negb (eqb r zero) && negb (is_nan r).

(** ** Variations and OpenPose interchange *)

(** The identifiers the specification lists for the six variations. *)
Definition specified_variation_ids : list string :=
  [ "original"; "mirrored"; "scaled-small"; "scaled-large";
    "rotated-15"; "rotated--15" ]%string.

(** The catalogue [generatePoseVariations] builds from P and its mirror
    image M. *)
Definition variation_catalog {engine : MathImpl} (P M : PoseData) : list Variation :=
  [ {| variation_id := "original"; title := "Original";
       poseData := P; transformation := "none" |};
    {| variation_id := "mirrored"; title := "Mirrored";
       poseData := M; transformation := "mirror" |};
    {| variation_id := "scaled-small"; title := "Scaled 80%";
       poseData := scalePose P (mul (width P) num_0_8) (mul (height P) num_0_8);
       transformation := "scale-0.8" |};
    {| variation_id := "scaled-large"; title := "Scaled 120%";
       poseData := scalePose P (mul (width P) num_1_2) (mul (height P) num_1_2);
       transformation := "scale-1.2" |};
    {| variation_id := "rotated-15"; title := "Rotated 15°";
       poseData := rotatePose P num_15; transformation := "rotate-15" |};
    {| variation_id := "rotated-minus-15"; title := "Rotated -15°";
       poseData := rotatePose P num_minus_15; transformation := "rotate--15" |} ]%string.

(** The three values the export writes for a keypoint. *)
Definition keypoint_triple (kp : Keypoint) : list number :=
  [x kp; y kp; confidence kp].

(** The coordinates and confidence of an imported keypoint, and those of a
    keypoint as the import would read them back. *)
Definition imported_values (k : ImportedKeypoint)
  : option number * option number * option number :=
  (imported_x k, imported_y k, imported_confidence k).

Definition exported_values (kp : Keypoint)
  : option number * option number * option number :=
  (Some (x kp), Some (y kp), Some (confidence kp)).

(** The inputs the specification says the import rejects: [people] absent
    or empty, or the first person's [pose_keypoints_2d] absent or shorter
    than 51 values. *)
Definition import_rejected (d : OpenPoseData) : bool :=
  match people d with
  | None => true
  | Some [] => true
  | Some (person :: _) =>
      match pose_keypoints_2d person with
      | None => true
      | Some values => (List.length values <? 17 * 3)%nat
      end
  end.

(** ** Rounding of doubles *)

Local Open Scope Z_scope.

(** The exponent of the floating-point format at a given magnitude. *)
Definition fexp64 (e : Z) : Z := Z.max (e - 53) (-1074).

(** The number of binary digits of a positive integer. *)
Definition digits (m : Z) : Z := Z.log2 m + 1.

(** The exponent a shift of [binary_round_aux] leaves the mantissa [m]
    with: the exponent of the format for its magnitude, and never less
    than the exponent [e] it came with. *)
Definition round_exponent (m e : Z) : Z :=
  e + Z.max 0 (fexp64 (Zdigits2 m + e) - e).

(** [r] is a result of rounding [m * 2^e] with sign [s]: the outcome of the
    two shifts of [binary_round_aux] around a rounding step that keeps the
    mantissa or adds one to it. *)
Definition rounds_to (s : bool) (m e : Z) (r : number) : Prop :=
  exists m2 : Z,
    let e1 := round_exponent m e in
    let m1 := Z.shiftr m (e1 - e) in
    let e2 := round_exponent m2 e1 in
    let m3 := Z.shiftr m2 (e2 - e1) in
    (m2 = m1 \/ m2 = m1 + 1) /\
    r = match m3 with
        | Z0 => S754_zero s
        | Z.pos q =>
            if e2 <=? emax - prec then S754_finite s q e2 else S754_infinity s
        | Z.neg _ => S754_nan
        end.

(** What rounding returns: a value of the given sign whose mantissa and
    exponent are canonical and within range. *)
Definition rounded_shape (s : bool) (r : number) : Prop :=
  match r with
  | S754_zero s' => s' = s
  | S754_infinity s' => s' = s
  | S754_finite s' q e' => s' = s /\ bounded prec emax q e' = true
  | S754_nan => False
  end.

(** The position of a score in the increasing enumeration of the
    non-negative doubles: exponent first, mantissa second. *)
Definition rank (r : number) : Z :=
  match r with
  | S754_finite _ m e => (e + 1075) * 9007199254740992 + Z.pos m
  | _ => 0
  end.

Local Close Scope Z_scope.

(** ** Further vocabulary: numbers, counts, imported keypoints *)

(** NaN and the infinities are not finite. *)
Definition finite_number (a : number) : bool :=
  match a with
  | S754_zero _ | S754_finite _ _ _ => true
  | _ => false
  end.

(** The test of the similarity loop on one keypoint: its confidence is
    above 0.5. *)
Definition confident (k : Keypoint) : bool := gtb (confidence k) half.

(** The divisor of the similarity loop: the diagonal of the frame. *)
Definition frame_diagonal (P : PoseData) : number :=
  sqrt (add (mul (width P) (width P)) (mul (height P) (height P))).

(** A double: the zeros, the infinities, NaN, and the finite values whose
    mantissa and exponent are those of the format. *)
Definition double (a : number) : bool :=
  match a with
  | S754_finite _ m e => bounded prec emax m e
  | _ => true
  end.

(** A finite number other than the zeros. *)
Definition finite_nonzero (a : number) : bool :=
  match a with
  | S754_finite _ _ _ => true
  | _ => false
  end.

(** The keypoint counts on which a position has its mirror partner past
    the end of the array: the even counts from 2 to 16. *)
Definition partner_missing (n : nat) : bool :=
  Nat.even n && (2 <=? n)%nat && (n <=? 16)%nat.

(** The position a transformed keypoint takes its confidence from. *)
Definition confidence_source (t : Transformations) (i : nat) : nat :=
  if mirror_requested t then mirror_source i else i.

(** The keypoint the import builds from the triple at position [j] of the
    flat array: reads past the end give [undefined], and the label is the
    COCO key of the position, or [keypoint_j] from position 17 on. *)
Definition imported_at (poseKeypoints : list number) (j : nat) : ImportedKeypoint :=
  {| imported_x := nth_error poseKeypoints (3 * j);
     imported_y := nth_error poseKeypoints (3 * j + 1);
     imported_confidence := nth_error poseKeypoints (3 * j + 2);
     imported_label := keypoint_label j |}.

(** The number of triples, the last one possibly incomplete, in a flat
    array of [n] values. *)
Definition imported_count (n : nat) : nat := (n + 2) / 3.

(** An imported keypoint all of whose numbers are present, as a
    [Keypoint]. *)
Definition as_Keypoint (k : ImportedKeypoint) : option Keypoint :=
  match imported_x k, imported_y k, imported_confidence k with
  | Some vx, Some vy, Some c =>
      Some {| x := vx; y := vy; confidence := c; label := imported_label k |}
  | _, _, _ => None
  end.

Fixpoint as_Keypoints (ks : list ImportedKeypoint) : option (list Keypoint) :=
  match ks with
  | [] => Some []
  | k :: ks' =>
      match as_Keypoint k, as_Keypoints ks' with
      | Some kp, Some kps => Some (kp :: kps)
      | _, _ => None
      end
  end.

(** An imported pose without [undefined] entries, as a [PoseData]. *)
Definition as_PoseData (R : ImportedPose) : option PoseData :=
  match as_Keypoints (imported_keypoints R) with
  | Some kps =>
      Some {| keypoints := kps;
              skeleton := imported_skeleton R;
              width := imported_width R;
              height := imported_height R |}
  | None => None
  end.

(** The flat array of the first person of an OpenPose object. *)
Definition first_pose_keypoints_2d (d : OpenPoseData) : option (list number) :=
  match people d with
  | Some (person :: _) => pose_keypoints_2d person
  | _ => None
  end.

(** ** Poses as values *)

Definition Keypoint_value (k : Keypoint) : value :=
  JSObject [ ("x", JSNumber (x k)); ("y", JSNumber (y k));
             ("confidence", JSNumber (confidence k));
             ("label", JSString (label k)) ]%string.

(** An object with the four properties of a pose. *)
Definition pose_object (keypoints skeleton width height : value) : value :=
  JSObject [ ("keypoints", keypoints); ("skeleton", skeleton);
             ("width", width); ("height", height) ]%string.

Definition connection_value (c : nat * nat) : value :=
  JSArray [ JSNumber (of_nat (fst c)); JSNumber (of_nat (snd c)) ].

(** A [PoseData] as the object the validator is given. *)
Definition PoseData_value (P : PoseData) : value :=
  pose_object (JSArray (map Keypoint_value (keypoints P)))
              (JSArray (map connection_value (skeleton P)))
              (JSNumber (width P)) (JSNumber (height P)).

(** [e] is an object (or other value) from which the four fields of the
    keypoint [k] can be read. *)
Definition reads_as_keypoint (e : value) (k : Keypoint) : Prop :=
  Get e "x" = Return (JSNumber (x k)) /\
  Get e "y" = Return (JSNumber (y k)) /\
  Get e "confidence" = Return (JSNumber (confidence k)) /\
  Get e "label" = Return (JSString (label k)).

(** [null] or [undefined]. *)
Definition nullish (v : value) : bool :=
  match v with JSUndefined | JSNull => true | _ => false end.

(** ** Imported poses as values *)

(** A number read from the flat array, or [undefined]. *)
Definition optional_number (o : option number) : value :=
  match o with
  | Some n => JSNumber n
  | None => JSUndefined
  end.

(** The object the import loop pushes. *)
Definition ImportedKeypoint_value (k : ImportedKeypoint) : value :=
  JSObject [ ("x", optional_number (imported_x k));
             ("y", optional_number (imported_y k));
             ("confidence", optional_number (imported_confidence k));
             ("label", JSString (imported_label k)) ]%string.

(** The object [fromOpenPoseFormat] returns. *)
Definition ImportedPose_value (R : ImportedPose) : value :=
  pose_object (JSArray (map ImportedKeypoint_value (imported_keypoints R)))
              (JSArray (map connection_value (imported_skeleton R)))
              (JSNumber (imported_width R)) (JSNumber (imported_height R)).

(** Both ends of a connection are positions of the keypoint array. *)
Definition connection_in_range (n : nat) (c : nat * nat) : bool :=
  (fst c <? n)%nat && (snd c <? n)%nat.

(* ================================================================== *)
(** * Sample poses *)
(* ================================================================== *)

(** The labels of the 17 COCO positions, as poses carry them. *)
Definition coco_labels : list string :=
  [ "nose"; "leftEye"; "rightEye"; "leftEar"; "rightEar";
    "leftShoulder"; "rightShoulder"; "leftElbow"; "rightElbow";
    "leftWrist"; "rightWrist"; "leftHip"; "rightHip";
    "leftKnee"; "rightKnee"; "leftAnkle"; "rightAnkle" ]%string.

(** Integer coordinates for the 17 positions. *)
Definition sample_coordinates : list (Z * Z) :=
  [ (384, 200); (364, 180); (404, 180); (344, 190); (424, 190);
    (300, 400); (468, 400); (280, 500); (488, 500);
    (270, 600); (498, 600); (330, 620); (438, 620);
    (325, 680); (443, 680); (320, 740); (448, 740) ]%Z.

(** A 17-keypoint 768x768 pose with integer coordinates; the shoulders are
    at (300,400) and (468,400). *)
Definition sample_pose : PoseData :=
  {| keypoints :=
       map (fun '((cx, cy), name) => mkKeypoint (of_Z cx) (of_Z cy) one name)
           (combine sample_coordinates coco_labels);
     skeleton := COCO_SKELETON;
     width := num_768;
     height := num_768 |}.

(** A 17-keypoint 768x768 pose with every keypoint at (0.1, 0.2). *)
Definition fractional_pose : PoseData :=
  {| keypoints :=
       map (mkKeypoint (of_ratio 1 10) (of_ratio 2 10) one) coco_labels;
     skeleton := COCO_SKELETON;
     width := num_768;
     height := num_768 |}.

(** A 17-keypoint pose in a 1920x1080 frame. *)
Definition wide_pose : PoseData :=
  {| keypoints := keypoints fractional_pose;
     skeleton := COCO_SKELETON;
     width := of_Z 1920;
     height := of_Z 1080 |}.

(** A pose with two keypoints: position 1 (left eye) has its partner,
    position 2, outside the array. *)
Definition short_pose : PoseData :=
  {| keypoints := [ mkKeypoint (of_Z 10) (of_Z 20) one "nose";
                    mkKeypoint (of_Z 30) (of_Z 40) one "leftEye" ];
     skeleton := [(0, 1)%nat];
     width := num_768;
     height := num_768 |}.

(** A one-point pose in a 100x100 frame. *)
Definition small_frame_pose : PoseData :=
  {| keypoints := [ mkKeypoint zero zero one "nose" ];
     skeleton := [];
     width := of_Z 100;
     height := of_Z 100 |}.

(** The same point, ten units to the right, in a frame ten times larger. *)
Definition large_frame_pose : PoseData :=
  {| keypoints := [ mkKeypoint (of_Z 10) zero one "nose" ];
     skeleton := [];
     width := of_Z 1000;
     height := of_Z 1000 |}.

(** A one-point pose whose only keypoint has confidence exactly 0.5. *)
Definition unsure_pose : PoseData :=
  {| keypoints := [ mkKeypoint (of_Z 10) (of_Z 20) half "nose" ];
     skeleton := [];
     width := num_768;
     height := num_768 |}.

(** A one-point pose in a frame of width and height zero. *)
Definition empty_frame_pose : PoseData :=
  {| keypoints := [ mkKeypoint zero zero one "nose" ];
     skeleton := [];
     width := zero;
     height := zero |}.

(** Three candidates, each a copy of [small_frame_pose]. *)
Definition three_candidates : list IdentifiedPose :=
  [ {| pose_id := "a"; pose_data := small_frame_pose |};
    {| pose_id := "b"; pose_data := small_frame_pose |};
    {| pose_id := "c"; pose_data := small_frame_pose |} ].

(** A person without [pose_keypoints_2d]. *)
Definition empty_person : OpenPosePerson :=
  {| person_id := [num_minus_1];
     pose_keypoints_2d := None;
     face_keypoints_2d := [];
     hand_left_keypoints_2d := [];
     hand_right_keypoints_2d := [];
     pose_keypoints_3d := [];
     face_keypoints_3d := [];
     hand_left_keypoints_3d := [];
     hand_right_keypoints_3d := [] |}.

(** A 17-keypoint 768x768 pose with every keypoint at the centre of the
    frame. *)
Definition centred_pose : PoseData :=
  {| keypoints := map (mkKeypoint (of_Z 384) (of_Z 384) one) coco_labels;
     skeleton := COCO_SKELETON;
     width := num_768;
     height := num_768 |}.

(** An OpenPose object whose flat array holds 52 values: 17 triples and
    the x of an 18th keypoint. *)
Definition ragged_openpose : OpenPoseData :=
  {| version := Some num_1_3;
     people := Some [ {| person_id := [num_minus_1];
                         pose_keypoints_2d := Some (repeat one 52);
                         face_keypoints_2d := [];
                         hand_left_keypoints_2d := [];
                         hand_right_keypoints_2d := [];
                         pose_keypoints_3d := [];
                         face_keypoints_3d := [];
                         hand_left_keypoints_3d := [];
                         hand_right_keypoints_3d := [] |} ] |}.

(** An engine for closed examples: [cos] and [sin] by their Taylor
    polynomials of degree 4 and 5. *)
Definition taylor_engine : MathImpl :=
  {| Math_cos := fun r =>
       let r2 := mul r r in
       add (sub one (div r2 (of_Z 2))) (div (mul r2 r2) (of_Z 24));
     Math_sin := fun r =>
       let r2 := mul r r in
       let r3 := mul r2 r in
       add (sub r (div r3 (of_Z 6))) (div (mul r3 r2) (of_Z 120)) |}.

(* ================================================================== *)
(** * Completions and [Array_map] *)
(* ================================================================== *)

Ltac inv H := inversion H; subst; clear H.

Lemma bind_Return_inv (A B : Type) (c : js A) (k : A -> js B) (b : B) :
  bind c k = Return b -> exists a, c = Return a /\ k a = Return b.
Proof.
  destruct c as [a | e]; simpl; intros H.
  - exists a; split; [reflexivity | exact H].
  - discriminate H.
Qed.

(** A successful [map] has run the callback on every element. *)
Lemma mapi_from_Return (A B : Type) (f : A -> nat -> js B) (l : list A) :
  forall (s : nat) (l' : list B),
    mapi_from f s l = Return l' ->
    List.length l' = List.length l /\
    forall i a, nth_error l i = Some a ->
      exists b, nth_error l' i = Some b /\ f a (s + i) = Return b.
Proof.
  induction l as [| a0 l IH]; simpl; intros s l' H.
  - inv H. split; [reflexivity |].
    intros i a Hi. destruct i; discriminate Hi.
  - apply bind_Return_inv in H. destruct H as [b0 [Hb0 H]].
    apply bind_Return_inv in H. destruct H as [bs [Hbs H]].
    inv H. destruct (IH _ _ Hbs) as [Hlen Hnth].
    split; [simpl; congruence |].
    intros [| i] a Hi; simpl in *.
    + inv Hi. exists b0. rewrite Nat.add_0_r. auto.
    + destruct (Hnth _ _ Hi) as [b [Hb Hf]].
      exists b. rewrite Nat.add_succ_r. auto.
Qed.

(** A callback that succeeds on every element makes [map] succeed. *)
Lemma mapi_from_total (A B : Type) (f : A -> nat -> js B) (l : list A) :
  forall (s : nat),
    (forall i a, nth_error l i = Some a -> exists b, f a (s + i) = Return b) ->
    exists l', mapi_from f s l = Return l'.
Proof.
  induction l as [| a0 l IH]; simpl; intros s H.
  - eexists; reflexivity.
  - destruct (H 0 a0 eq_refl) as [b0 Hb0].
    rewrite Nat.add_0_r in Hb0. rewrite Hb0. simpl.
    destruct (IH (S s)) as [bs Hbs].
    + intros i a Hi. destruct (H (S i) a Hi) as [b Hb].
      rewrite Nat.add_succ_r in Hb. eauto.
    + rewrite Hbs. simpl. eexists; reflexivity.
Qed.

(* ================================================================== *)
(** * Double arithmetic: signs *)
(* ================================================================== *)

Lemma binary_round_aux_negb (s : bool) (m e : Z) (l : location) :
  binary_round_aux prec emax (negb s) m e l
  = SFopp (binary_round_aux prec emax s m e l).
Proof.
  unfold binary_round_aux.
  destruct (shr_fexp prec emax m e l) as [mrs' e'].
  destruct (shr_fexp prec emax _ e' loc_Exact) as [mrs'' e''].
  destruct (shr_m mrs'') as [| p | p]; try reflexivity.
  destruct (e'' <=? emax - prec)%Z; reflexivity.
Qed.

Lemma binary_normalize_opp (z e : Z) :
  z <> 0%Z ->
  binary_normalize prec emax (- z) e false
  = SFopp (binary_normalize prec emax z e false).
Proof.
  intros Hz. destruct z as [| p | p]; [congruence | |]; simpl;
    unfold binary_round;
    destruct (shl_align p e _) as [mz ez].
  - apply (binary_round_aux_negb false).
  - rewrite (binary_round_aux_negb false).
    destruct (binary_round_aux prec emax false (Z.pos mz) ez loc_Exact);
      simpl; try reflexivity; destruct s; reflexivity.
Qed.

Lemma mul_opp_opp (v : number) : mul (SFopp v) (SFopp v) = mul v v.
Proof. destruct v as [s | s | | s m e]; simpl; try reflexivity;
         destruct s; reflexivity. Qed.

(** [(a - b) * (a - b)] and [(b - a) * (b - a)] are the same double. *)
Lemma square_of_difference_sym (a b : number) :
  mul (sub a b) (sub a b) = mul (sub b a) (sub b a).
Proof.
  destruct a as [sa | sa | | sa ma ea], b as [sb | sb | | sb mb eb];
    try reflexivity;
    try (destruct sa, sb; reflexivity);
    try (destruct sa; reflexivity);
    try (destruct sb; reflexivity).
  unfold sub, SFsub. rewrite (Z.min_comm eb ea).
  set (ez := Z.min ea eb).
  set (za := cond_Zopp sa (Z.pos (fst (shl_align ma ea ez)))).
  set (zb := cond_Zopp sb (Z.pos (fst (shl_align mb eb ez)))).
  destruct (Z.eq_dec (za - zb) 0) as [Hz | Hz].
  - replace (zb - za)%Z with 0%Z by lia. rewrite Hz. reflexivity.
  - replace (zb - za)%Z with (- (za - zb))%Z by lia.
    rewrite binary_normalize_opp by exact Hz.
    symmetry. apply mul_opp_opp.
Qed.

Lemma binary_round_aux_sign (s : bool) (m e : Z) (l : location) :
  match binary_round_aux prec emax s m e l with
  | S754_nan => True
  | S754_zero s' | S754_infinity s' | S754_finite s' _ _ => s' = s
  end.
Proof.
  unfold binary_round_aux.
  destruct (shr_fexp prec emax m e l) as [mrs' e'].
  destruct (shr_fexp prec emax _ e' loc_Exact) as [mrs'' e''].
  destruct (shr_m mrs'') as [| p | p]; try reflexivity.
  destruct (e'' <=? emax - prec)%Z; reflexivity.
Qed.

Lemma binary_round_aux_not_negative (m e : Z) (l : location) :
  not_negative (binary_round_aux prec emax false m e l) = true.
Proof.
  pose proof (binary_round_aux_sign false m e l) as H.
  destruct (binary_round_aux prec emax false m e l); simpl; subst; reflexivity.
Qed.

Lemma binary_round_not_negative (p : positive) (e : Z) :
  not_negative (binary_round prec emax false p e) = true.
Proof.
  unfold binary_round. destruct (shl_align p e _) as [mz ez].
  apply binary_round_aux_not_negative.
Qed.

Lemma square_not_negative (v : number) : not_negative (mul v v) = true.
Proof.
  destruct v as [s | s | | s m e]; try (destruct s; reflexivity); try reflexivity.
  unfold mul, SFmul. rewrite xorb_nilpotent. apply binary_round_aux_not_negative.
Qed.

Lemma mul_not_negative (a b : number) :
  not_negative a = true -> not_negative b = true -> not_negative (mul a b) = true.
Proof.
  destruct a as [[|] | [|] | | [|] ma ea], b as [[|] | [|] | | [|] mb eb];
    simpl; intros Ha Hb; try discriminate; try reflexivity.
  apply binary_round_aux_not_negative.
Qed.

Lemma add_not_negative (a b : number) :
  not_negative a = true -> not_negative b = true -> not_negative (add a b) = true.
Proof.
  destruct a as [[|] | [|] | | [|] ma ea], b as [[|] | [|] | | [|] mb eb];
    simpl; intros Ha Hb; try discriminate; try reflexivity.
  unfold add, SFadd, cond_Zopp. simpl Z.add. apply binary_round_not_negative.
Qed.

Lemma div_not_negative (a b : number) :
  not_negative a = true -> not_negative b = true -> not_negative (div a b) = true.
Proof.
  destruct a as [[|] | [|] | | [|] ma ea], b as [[|] | [|] | | [|] mb eb];
    simpl; intros Ha Hb; try discriminate; try reflexivity.
  unfold div, SFdiv.
  destruct (SFdiv_core_binary prec emax (Z.pos ma) ea (Z.pos mb) eb) as [[mz ez] lz].
  apply binary_round_aux_not_negative.
Qed.

Lemma sqrt_not_negative (a : number) :
  not_negative a = true -> not_negative (sqrt a) = true.
Proof.
  destruct a as [[|] | [|] | | [|] ma ea]; simpl; intros Ha;
    try discriminate; try reflexivity.
  unfold sqrt, SFsqrt.
  destruct (SFsqrt_core_binary prec emax (Z.pos ma) ea) as [[mz ez] lz].
  apply binary_round_aux_not_negative.
Qed.

Lemma of_nat_not_negative (n : nat) : not_negative (of_nat n) = true.
Proof.
  unfold of_nat, of_Z, binary_normalize.
  destruct (Z.of_nat n) as [| p | p] eqn:Hn; [reflexivity | | lia].
  apply binary_round_not_negative.
Qed.

Lemma five_not_negative : not_negative five = true.
Proof. reflexivity. Qed.

(* ================================================================== *)
(** * Double arithmetic: rounding *)
(* ================================================================== *)

Section Rounding.
Local Open Scope Z_scope.

Lemma fexp_fexp64 (e : Z) : fexp prec emax e = fexp64 e.
Proof. reflexivity. Qed.

Lemma digits2_pos_size (p : positive) : digits2_pos p = Pos.size p.
Proof. induction p as [p IH | p IH |]; simpl; congruence. Qed.

Lemma Zdigits2_digits (p : positive) : Zdigits2 (Z.pos p) = digits (Z.pos p).
Proof.
  unfold digits. simpl Zdigits2. rewrite digits2_pos_size.
  destruct p as [p | p |]; simpl; try rewrite Pos2Z.inj_succ; lia.
Qed.

Lemma Zdigits2_eq (m : Z) : 0 < m -> Zdigits2 m = digits m.
Proof. destruct m as [| p | p]; intros H; try lia. apply Zdigits2_digits. Qed.

Lemma digits_pos (m : Z) : 0 < m -> 0 < digits m.
Proof. intros H. unfold digits. pose proof (Z.log2_nonneg m). lia. Qed.

Lemma digits_le (a b : Z) : a <= b -> digits a <= digits b.
Proof. intros H. unfold digits. pose proof (Z.log2_le_mono a b H). lia. Qed.

Lemma digits_bounds (m : Z) : 0 < m -> 2 ^ (digits m - 1) <= m < 2 ^ digits m.
Proof.
  intros H. unfold digits. destruct (Z.log2_spec m H) as [H1 H2].
  replace (Z.log2 m + 1 - 1) with (Z.log2 m) by lia.
  replace (Z.log2 m + 1) with (Z.succ (Z.log2 m)) by lia. lia.
Qed.

Lemma digits_lt_pow2 (m k : Z) : 0 < m -> (m < 2 ^ k <-> digits m <= k).
Proof.
  intros H. unfold digits. rewrite (Z.log2_lt_pow2 m k H). lia.
Qed.

Lemma digits_mul_pow2 (m k : Z) : 0 < m -> 0 <= k -> digits (m * 2 ^ k) = digits m + k.
Proof.
  intros Hm Hk. unfold digits. rewrite Z.log2_mul_pow2 by lia. lia.
Qed.

Lemma fexp64_mono (a b : Z) : a <= b -> fexp64 a <= fexp64 b.
Proof. unfold fexp64. lia. Qed.

Lemma fexp64_ge_emin (e : Z) : -1074 <= fexp64 e.
Proof. unfold fexp64. lia. Qed.

(** ** Right shifts *)

Lemma shr_m_shr_1 (mrs : shr_record) :
  0 <= shr_m mrs -> shr_m (shr_1 mrs) = Z.div2 (shr_m mrs).
Proof.
  destruct mrs as [m r s]. simpl.
  destruct m as [| [p | p |] | p]; simpl; intros H; try reflexivity; lia.
Qed.

Lemma shr_m_iter_shr_1 (p : positive) :
  forall mrs, 0 <= shr_m mrs ->
    shr_m (iter_pos shr_1 p mrs) = Z.shiftr (shr_m mrs) (Z.pos p).
Proof.
  induction p as [p IH | p IH |]; intros mrs H; simpl iter_pos.
  - assert (H1 : 0 <= shr_m (shr_1 mrs)).
    { rewrite shr_m_shr_1 by exact H. apply Z.div2_nonneg. exact H. }
    assert (H2 : 0 <= shr_m (iter_pos shr_1 p (shr_1 mrs))).
    { rewrite IH by exact H1. apply Z.shiftr_nonneg. exact H1. }
    rewrite IH by exact H2. rewrite IH by exact H1.
    rewrite shr_m_shr_1 by exact H. rewrite Z.div2_spec.
    rewrite !Z.shiftr_shiftr by lia. f_equal. lia.
  - assert (H2 : 0 <= shr_m (iter_pos shr_1 p mrs)).
    { rewrite IH by exact H. apply Z.shiftr_nonneg. exact H. }
    rewrite IH by exact H2. rewrite IH by exact H.
    rewrite Z.shiftr_shiftr by lia. f_equal. lia.
  - rewrite shr_m_shr_1 by exact H. apply Z.div2_spec.
Qed.

Lemma shr_m_of_loc (m : Z) (l : location) : shr_m (shr_record_of_loc m l) = m.
Proof. destruct l as [| []]; reflexivity. Qed.

Lemma shr_fexp_spec (m e : Z) (l : location) (mrs : shr_record) (e' : Z) :
  0 <= m ->
  shr_fexp prec emax m e l = (mrs, e') ->
  e' = e + Z.max 0 (fexp64 (Zdigits2 m + e) - e) /\
  shr_m mrs = Z.shiftr m (e' - e).
Proof.
  intros Hm. unfold shr_fexp, shr. rewrite fexp_fexp64.
  destruct (fexp64 (Zdigits2 m + e) - e) as [| p | p] eqn:Hn; intros H;
    injection H as <- <-.
  - split; [lia |]. rewrite Z.sub_diag, Z.shiftr_0_r. apply shr_m_of_loc.
  - split; [lia |]. rewrite shr_m_iter_shr_1; rewrite shr_m_of_loc; [| exact Hm].
    f_equal. lia.
  - split; [lia |]. rewrite Z.sub_diag, Z.shiftr_0_r. apply shr_m_of_loc.
Qed.

Lemma round_nearest_even_cases (m : Z) (l : location) :
  round_nearest_even m l = m \/ round_nearest_even m l = m + 1.
Proof.
  destruct l as [| []]; simpl; auto. destruct (Z.even m); auto.
Qed.

Lemma binary_round_aux_spec (s : bool) (m e : Z) (l : location) :
  0 < m ->
  exists m2 : Z,
    let e1 := round_exponent m e in
    let m1 := Z.shiftr m (e1 - e) in
    let e2 := round_exponent m2 e1 in
    let m3 := Z.shiftr m2 (e2 - e1) in
    (m2 = m1 \/ m2 = m1 + 1) /\
    binary_round_aux prec emax s m e l =
      match m3 with
      | Z0 => S754_zero s
      | Z.pos q =>
          if e2 <=? emax - prec then S754_finite s q e2 else S754_infinity s
      | Z.neg _ => S754_nan
      end.
Proof.
  intros Hm. unfold binary_round_aux.
  destruct (shr_fexp prec emax m e l) as [mrs' e'] eqn:H1.
  apply shr_fexp_spec in H1; [| lia]. destruct H1 as [He' Hm1].
  set (m2 := round_nearest_even (shr_m mrs') (loc_of_shr_record mrs')).
  destruct (shr_fexp prec emax m2 e' loc_Exact) as [mrs'' e''] eqn:H2.
  assert (Hm1nn : 0 <= shr_m mrs').
  { rewrite Hm1. apply Z.shiftr_nonneg. lia. }
  assert (Hm2 : m2 = shr_m mrs' \/ m2 = shr_m mrs' + 1)
    by apply round_nearest_even_cases.
  apply shr_fexp_spec in H2; [| lia]. destruct H2 as [He'' Hm3].
  exists m2. cbv zeta. unfold round_exponent.
  rewrite <- He', <- Hm1, <- He'', <- Hm3.
  split; [exact Hm2 | reflexivity].
Qed.

Lemma binary_round_aux_rounds_to (s : bool) (m e : Z) (l : location) :
  0 < m -> rounds_to s m e (binary_round_aux prec emax s m e l).
Proof. intros Hm. apply binary_round_aux_spec. exact Hm. Qed.

(** One shift of a mantissa that is not already shorter than the format
    allows. *)
Lemma shift_step (m e : Z) :
  0 < m -> e <= fexp64 (digits m + e) ->
  let e' := round_exponent m e in
  let m' := Z.shiftr m (e' - e) in
  e' = fexp64 (digits m + e) /\ 0 <= m' /\
  (0 < m' -> digits m' + e' = digits m + e) /\
  (m' = 0 -> e' = -1074).
Proof.
  intros Hm He. cbv zeta. unfold round_exponent. rewrite (Zdigits2_eq m Hm).
  replace (e + Z.max 0 (fexp64 (digits m + e) - e)) with (fexp64 (digits m + e))
    by lia.
  set (n := fexp64 (digits m + e) - e). assert (Hn : 0 <= n) by (unfold n; lia).
  split; [reflexivity |]. split; [apply Z.shiftr_nonneg; lia |].
  pose proof (Z.log2_shiftr m n Hm) as Hlog. split.
  - intros Hpos. unfold digits in *.
    destruct (Z.lt_ge_cases (Z.log2 m) n) as [Hlt | Hge].
    + assert (Hz : Z.shiftr m n = 0) by (apply Z.shiftr_eq_0; lia).
      rewrite Hz in Hpos. lia.
    + rewrite Hlog. subst n. lia.
  - intros Hz. apply Z.shiftr_eq_0_iff in Hz.
    destruct Hz as [Hz | [_ Hlt]]; [lia |].
    subst n. unfold digits, fexp64 in *. lia.
Qed.

(** After the rounding step the mantissa is again not shorter than the
    format allows. *)
Lemma rounded_not_short (m e m1 e1 m2 : Z) :
  0 <= m1 ->
  (0 < m1 -> fexp64 (digits m1 + e1) = e1) ->
  (m1 = 0 -> e1 = -1074) ->
  m2 = m1 \/ m2 = m1 + 1 ->
  0 < m2 -> e1 <= fexp64 (digits m2 + e1).
Proof.
  intros Hnn Hpos Hzero Hm2 H2.
  destruct (Z.eq_dec m1 0) as [Hz | Hnz].
  - rewrite (Hzero Hz). apply fexp64_ge_emin.
  - rewrite <- (Hpos ltac:(lia)) at 1. apply fexp64_mono.
    assert (digits m1 <= digits m2) by (apply digits_le; lia). lia.
Qed.

Lemma canonical_of_digits (q : positive) (e : Z) :
  fexp64 (digits (Z.pos q) + e) = e -> canonical_mantissa prec emax q e = true.
Proof.
  intros H. unfold canonical_mantissa. rewrite fexp_fexp64.
  change (Z.pos (digits2_pos q)) with (Zdigits2 (Z.pos q)).
  rewrite Zdigits2_digits, H. apply Z.eqb_refl.
Qed.

Lemma rounds_to_shape (s : bool) (m e : Z) (r : number) :
  0 < m -> e <= fexp64 (digits m + e) ->
  rounds_to s m e r -> rounded_shape s r.
Proof.
  intros Hm He (m2 & Hm2 & ->). cbv zeta in *.
  destruct (shift_step m e Hm He) as (He1 & Hm1nn & Hm1pos & Hm1z).
  cbv zeta in *.
  set (e1 := round_exponent m e) in *.
  set (m1 := Z.shiftr m (e1 - e)) in *.
  destruct (Z.shiftr m2 (round_exponent m2 e1 - e1)) as [| q | q] eqn:Hm3.
  - reflexivity.
  - assert (H2 : 0 < m2).
    { destruct (Z.lt_ge_cases 0 m2) as [H | H]; [exact H |].
      assert (m2 = 0) by lia. subst m2. rewrite Z.shiftr_0_l in Hm3. lia. }
    assert (He2 : e1 <= fexp64 (digits m2 + e1)).
    { apply (rounded_not_short m e m1 e1 m2); try assumption.
      intros Hp. rewrite (Hm1pos Hp). symmetry. exact He1. }
    destruct (shift_step m2 e1 H2 He2) as (He2' & _ & Hm3pos & _).
    cbv zeta in *. rewrite Hm3 in Hm3pos. specialize (Hm3pos ltac:(lia)).
    destruct (round_exponent m2 e1 <=? emax - prec) eqn:Hle; simpl.
    + split; [reflexivity |]. unfold bounded. rewrite Hle, andb_true_r.
      apply canonical_of_digits. rewrite Hm3pos. symmetry. exact He2'.
    + reflexivity.
  - assert (H : 0 <= Z.shiftr m2 (round_exponent m2 e1 - e1)).
    { apply Z.shiftr_nonneg. lia. }
    lia.
Qed.

(** Rounding a non-zero integer at an exponent of the format never gives
    zero. *)
Lemma rounds_to_nonzero (s : bool) (m e : Z) (r : number) :
  0 < m -> -1074 <= e ->
  rounds_to s m e r ->
  match r with S754_zero _ => False | _ => True end.
Proof.
  intros Hm He (m2 & Hm2 & ->). cbv zeta in *.
  set (e1 := round_exponent m e) in *.
  set (m1 := Z.shiftr m (e1 - e)) in *.
  assert (He1 : -1074 <= e1) by (unfold e1, round_exponent; lia).
  assert (Hm1 : 0 < m1).
  { unfold m1. destruct (Z.lt_ge_cases 0 (Z.shiftr m (e1 - e))) as [H | H];
      [exact H |].
    assert (Hnn : 0 <= Z.shiftr m (e1 - e)) by (apply Z.shiftr_nonneg; lia).
    assert (Hz : Z.shiftr m (e1 - e) = 0) by lia.
    apply Z.shiftr_eq_0_iff in Hz. destruct Hz as [Hz | [_ Hlt]]; [lia |].
    unfold e1, round_exponent in Hlt. rewrite (Zdigits2_eq m Hm) in Hlt.
    unfold digits, fexp64 in Hlt. pose proof (Z.log2_nonneg m). lia. }
  assert (H2 : 0 < m2) by lia.
  destruct (Z.shiftr m2 (round_exponent m2 e1 - e1)) as [| q | q] eqn:Hm3.
  - apply Z.shiftr_eq_0_iff in Hm3. destruct Hm3 as [Hz | [_ Hlt]]; [lia |].
    unfold round_exponent in Hlt. rewrite (Zdigits2_eq m2 H2) in Hlt.
    unfold digits, fexp64 in Hlt. pose proof (Z.log2_nonneg m2). lia.
  - destruct (_ <=? _); exact I.
  - exact I.
Qed.

(** ** Alignment and [binary_round] *)

Lemma Pos_iter_xO (m d : positive) :
  Z.pos (Pos.iter xO m d) = Z.pos m * 2 ^ Z.pos d.
Proof.
  revert m. induction d as [| d IH] using Pos.peano_ind; intros m.
  - simpl. lia.
  - rewrite Pos.iter_succ, Pos2Z.inj_succ, Z.pow_succ_r by lia.
    rewrite Pos2Z.inj_xO, IH. lia.
Qed.

Lemma shl_align_spec (mx : positive) (ex ex' : Z) (mz : positive) (ez : Z) :
  shl_align mx ex ex' = (mz, ez) ->
  ez = Z.min ex ex' /\ Z.pos mz = Z.pos mx * 2 ^ (ex - ez).
Proof.
  unfold shl_align. destruct (ex' - ex) as [| d | d] eqn:Hd; intros H;
    injection H as <- <-.
  - split; [lia |]. rewrite Z.sub_diag. simpl. lia.
  - split; [lia |]. rewrite Z.sub_diag. simpl. lia.
  - split; [lia |]. rewrite Pos_iter_xO. f_equal. f_equal. lia.
Qed.

(** [binary_round] first aligns the mantissa, without changing the value,
    so that it is not shorter than the format allows, and then rounds. *)
Lemma binary_round_rounds_to (s : bool) (p : positive) (e : Z) :
  exists (mz : positive) (ez : Z),
    ez <= e /\ Z.pos mz = Z.pos p * 2 ^ (e - ez) /\
    ez <= fexp64 (digits (Z.pos mz) + ez) /\
    (-1074 <= e -> -1074 <= ez) /\
    rounds_to s (Z.pos mz) ez (binary_round prec emax s p e).
Proof.
  unfold binary_round.
  destruct (shl_align p e (fexp prec emax (Z.pos (digits2_pos p) + e)))
    as [mz ez] eqn:Ha.
  apply shl_align_spec in Ha. destruct Ha as [Hez Hmz].
  rewrite fexp_fexp64 in Hez.
  change (Z.pos (digits2_pos p)) with (Zdigits2 (Z.pos p)) in Hez.
  rewrite Zdigits2_digits in Hez.
  exists mz, ez. split; [lia |]. split; [exact Hmz |].
  split; [| split].
  - rewrite Hmz, digits_mul_pow2 by lia.
    replace (digits (Z.pos p) + (e - ez) + ez) with (digits (Z.pos p) + e) by lia.
    lia.
  - intros He. pose proof (fexp64_ge_emin (digits (Z.pos p) + e)). lia.
  - apply binary_round_aux_rounds_to. lia.
Qed.

(** The sign of a rounded integer is the sign of the integer. *)
Lemma normalize_sign (z ez : Z) :
  -1074 <= ez ->
  gtb (binary_normalize prec emax z ez false) zero = (0 <? z).
Proof.
  intros Hez. unfold gtb, binary_normalize. destruct z as [| p | p].
  - reflexivity.
  - destruct (binary_round_rounds_to false p ez)
      as (mz & ez' & Hle & Hmz & HP0 & Hmin & Hr).
    pose proof (rounds_to_shape false (Z.pos mz) ez' _ ltac:(lia) HP0 Hr) as Hs.
    pose proof (rounds_to_nonzero false (Z.pos mz) ez' _ ltac:(lia) (Hmin Hez) Hr)
      as Hnz.
    destruct (binary_round prec emax false p ez) as [s | s | | s q e'];
      simpl in Hs; try contradiction.
    + subst s. reflexivity.
    + destruct Hs as [-> _]. reflexivity.
  - destruct (binary_round_rounds_to true p ez)
      as (mz & ez' & Hle & Hmz & HP0 & Hmin & Hr).
    pose proof (rounds_to_shape true (Z.pos mz) ez' _ ltac:(lia) HP0 Hr) as Hs.
    destruct (binary_round prec emax true p ez) as [s | s | | s q e'];
      simpl in Hs; try contradiction.
    + subst s. reflexivity.
    + subst s. reflexivity.
    + destruct Hs as [-> _]. reflexivity.
Qed.

(** ** Rounding a value below one *)

Lemma leb_one_of_bits (q : positive) (e : Z) :
  e < -52 \/ (e = -52 /\ Z.pos q <= 4503599627370496) ->
  SFleb (S754_finite false q e) one = true.
Proof.
  intros H. unfold SFleb, one, SFcompare.
  destruct H as [H | [-> H]].
  - rewrite (proj2 (Z.compare_lt_iff e (-52)) H). reflexivity.
  - rewrite Z.compare_refl.
    destruct (Pos.compare_cont Eq q 4503599627370496) eqn:Hc; try reflexivity.
    apply (proj1 (Pos.compare_gt_iff q 4503599627370496)) in Hc. lia.
Qed.

Lemma rounds_to_below_one (m e : Z) (r : number) :
  0 < m -> e <= fexp64 (digits m + e) -> m < 2 ^ (- e) ->
  rounds_to false m e r ->
  match r with
  | S754_zero _ => True
  | S754_finite _ q e' => SFleb r one = true
  | _ => False
  end.
Proof.
  intros Hm He Hlt (m2 & Hm2 & ->). cbv zeta in *.
  destruct (shift_step m e Hm He) as (He1 & Hm1nn & Hm1pos & Hm1z).
  cbv zeta in *.
  set (e1 := round_exponent m e) in *.
  set (m1 := Z.shiftr m (e1 - e)) in *.
  assert (Hd : digits m <= - e) by (apply digits_lt_pow2; assumption).
  assert (He1le : e1 <= -53) by (rewrite He1; unfold fexp64; lia).
  assert (He1ge : -1074 <= e1) by (rewrite He1; apply fexp64_ge_emin).
  assert (Hm1lt : m1 < 2 ^ (- e1)).
  { unfold m1. rewrite Z.shiftr_div_pow2 by lia.
    apply Z.div_lt_upper_bound; [apply Z.pow_pos_nonneg; lia |].
    rewrite <- Z.pow_add_r by lia.
    replace (e1 - e + - e1) with (- e) by lia. exact Hlt. }
  assert (Hm2le : m2 <= 2 ^ (- e1)) by lia.
  destruct (Z.shiftr m2 (round_exponent m2 e1 - e1)) as [| q | q] eqn:Hm3.
  - exact I.
  - assert (H2 : 0 < m2).
    { destruct (Z.lt_ge_cases 0 m2) as [H | H]; [exact H |].
      assert (m2 = 0) by lia. subst m2. rewrite Z.shiftr_0_l in Hm3. lia. }
    assert (He2 : e1 <= fexp64 (digits m2 + e1)).
    { apply (rounded_not_short m e m1 e1 m2); try assumption.
      intros Hp. rewrite (Hm1pos Hp). symmetry. exact He1. }
    destruct (shift_step m2 e1 H2 He2) as (He2' & _ & _ & _). cbv zeta in *.
    set (e2 := round_exponent m2 e1) in *.
    assert (Hd2 : digits m2 <= - e1 + 1).
    { apply digits_lt_pow2; [exact H2 |].
      rewrite Z.pow_add_r by lia. change (2 ^ 1) with 2.
      assert (0 < 2 ^ (- e1)) by (apply Z.pow_pos_nonneg; lia). lia. }
    assert (He2le : e2 <= -52) by (rewrite He2'; unfold fexp64; lia).
    assert (Hfin : (e2 <=? emax - prec) = true).
    { apply Z.leb_le. unfold emax, prec. lia. }
    rewrite Hfin. apply leb_one_of_bits.
    destruct (Z.eq_dec e2 (-52)) as [Heq | Hne]; [right | left; lia].
    split; [exact Heq |]. rewrite <- Hm3.
    rewrite Z.shiftr_div_pow2 by lia.
    apply Z.div_le_upper_bound; [apply Z.pow_pos_nonneg; lia |].
    assert (Hp : 2 ^ (e2 - e1) * 2 ^ 52 = 2 ^ (- e1)).
    { rewrite <- Z.pow_add_r by lia. f_equal. lia. }
    change (2 ^ 52) with 4503599627370496 in Hp. rewrite Hp. exact Hm2le.
  - assert (H : 0 <= Z.shiftr m2 (round_exponent m2 e1 - e1)).
    { apply Z.shiftr_nonneg. lia. }
    lia.
Qed.

Lemma shl_align_one (ez : Z) (ma : positive) (ea : Z) :
  (ez <= -52)%Z ->
  shl_align 4503599627370496 (-52) ez = (ma, ea) ->
  ea = ez /\ Z.pos ma = (2 ^ (- ez))%Z.
Proof.
  intros Hez Ha. apply shl_align_spec in Ha. destruct Ha as [Hea Hma].
  split; [lia |]. rewrite Hma.
  change (Z.pos 4503599627370496) with (2 ^ 52)%Z.
  rewrite <- Z.pow_add_r by lia. f_equal. lia.
Qed.

End Rounding.

Section ExactRounding.
Local Open Scope Z_scope.

(** ** Rounding a value the format holds exactly *)

Lemma shr_1_even (q : Z) :
  shr_1 {| shr_m := 2 * q; shr_r := false; shr_s := false |}
  = {| shr_m := q; shr_r := false; shr_s := false |}.
Proof. destruct q as [| p | p]; reflexivity. Qed.

(** Shifting out zero bits leaves no rounding information behind. *)
Lemma iter_shr_1_exact (n : positive) :
  forall q,
    iter_pos shr_1 n {| shr_m := q * 2 ^ Z.pos n; shr_r := false; shr_s := false |}
    = {| shr_m := q; shr_r := false; shr_s := false |}.
Proof.
  induction n as [n IH | n IH |]; intros q; cbn [iter_pos].
  - replace (q * 2 ^ Z.pos n~1) with (2 * ((q * 2 ^ Z.pos n) * 2 ^ Z.pos n)).
    + rewrite shr_1_even, IH. apply IH.
    + replace (Z.pos n~1) with (Z.pos n + Z.pos n + 1) by lia.
      rewrite !Z.pow_add_r by lia. change (2 ^ 1) with 2. ring.
  - replace (q * 2 ^ Z.pos n~0) with ((q * 2 ^ Z.pos n) * 2 ^ Z.pos n).
    + rewrite IH. apply IH.
    + replace (Z.pos n~0) with (Z.pos n + Z.pos n) by lia.
      rewrite Z.pow_add_r by lia. ring.
  - change (2 ^ 1) with 2. rewrite Z.mul_comm. apply shr_1_even.
Qed.

Lemma shr_fexp_exact (q : positive) (n e : Z) :
  0 <= n ->
  fexp64 (digits (Z.pos q) + n + e) = e + n ->
  shr_fexp prec emax (Z.pos q * 2 ^ n) e loc_Exact
  = ({| shr_m := Z.pos q; shr_r := false; shr_s := false |}, e + n).
Proof.
  intros Hn Hc. unfold shr_fexp. rewrite fexp_fexp64.
  assert (Hpos : 0 < Z.pos q * 2 ^ n).
  { apply Z.mul_pos_pos; [lia | apply Z.pow_pos_nonneg; lia]. }
  rewrite (Zdigits2_eq _ Hpos), digits_mul_pow2, Hc by lia.
  replace (e + n - e) with n by lia.
  unfold shr, shr_record_of_loc. destruct n as [| k | k].
  - rewrite Z.pow_0_r, Z.mul_1_r, Z.add_0_r. reflexivity.
  - rewrite iter_shr_1_exact. reflexivity.
  - lia.
Qed.

Lemma bounded_canonical (q : positive) (e : Z) :
  bounded prec emax q e = true ->
  fexp64 (digits (Z.pos q) + e) = e /\ (e <=? emax - prec) = true.
Proof.
  unfold bounded, canonical_mantissa. intros H.
  apply andb_true_iff in H. destruct H as [H1 H2]. apply Z.eqb_eq in H1.
  rewrite fexp_fexp64 in H1.
  change (Z.pos (digits2_pos q)) with (Zdigits2 (Z.pos q)) in H1.
  rewrite Zdigits2_digits in H1. split; assumption.
Qed.

(** A canonical value, given with [n] more low zero bits, rounds to
    itself. *)
Lemma binary_round_aux_exact (s : bool) (q : positive) (n e : Z) :
  0 <= n ->
  bounded prec emax q (e + n) = true ->
  binary_round_aux prec emax s (Z.pos q * 2 ^ n) e loc_Exact
  = S754_finite s q (e + n).
Proof.
  intros Hn Hb. destruct (bounded_canonical q (e + n) Hb) as [Hc Hle].
  unfold binary_round_aux.
  rewrite shr_fexp_exact;
    [| exact Hn
     | replace (digits (Z.pos q) + n + e) with (digits (Z.pos q) + (e + n)) by lia;
       exact Hc].
  cbn [shr_m loc_of_shr_record round_nearest_even].
  replace (Z.pos q) with (Z.pos q * 2 ^ 0) at 1 by (rewrite Z.pow_0_r; lia).
  rewrite shr_fexp_exact;
    [| lia
     | replace (digits (Z.pos q) + 0 + (e + n)) with (digits (Z.pos q) + (e + n))
         by lia;
       rewrite Z.add_0_r; exact Hc].
  cbn [shr_m]. rewrite Z.add_0_r, Hle. reflexivity.
Qed.

(** [binary_round] returns the canonical representation of a value that
    has one. *)
Lemma binary_round_exact (s : bool) (p : positive) (e : Z) (q : positive) (E : Z) :
  bounded prec emax q E = true ->
  (E <= e /\ Z.pos q = Z.pos p * 2 ^ (e - E)) \/
  (e <= E /\ Z.pos p = Z.pos q * 2 ^ (E - e)) ->
  binary_round prec emax s p e = S754_finite s q E.
Proof.
  intros Hb Hv. destruct (bounded_canonical q E Hb) as [Hc _].
  assert (Hd : digits (Z.pos p) + e = digits (Z.pos q) + E).
  { destruct Hv as [[Hle Hq] | [Hle Hp]].
    - rewrite Hq, digits_mul_pow2 by lia. lia.
    - rewrite Hp, digits_mul_pow2 by lia. lia. }
  unfold binary_round.
  destruct (shl_align p e (fexp prec emax (Z.pos (digits2_pos p) + e)))
    as [mz ez] eqn:Ha.
  apply shl_align_spec in Ha. destruct Ha as [Hez Hmz].
  rewrite fexp_fexp64 in Hez.
  change (Z.pos (digits2_pos p)) with (Zdigits2 (Z.pos p)) in Hez.
  rewrite Zdigits2_digits, Hd, Hc in Hez.
  destruct (Z.le_ge_cases E e) as [Hle | Hge].
  - assert (Hq : Z.pos q = Z.pos p * 2 ^ (e - E)).
    { destruct Hv as [[_ Hq] | [Hle' Hp]]; [exact Hq |].
      assert (E = e) by lia. subst E.
      rewrite Z.sub_diag, Z.pow_0_r in Hp. rewrite Z.sub_diag, Z.pow_0_r. lia. }
    assert (Hez' : ez = E) by lia. clear Hez. subst ez.
    assert (Hmq : Z.pos mz = Z.pos q * 2 ^ 0)
      by (rewrite Z.pow_0_r, Z.mul_1_r, Hmz, Hq; reflexivity).
    rewrite Hmq. rewrite <- (Z.add_0_r E) at 2.
    apply binary_round_aux_exact; [lia | rewrite Z.add_0_r; exact Hb].
  - assert (Hp : Z.pos p = Z.pos q * 2 ^ (E - e)).
    { destruct Hv as [[Hle' Hq] | [_ Hp]]; [| exact Hp].
      assert (E = e) by lia. subst E.
      rewrite Z.sub_diag, Z.pow_0_r in Hq. rewrite Z.sub_diag, Z.pow_0_r. lia. }
    assert (Hez' : ez = e) by lia. clear Hez. subst ez.
    rewrite Z.sub_diag, Z.pow_0_r, Z.mul_1_r in Hmz. rewrite Hmz, Hp.
    replace E with (e + (E - e)) at 2 by lia.
    apply binary_round_aux_exact; [lia |].
    replace (e + (E - e)) with E by lia. exact Hb.
Qed.
End ExactRounding.

Section ExactIntegers.
Local Open Scope Z_scope.

(** ** Integers below 2^53 *)

(** A positive integer below 2^53 is a double: its mantissa is the integer
    shifted to 53 digits. *)
Lemma of_Z_canonical (z : positive) :
  Z.pos z < 9007199254740992 ->
  exists q : positive,
    Z.pos q = Z.pos z * 2 ^ (53 - digits (Z.pos z)) /\
    bounded prec emax q (digits (Z.pos z) - 53) = true /\
    of_Z (Z.pos z) = S754_finite false q (digits (Z.pos z) - 53).
Proof.
  intros Hz. set (d := digits (Z.pos z)).
  assert (Hd1 : 0 < d) by (apply digits_pos; lia).
  assert (Hd53 : d <= 53).
  { apply digits_lt_pow2; [lia |]. change (2 ^ 53) with 9007199254740992. exact Hz. }
  assert (Hpos : 0 < Z.pos z * 2 ^ (53 - d)).
  { apply Z.mul_pos_pos; [lia | apply Z.pow_pos_nonneg; lia]. }
  destruct (Z.pos z * 2 ^ (53 - d)) as [| q | q] eqn:Hq; try lia.
  exists q. split; [reflexivity |].
  assert (Hb : bounded prec emax q (d - 53) = true).
  { unfold bounded. apply andb_true_iff. split.
    - apply canonical_of_digits. rewrite <- Hq, digits_mul_pow2 by lia.
      fold d. unfold fexp64. lia.
    - apply Z.leb_le. unfold emax, prec. lia. }
  split; [exact Hb |].
  unfold of_Z, binary_normalize.
  apply binary_round_exact; [exact Hb |].
  left. split; [lia |]. rewrite <- Hq. f_equal. f_equal. lia.
Qed.

(** The difference of two integers of a frame below 2^53 is computed
    exactly. *)
Lemma sub_of_Z (w x : Z) :
  0 <= x <= w -> w < 9007199254740992 ->
  sub (of_Z w) (of_Z x) = of_Z (w - x).
Proof.
  intros Hx Hw.
  destruct x as [| px | px]; [| | lia].
  { rewrite Z.sub_0_r. change (of_Z 0) with zero.
    destruct w as [| pw | pw]; [reflexivity | | lia].
    destruct (of_Z_canonical pw Hw) as (q & _ & _ & ->). reflexivity. }
  destruct w as [| pw | pw]; try lia.
  destruct (of_Z_canonical pw Hw) as (qw & Hqw & Hbw & ->).
  destruct (of_Z_canonical px ltac:(lia)) as (qx & Hqx & Hbx & ->).
  set (dw := digits (Z.pos pw)) in *. set (dx := digits (Z.pos px)) in *.
  assert (Hdx1 : 0 < dx) by (apply digits_pos; lia).
  assert (Hdw53 : dw <= 53).
  { apply digits_lt_pow2; [lia |]. change (2 ^ 53) with 9007199254740992. exact Hw. }
  assert (Hdxw : dx <= dw) by (apply digits_le; lia).
  unfold sub, SFsub. cbv zeta.
  replace (Z.min (dw - 53) (dx - 53)) with (dx - 53) by lia.
  destruct (shl_align qw (dw - 53) (dx - 53)) as [mw ew] eqn:Haw.
  destruct (shl_align qx (dx - 53) (dx - 53)) as [mx ex] eqn:Hax.
  apply shl_align_spec in Haw. destruct Haw as [Hew Hmw].
  apply shl_align_spec in Hax. destruct Hax as [Hex Hmx].
  assert (Hew' : ew = dx - 53) by lia. assert (Hex' : ex = dx - 53) by lia.
  clear Hew Hex. subst ew ex.
  unfold cond_Zopp, fst.
  assert (Hmw' : Z.pos mw = Z.pos pw * 2 ^ (53 - dx)).
  { rewrite Hmw, Hqw, <- Z.mul_assoc, <- Z.pow_add_r by lia. f_equal. f_equal. lia. }
  assert (Hmx' : Z.pos mx = Z.pos px * 2 ^ (53 - dx)).
  { rewrite Hmx, Hqx, <- Z.mul_assoc, <- Z.pow_add_r by lia. f_equal. f_equal. lia. }
  assert (Hdiff : Z.pos mw - Z.pos mx = (Z.pos pw - Z.pos px) * 2 ^ (53 - dx)).
  { rewrite Hmw', Hmx'. ring. }
  rewrite Hdiff.
  destruct (Z.pos pw - Z.pos px) as [| v | v] eqn:Hv; [reflexivity | | lia].
  destruct (of_Z_canonical v ltac:(lia)) as (q & Hq & Hb & ->).
  set (dv := digits (Z.pos v)) in *.
  assert (Hdv1 : 0 < dv) by (apply digits_pos; lia).
  assert (Hdvw : dv <= dw) by (apply digits_le; lia).
  assert (Hpos : 0 < Z.pos v * 2 ^ (53 - dx)).
  { apply Z.mul_pos_pos; [lia | apply Z.pow_pos_nonneg; lia]. }
  destruct (Z.pos v * 2 ^ (53 - dx)) as [| p | p] eqn:Hp; try lia.
  unfold binary_normalize.
  apply binary_round_exact; [exact Hb |].
  destruct (Z.le_ge_cases dv dx) as [Hle | Hge].
  - left. split; [lia |].
    rewrite <- Hp, Hq, <- Z.mul_assoc, <- Z.pow_add_r by lia.
    f_equal. f_equal. lia.
  - right. split; [lia |].
    rewrite <- Hp, Hq, <- Z.mul_assoc, <- Z.pow_add_r by lia.
    f_equal. f_equal. lia.
Qed.

(** Flipping an integer coordinate of the frame twice gives it back. *)
Lemma flip_twice_of_Z (w x : Z) :
  0 <= x <= w -> w < 9007199254740992 ->
  sub (of_Z w) (sub (of_Z w) (of_Z x)) = of_Z x.
Proof.
  intros Hx Hw. rewrite (sub_of_Z w x Hx Hw).
  rewrite (sub_of_Z w (w - x)) by lia. f_equal. lia.
Qed.

End ExactIntegers.

(* ================================================================== *)
(** * The order of scores *)
(* ================================================================== *)

Section ScoreOrder.
Local Open Scope Z_scope.

Lemma bounded_facts (m : positive) (e : Z) :
  bounded prec emax m e = true ->
  -1074 <= e /\ Z.pos m < 9007199254740992 /\
  (-1074 < e -> 4503599627370496 <= Z.pos m).
Proof.
  unfold bounded, canonical_mantissa. intros H.
  apply andb_true_iff in H. destruct H as [H _]. apply Z.eqb_eq in H.
  rewrite fexp_fexp64 in H.
  change (Z.pos (digits2_pos m)) with (Zdigits2 (Z.pos m)) in H.
  rewrite Zdigits2_digits in H.
  pose proof (digits_bounds (Z.pos m) ltac:(lia)) as [Hlo Hhi].
  assert (Hd : digits (Z.pos m) <= 53) by (unfold fexp64 in H; lia).
  split; [unfold fexp64 in H; lia |]. split.
  - change 9007199254740992 with (2 ^ 53).
    apply digits_lt_pow2; [lia | exact Hd].
  - intros He. assert (Hd53 : digits (Z.pos m) = 53) by (unfold fexp64 in H; lia).
    rewrite Hd53 in Hlo. exact Hlo.
Qed.

Lemma score_bounded (m : positive) (e : Z) :
  score (S754_finite false m e) = true -> bounded prec emax m e = true.
Proof. simpl. intros H. apply andb_true_iff in H. tauto. Qed.

Lemma score_cases (r : number) :
  score r = true ->
  r = zero \/ exists m e, r = S754_finite false m e /\ bounded prec emax m e = true.
Proof.
  destruct r as [[|] | [|] | | [|] m e]; intros H; try discriminate H.
  - left. reflexivity.
  - right. exists m, e. split; [reflexivity | apply score_bounded; exact H].
Qed.

(** On scores, the comparison of doubles is the comparison of ranks. *)
Lemma score_compare (a b : number) :
  score a = true -> score b = true ->
  SFcompare a b = Some (rank a ?= rank b).
Proof.
  intros Ha Hb.
  destruct (score_cases a Ha) as [-> | (ma & ea & -> & Hba)];
    destruct (score_cases b Hb) as [-> | (mb & eb & -> & Hbb)].
  - reflexivity.
  - destruct (bounded_facts mb eb Hbb) as (H1 & H2 & H3).
    assert (H : rank zero < rank (S754_finite false mb eb))
      by (unfold rank, zero; lia).
    rewrite (proj2 (Z.compare_lt_iff _ _) H). reflexivity.
  - destruct (bounded_facts ma ea Hba) as (H1 & H2 & H3).
    assert (H : rank zero < rank (S754_finite false ma ea))
      by (unfold rank, zero; lia).
    rewrite (proj2 (Z.compare_gt_iff _ _) H). reflexivity.
  - destruct (bounded_facts ma ea Hba) as (Ha1 & Ha2 & Ha3).
    destruct (bounded_facts mb eb Hbb) as (Hb1 & Hb2 & Hb3).
    unfold SFcompare, rank. f_equal.
    destruct (Z.compare_spec ea eb) as [Heq | Hlt | Hgt].
    + subst eb. change (Pos.compare_cont Eq ma mb) with (Z.pos ma ?= Z.pos mb).
      symmetry. destruct (Z.compare_spec (Z.pos ma) (Z.pos mb)) as [H | H | H].
      * apply Z.compare_eq_iff. lia.
      * apply Z.compare_lt_iff. lia.
      * apply Z.compare_gt_iff. lia.
    + symmetry. apply Z.compare_lt_iff. lia.
    + symmetry. apply Z.compare_gt_iff. lia.
Qed.

Lemma score_leb (a b : number) :
  score a = true -> score b = true ->
  leb a b = (rank a <=? rank b).
Proof.
  intros Ha Hb. unfold leb, SFleb. rewrite (score_compare a b Ha Hb).
  unfold Z.leb. destruct (rank a ?= rank b); reflexivity.
Qed.

Lemma score_eqb_eq (a b s : number) :
  score a = true -> score b = true ->
  eqb a s = true -> eqb b s = true -> a = b.
Proof.
  intros Ha Hb.
  destruct (score_cases a Ha) as [-> | (ma & ea & -> & _)];
    destruct (score_cases b Hb) as [-> | (mb & eb & -> & _)];
    destruct s as [ss | ss | | ss ms es]; unfold eqb, SFeqb, SFcompare;
    try reflexivity; try discriminate;
    try (destruct ss; discriminate).
  destruct ss; try discriminate.
  destruct (Z.compare_spec ea es) as [-> | _ | _]; try discriminate.
  destruct (Z.compare_spec eb es) as [-> | _ | _]; try discriminate.
  intros H1 H2.
  destruct (Pos.compare_cont Eq ma ms) eqn:Hc1; try discriminate.
  destruct (Pos.compare_cont Eq mb ms) eqn:Hc2; try discriminate.
  apply Pos.compare_eq in Hc1. apply Pos.compare_eq in Hc2. congruence.
Qed.

(** Canonical mantissas, brought to a common exponent, compare as the
    ranks do. *)
Lemma aligned_compare (mx my : positive) (ex ey : Z) :
  bounded prec emax mx ex = true -> bounded prec emax my ey = true ->
  let ez := Z.min ey ex in
  (0 <? Z.pos my * 2 ^ (ey - ez) - Z.pos mx * 2 ^ (ex - ez))
  = (rank (S754_finite false mx ex) <? rank (S754_finite false my ey)).
Proof.
  intros Hx Hy ez.
  destruct (bounded_facts mx ex Hx) as (Hx1 & Hx2 & Hx3).
  destruct (bounded_facts my ey Hy) as (Hy1 & Hy2 & Hy3).
  unfold rank.
  destruct (Z.lt_trichotomy ex ey) as [Hlt | [Heq | Hgt]].
  - replace (ex - ez) with 0 by (unfold ez; lia).
    replace (ey - ez) with (ey - ex) by (unfold ez; lia).
    assert (Hk : 2 ^ 1 <= 2 ^ (ey - ex)) by (apply Z.pow_le_mono_r; lia).
    change (2 ^ 1) with 2 in Hk. change (2 ^ 0) with 1.
    assert (Hp : 2 * Z.pos my <= Z.pos my * 2 ^ (ey - ex)) by nia.
    rewrite (proj2 (Z.ltb_lt _ _)) by lia.
    symmetry. apply Z.ltb_lt. lia.
  - subst ey. replace (ex - ez) with 0 by (unfold ez; lia).
    change (2 ^ 0) with 1.
    destruct (Z.lt_ge_cases (Z.pos mx) (Z.pos my)) as [H | H].
    + rewrite (proj2 (Z.ltb_lt _ _)) by lia. symmetry. apply Z.ltb_lt. lia.
    + rewrite (proj2 (Z.ltb_ge _ _)) by lia. symmetry. apply Z.ltb_ge. lia.
  - replace (ey - ez) with 0 by (unfold ez; lia).
    replace (ex - ez) with (ex - ey) by (unfold ez; lia).
    assert (Hk : 2 ^ 1 <= 2 ^ (ex - ey)) by (apply Z.pow_le_mono_r; lia).
    change (2 ^ 1) with 2 in Hk. change (2 ^ 0) with 1.
    assert (Hp : 2 * Z.pos mx <= Z.pos mx * 2 ^ (ex - ey)) by nia.
    rewrite (proj2 (Z.ltb_ge _ _)) by lia.
    symmetry. apply Z.ltb_ge. lia.
Qed.

(** The comparator of [findSimilarPoses] on scores: [y - x > 0] exactly
    when [x] is the smaller score. *)
Lemma score_difference_sign (x y : number) :
  score x = true -> score y = true ->
  gtb (sub y x) zero = (rank x <? rank y).
Proof.
  intros Hx Hy.
  destruct (score_cases x Hx) as [-> | (mx & ex & -> & Hbx)];
    destruct (score_cases y Hy) as [-> | (my & ey & -> & Hby)].
  - reflexivity.
  - destruct (bounded_facts my ey Hby) as (H1 & H2 & H3).
    change (gtb (sub (S754_finite false my ey) zero) zero) with true.
    symmetry. apply Z.ltb_lt. unfold rank, zero. lia.
  - destruct (bounded_facts mx ex Hbx) as (H1 & H2 & H3).
    change (gtb (sub zero (S754_finite false mx ex)) zero) with false.
    symmetry. apply Z.ltb_ge. unfold rank, zero. lia.
  - destruct (bounded_facts mx ex Hbx) as (Hx1 & _).
    destruct (bounded_facts my ey Hby) as (Hy1 & _).
    unfold sub, SFsub. cbv zeta.
    destruct (shl_align my ey (Z.min ey ex)) as [my' ey'] eqn:Hay.
    destruct (shl_align mx ex (Z.min ey ex)) as [mx' ex'] eqn:Hax.
    apply shl_align_spec in Hay. destruct Hay as [Hey' Hmy'].
    apply shl_align_spec in Hax. destruct Hax as [Hex' Hmx'].
    unfold cond_Zopp, fst.
    rewrite normalize_sign by lia.
    rewrite Hmy', Hmx'.
    replace ey' with (Z.min ey ex) by lia.
    replace ex' with (Z.min ey ex) by lia.
    apply aligned_compare; assumption.
Qed.

End ScoreOrder.

(* ================================================================== *)
(** * The mirror table *)
(* ================================================================== *)

Lemma partners_in_range_spec (n : nat) :
  partners_in_range n = true <->
  forall i, (i < n)%nat -> (mirror_source i < n)%nat.
Proof.
  unfold partners_in_range. rewrite forallb_forall. split.
  - intros H i Hi. apply Nat.ltb_lt. apply H. apply in_seq. lia.
  - intros H i Hi. apply in_seq in Hi. apply Nat.ltb_lt. apply H. lia.
Qed.

Lemma mirror_source_beyond (i : nat) : mirror_source (17 + i) = (17 + i)%nat.
Proof. reflexivity. Qed.

(** The mirror table is symmetric: the partner of the partner is the
    position itself. *)
Lemma mirror_source_involutive (i : nat) : mirror_source (mirror_source i) = i.
Proof.
  do 17 (destruct i as [| i]; [reflexivity |]).
  change (S (S (S (S (S (S (S (S (S (S (S (S (S (S (S (S (S i)))))))))))))))))
    with (17 + i)%nat.
  rewrite !mirror_source_beyond. reflexivity.
Qed.

Lemma mirror_source_ge17 (n : nat) : (17 <= n)%nat -> partners_in_range n = true.
Proof.
  intros Hn. apply partners_in_range_spec. intros i Hi.
  destruct (Nat.lt_ge_cases i 17) as [Hlt | Hge].
  - assert (Hs : (mirror_source i < 17)%nat).
    { do 17 (destruct i as [| i]; [vm_compute; lia |]). lia. }
    lia.
  - replace i with (17 + (i - 17))%nat by lia.
    rewrite mirror_source_beyond. lia.
Qed.

Lemma mirrorKeypoint_Return (kps : list Keypoint) (w : number) (k : Keypoint)
    (i : nat) (src : Keypoint) :
  nth_error kps i = Some k ->
  nth_error kps (mirror_source i) = Some src ->
  mirrorKeypoint kps w k i =
    Return {| x := sub w (x src); y := y src;
              confidence := confidence src; label := label k |}.
Proof.
  unfold mirrorKeypoint, mirror_source. intros Hk Hsrc.
  destruct (Map_get MIRROR_MAPPING i) as [j |].
  - rewrite Hsrc. reflexivity.
  - rewrite Hk in Hsrc. inv Hsrc. reflexivity.
Qed.

Lemma mirrorKeypoint_Return_inv (kps : list Keypoint) (w : number) (k : Keypoint)
    (i : nat) (k' : Keypoint) :
  nth_error kps i = Some k ->
  mirrorKeypoint kps w k i = Return k' ->
  exists src, nth_error kps (mirror_source i) = Some src /\
    k' = {| x := sub w (x src); y := y src;
            confidence := confidence src; label := label k |}.
Proof.
  unfold mirrorKeypoint, mirror_source. intros Hk H.
  destruct (Map_get MIRROR_MAPPING i) as [j |].
  - destruct (nth_error kps j) as [src |]; [| discriminate H].
    inv H. eauto.
  - inv H. eauto.
Qed.

Lemma mirrorPose_Return_image (P M : PoseData) :
  mirrorPose P = Return M -> mirror_image P M.
Proof.
  destruct P as [kps sk w h]. unfold mirrorPose, Array_map. intros H.
  apply bind_Return_inv in H. destruct H as [kps' [Hmap H]]. inv H.
  apply mapi_from_Return in Hmap. destruct Hmap as [Hlen Hnth].
  unfold mirror_image; simpl. repeat split; try assumption.
  intros i k Hk. destruct (Hnth _ _ Hk) as [k' [Hk' Hf]]. simpl in Hf.
  destruct (mirrorKeypoint_Return_inv _ _ _ _ _ Hk Hf) as [src [Hsrc ->]].
  eauto.
Qed.

Lemma mirrorPose_total (P : PoseData) :
  partners_in_range (List.length (keypoints P)) = true ->
  exists M, mirrorPose P = Return M.
Proof.
  destruct P as [kps sk w h]. simpl. intros Hr.
  rewrite partners_in_range_spec in Hr.
  unfold mirrorPose, Array_map.
  destruct (@mapi_from_total _ _ (mirrorKeypoint kps w) kps 0) as [kps' Hk'].
  - intros i k Hk. simpl.
    assert (Hi : (i < List.length kps)%nat).
    { apply nth_error_Some. congruence. }
    destruct (nth_error kps (mirror_source i)) as [src |] eqn:Hsrc.
    + erewrite mirrorKeypoint_Return by eassumption. eauto.
    + apply nth_error_None in Hsrc. specialize (Hr i Hi). lia.
  - rewrite Hk'. simpl. eauto.
Qed.

Lemma mirrorPose_Return_in_range (P M : PoseData) :
  mirrorPose P = Return M ->
  partners_in_range (List.length (keypoints P)) = true.
Proof.
  intros H. apply mirrorPose_Return_image in H.
  destruct H as (_ & _ & _ & _ & Hnth).
  apply partners_in_range_spec. intros i Hi.
  destruct (nth_error (keypoints P) i) as [k |] eqn:Hk.
  - destruct (Hnth _ _ Hk) as [src [Hsrc _]].
    apply nth_error_Some. congruence.
  - apply nth_error_None in Hk. lia.
Qed.

(* ================================================================== *)
(** * Mirror transform *)
(* ================================================================== *)

(** C1, as stated, fails: on a pose whose keypoint array does not hold the
    mirror partner of one of its positions, [mirrorPose] throws a
    [TypeError] and produces no keypoints at all. *)
Lemma mirrorPose_short_pose_throws :
  mirrorPose short_pose =
    Throw (TypeError "Cannot read properties of undefined (reading 'x')") /\
  ~ exists M, mirrorPose short_pose = Return M.
Proof.
  assert (H : mirrorPose short_pose =
    Throw (TypeError "Cannot read properties of undefined (reading 'x')"))
    by (vm_compute; reflexivity).
  split; [exact H |].
  intros [M HM]. rewrite H in HM. discriminate HM.
Qed.

(** C1 (amended): for every PoseData whose keypoint array holds the mirror
    partner of each of its positions (every pose with at least 17
    keypoints does), [mirrorPose] returns a pose with the same width,
    height and skeleton and as many keypoints, whose keypoint at position
    [i] is the source keypoint at [i]'s mirror partner (at [i] itself when
    there is none) with [x] replaced by [width - x] and with the label of
    position [i].  In particular, on a 17-keypoint 768x768 pose with the
    left shoulder at (300,400) and the right shoulder at (468,400), the
    left-shoulder slot receives (300,400) and the right-shoulder slot
    (468,400). *)
Theorem mirrorPose_swaps_and_flips :
  (forall P : PoseData,
      partners_in_range (List.length (keypoints P)) = true ->
      exists M, mirrorPose P = Return M /\
        width M = width P /\ height M = height P /\
        skeleton M = skeleton P /\
        List.length (keypoints M) = List.length (keypoints P) /\
        forall i k, nth_error (keypoints P) i = Some k ->
          exists src,
            nth_error (keypoints P) (mirror_source i) = Some src /\
            nth_error (keypoints M) i =
              Some {| x := sub (width P) (x src); y := y src;
                      confidence := confidence src; label := label k |}) /\
  (forall n, (17 <= n)%nat -> partners_in_range n = true) /\
  (forall (P : PoseData) (ls rs : Keypoint),
      List.length (keypoints P) = 17%nat ->
      width P = num_768 -> height P = num_768 ->
      nth_error (keypoints P) LEFT_SHOULDER = Some ls ->
      nth_error (keypoints P) RIGHT_SHOULDER = Some rs ->
      x ls = of_Z 300 -> y ls = of_Z 400 ->
      x rs = of_Z 468 -> y rs = of_Z 400 ->
      exists M ls' rs', mirrorPose P = Return M /\
        nth_error (keypoints M) LEFT_SHOULDER = Some ls' /\
        nth_error (keypoints M) RIGHT_SHOULDER = Some rs' /\
        x ls' = of_Z 300 /\ y ls' = of_Z 400 /\ label ls' = label ls /\
        x rs' = of_Z 468 /\ y rs' = of_Z 400 /\ label rs' = label rs).
Proof.
  assert (Hgen : forall P : PoseData,
      partners_in_range (List.length (keypoints P)) = true ->
      exists M, mirrorPose P = Return M /\ mirror_image P M).
  { intros P Hr. destruct (mirrorPose_total P Hr) as [M HM].
    exists M. split; [exact HM | apply mirrorPose_Return_image; exact HM]. }
  split; [| split].
  - intros P Hr. destruct (Hgen P Hr) as [M [HM HI]]. exists M. split; assumption.
  - exact mirror_source_ge17.
  - intros P ls rs Hlen Hw Hh Hls Hrs Hxl Hyl Hxr Hyr.
    destruct (Hgen P) as [M [HM HI]].
    { rewrite Hlen. reflexivity. }
    destruct HI as (_ & _ & _ & _ & Hnth).
    destruct (Hnth _ _ Hls) as [src1 [Hsrc1 Hm1]].
    destruct (Hnth _ _ Hrs) as [src2 [Hsrc2 Hm2]].
    change (mirror_source LEFT_SHOULDER) with RIGHT_SHOULDER in Hsrc1.
    change (mirror_source RIGHT_SHOULDER) with LEFT_SHOULDER in Hsrc2.
    rewrite Hrs in Hsrc1. inv Hsrc1. rewrite Hls in Hsrc2. inv Hsrc2.
    do 3 eexists. split; [exact HM |].
    split; [exact Hm1 |]. split; [exact Hm2 |]. simpl.
    rewrite Hw, Hxl, Hyl, Hxr, Hyr. repeat split; reflexivity.
Qed.

Lemma mirrorPose_swaps_and_flips_witness :
  partners_in_range (List.length (keypoints sample_pose)) = true /\
  (exists M, mirrorPose sample_pose = Return M /\
     List.length (keypoints M) = List.length (keypoints sample_pose)) /\
  exists M ls' rs', mirrorPose sample_pose = Return M /\
    nth_error (keypoints M) LEFT_SHOULDER = Some ls' /\
    nth_error (keypoints M) RIGHT_SHOULDER = Some rs' /\
    x ls' = of_Z 300 /\ y ls' = of_Z 400 /\ label ls' = "leftShoulder"%string /\
    x rs' = of_Z 468 /\ y rs' = of_Z 400 /\ label rs' = "rightShoulder"%string.
Proof.
  split; [reflexivity |]. split.
  - destruct (proj1 mirrorPose_swaps_and_flips sample_pose eq_refl)
      as (M & HM & _ & _ & _ & Hlen & _).
    exists M. split; assumption.
  - apply (proj2 (proj2 mirrorPose_swaps_and_flips) sample_pose
             (mkKeypoint (of_Z 300) (of_Z 400) one "leftShoulder")
             (mkKeypoint (of_Z 468) (of_Z 400) one "rightShoulder"));
      reflexivity.
Defined.

(** C3, as stated, fails: [768 - (768 - 0.1)] is not [0.1] in double
    arithmetic, so mirroring twice does not reproduce the x coordinates. *)
Lemma mirrorPose_twice_changes_x :
  exists M M2,
    mirrorPose fractional_pose = Return M /\ mirrorPose M = Return M2 /\
    map x (keypoints M2) <> map x (keypoints fractional_pose) /\
    nth_error (map x (keypoints fractional_pose)) 0
      = Some (S754_finite false 7205759403792794 (-56)) /\
    nth_error (map x (keypoints M2)) 0
      = Some (S754_finite false 7205759403794432 (-56)).
Proof.
  destruct (mirrorPose fractional_pose) as [M |] eqn:HM;
    [| vm_compute in HM; discriminate HM].
  destruct (mirrorPose M) as [M2 |] eqn:HM2.
  - exists M, M2. split; [reflexivity |]. split; [exact HM2 |].
    vm_compute in HM. inv HM. vm_compute in HM2. inv HM2.
    split; [| split]; [| reflexivity | reflexivity].
    vm_compute. intros H. discriminate H.
  - vm_compute in HM. inv HM. vm_compute in HM2. discriminate HM2.
Qed.

(** C3 (amended): whenever [mirrorPose] succeeds on P, it succeeds on the
    result too, and the second result has P's width, height and skeleton
    and, at every position, P's keypoint with its [y], confidence and
    label unchanged and its [x] replaced by [width - (width - x)] in
    double arithmetic.  The coordinates of P are reproduced exactly when
    that double subtraction is exact on every keypoint; it is whenever
    the width and the x coordinates are integers with
    [0 <= x <= width < 2^53]. *)
Theorem mirrorPose_twice (P M : PoseData) :
  mirrorPose P = Return M ->
  exists M2, mirrorPose M = Return M2 /\
    keypoints M2 = map (flip_twice (width P)) (keypoints P) /\
    map y (keypoints M2) = map y (keypoints P) /\
    skeleton M2 = skeleton P /\ width M2 = width P /\ height M2 = height P /\
    (Forall (fun k => sub (width P) (sub (width P) (x k)) = x k) (keypoints P) ->
     keypoints M2 = keypoints P) /\
    (forall w : Z,
        width P = of_Z w -> (0 <= w < 9007199254740992)%Z ->
        Forall (fun k => exists c : Z, x k = of_Z c /\ (0 <= c <= w)%Z)
               (keypoints P) ->
        keypoints M2 = keypoints P).
Proof.
  intros HM.
  pose proof (mirrorPose_Return_in_range P M HM) as Hr.
  pose proof (mirrorPose_Return_image P M HM) as (Hw & Hh & Hs & Hlen & Hnth).
  destruct (mirrorPose_total M) as [M2 HM2]; [rewrite Hlen; exact Hr |].
  pose proof (mirrorPose_Return_image M M2 HM2) as (Hw2 & Hh2 & Hs2 & Hlen2 & Hnth2).
  assert (Hk : keypoints M2 = map (flip_twice (width P)) (keypoints P)).
  { apply nth_error_ext. intros i. rewrite nth_error_map.
    destruct (nth_error (keypoints P) i) as [k |] eqn:Hk; simpl.
    - destruct (Hnth _ _ Hk) as [src [Hsrc Hmi]].
      destruct (Hnth _ _ Hsrc) as [src' [Hsrc' Hmsrc]].
      rewrite mirror_source_involutive, Hk in Hsrc'. inv Hsrc'.
      destruct (Hnth2 _ _ Hmi) as [s2 [Hs2' Hm2i]].
      rewrite Hmsrc in Hs2'. inv Hs2'.
      rewrite Hm2i. simpl. rewrite Hw. reflexivity.
    - apply nth_error_None. apply nth_error_None in Hk. lia. }
  assert (Hexact :
    Forall (fun k => sub (width P) (sub (width P) (x k)) = x k) (keypoints P) ->
    keypoints M2 = keypoints P).
  { intros Hex. rewrite Hk.
    rewrite <- (map_id (keypoints P)) at 2.
    apply map_ext_in. intros k Hin.
    rewrite Forall_forall in Hex. specialize (Hex k Hin).
    unfold flip_twice. rewrite Hex. destruct k; reflexivity. }
  exists M2. split; [exact HM2 |]. split; [exact Hk |].
  split; [| split; [| split; [| split; [| split]]]]; try congruence.
  - rewrite Hk, map_map. reflexivity.
  - exact Hexact.
  - intros w Hwidth Hrange Hint. apply Hexact.
    rewrite Forall_forall in *. intros k Hin.
    destruct (Hint k Hin) as (c & Hc & Hcw).
    rewrite Hwidth, Hc. apply flip_twice_of_Z; lia.
Qed.

Lemma mirrorPose_twice_witness :
  exists M, mirrorPose sample_pose = Return M /\
  exists M2, mirrorPose M = Return M2 /\
    keypoints M2 = keypoints sample_pose.
Proof.
  destruct (mirrorPose sample_pose) as [M |] eqn:HM;
    [| vm_compute in HM; discriminate HM].
  exists M. split; [reflexivity |].
  destruct (mirrorPose_twice sample_pose M HM) as (M2 & HM2 & _ & _ & _ & _ & _ & _ & Hint).
  exists M2. split; [exact HM2 |].
  apply (Hint 768%Z); [reflexivity | lia |].
  apply Forall_forall. intros k Hin. simpl in Hin.
  repeat (destruct Hin as [<- | Hin];
          [eexists; split; [reflexivity | lia] |]).
  destruct Hin.
Defined.

(* ================================================================== *)
(** * Similarity: symmetry *)
(* ================================================================== *)

Lemma nth_error_same_length_None (A : Type) (l1 l2 : list A) (i : nat) :
  List.length l1 = List.length l2 ->
  nth_error l1 i = None -> nth_error l2 i = None.
Proof.
  intros Hlen H. apply nth_error_None. apply nth_error_None in H. lia.
Qed.

Lemma similarity_loop_sym (P Q : PoseData) :
  List.length (keypoints P) = List.length (keypoints Q) ->
  width P = width Q -> height P = height Q ->
  forall steps i acc,
    similarity_loop P Q i steps acc = similarity_loop Q P i steps acc.
Proof.
  intros Hlen Hw Hh. induction steps as [| steps IH]; intros i acc; simpl.
  - reflexivity.
  - destruct acc as [total valid].
    destruct (nth_error (keypoints P) i) as [kp1 |] eqn:H1;
      destruct (nth_error (keypoints Q) i) as [kp2 |] eqn:H2.
    + destruct (gtb (confidence kp1) half), (gtb (confidence kp2) half);
        try apply IH.
      rewrite (square_of_difference_sym (x kp1) (x kp2)).
      rewrite (square_of_difference_sym (y kp1) (y kp2)).
      rewrite Hw, Hh. apply IH.
    + apply (nth_error_same_length_None _ _ _ i (eq_sym Hlen)) in H2. congruence.
    + apply (nth_error_same_length_None _ _ _ i Hlen) in H1. congruence.
    + reflexivity.
Qed.

(** C2, as stated, fails: the distance is normalised by the diagonal of the
    first argument's frame, so exchanging poses of different frame sizes
    changes the score (about 0.646 one way, 0.965 the other). *)
Lemma calculatePoseSimilarity_not_symmetric :
  calculatePoseSimilarity small_frame_pose large_frame_pose
    = Return (S754_finite false 5822673418478106 (-53)) /\
  calculatePoseSimilarity large_frame_pose small_frame_pose
    = Return (S754_finite false 8688746671114703 (-53)) /\
  calculatePoseSimilarity small_frame_pose large_frame_pose
    <> calculatePoseSimilarity large_frame_pose small_frame_pose.
Proof.
  split; [vm_compute; reflexivity |].
  split; [vm_compute; reflexivity |].
  vm_compute. intros H. discriminate H.
Qed.

(** C2 (amended): for every two PoseData values P and Q with the same
    width and the same height, [calculatePoseSimilarity P Q] and
    [calculatePoseSimilarity Q P] are the same value: equal numbers, or
    both NaN. *)
Theorem calculatePoseSimilarity_sym_same_frame (P Q : PoseData) :
  width P = width Q -> height P = height Q ->
  calculatePoseSimilarity P Q = calculatePoseSimilarity Q P.
Proof.
  intros Hw Hh. unfold calculatePoseSimilarity.
  rewrite (Nat.eqb_sym (List.length (keypoints Q))).
  destruct (List.length (keypoints P) =? List.length (keypoints Q))%nat eqn:Hlen;
    simpl; [| reflexivity].
  apply Nat.eqb_eq in Hlen.
  rewrite (similarity_loop_sym P Q Hlen Hw Hh), <- Hlen.
  reflexivity.
Qed.

Lemma calculatePoseSimilarity_sym_same_frame_witness :
  width sample_pose = width fractional_pose /\
  height sample_pose = height fractional_pose /\
  calculatePoseSimilarity sample_pose fractional_pose
  = calculatePoseSimilarity fractional_pose sample_pose.
Proof.
  split; [reflexivity |]. split; [reflexivity |].
  apply (calculatePoseSimilarity_sym_same_frame sample_pose fractional_pose);
    reflexivity.
Defined.

(* ================================================================== *)
(** * Similarity: the zero results *)
(* ================================================================== *)

Lemma similarity_loop_skips (P Q : PoseData) :
  List.length (keypoints P) = List.length (keypoints Q) ->
  no_confident_pair P Q ->
  forall steps i acc,
    (i + steps <= List.length (keypoints P))%nat ->
    similarity_loop P Q i steps acc = Return acc.
Proof.
  intros Hlen Hno. induction steps as [| steps IH]; intros i acc Hi; simpl.
  - reflexivity.
  - destruct acc as [total valid].
    destruct (nth_error (keypoints P) i) as [kp1 |] eqn:H1.
    + destruct (nth_error (keypoints Q) i) as [kp2 |] eqn:H2.
      * specialize (Hno _ _ _ H1 H2). unfold both_confident in Hno.
        destruct (gtb (confidence kp1) half); simpl in Hno.
        -- rewrite Hno. apply IH. lia.
        -- apply IH. lia.
      * apply nth_error_None in H2. lia.
    + apply nth_error_None in H1. lia.
Qed.

(** The loop never reads past the arrays when they have the same length. *)
Lemma similarity_loop_total (P Q : PoseData) :
  List.length (keypoints P) = List.length (keypoints Q) ->
  forall steps i acc,
    (i + steps <= List.length (keypoints P))%nat ->
    exists acc', similarity_loop P Q i steps acc = Return acc'.
Proof.
  intros Hlen. induction steps as [| steps IH]; intros i acc Hi; simpl.
  - eauto.
  - destruct acc as [total valid].
    destruct (nth_error (keypoints P) i) as [kp1 |] eqn:H1.
    + destruct (nth_error (keypoints Q) i) as [kp2 |] eqn:H2.
      * destruct (gtb (confidence kp1) half);
          [destruct (gtb (confidence kp2) half) |]; apply IH; lia.
      * apply nth_error_None in H2. lia.
    + apply nth_error_None in H1. lia.
Qed.

Lemma calculatePoseSimilarity_total (P Q : PoseData) :
  exists r, calculatePoseSimilarity P Q = Return r.
Proof.
  unfold calculatePoseSimilarity.
  destruct (List.length (keypoints P) =? List.length (keypoints Q))%nat eqn:Hlen;
    simpl; [| eauto].
  apply Nat.eqb_eq in Hlen.
  destruct (similarity_loop_total P Q Hlen (List.length (keypoints P)) 0 (zero, O))
    as [[total valid] Hacc]; [lia |].
  rewrite Hacc. simpl. destruct (valid =? 0)%nat; eauto.
Qed.

(** C5: [calculatePoseSimilarity] returns [0] - it completes normally, and
    the result is the literal [0], not the NaN a division [0 / 0] would
    give - whenever the two poses have different keypoint counts (the
    length test returns before the loop is entered) and whenever no index
    has both confidences strictly above 0.5. *)
Theorem calculatePoseSimilarity_zero (P Q : PoseData) :
  List.length (keypoints P) <> List.length (keypoints Q) \/
  no_confident_pair P Q ->
  calculatePoseSimilarity P Q = Return zero.
Proof.
  intros H. unfold calculatePoseSimilarity.
  destruct (List.length (keypoints P) =? List.length (keypoints Q))%nat eqn:Hlen;
    simpl; [| reflexivity].
  apply Nat.eqb_eq in Hlen.
  destruct H as [Hne | Hno]; [congruence |].
  rewrite (similarity_loop_skips P Q Hlen Hno) by lia.
  reflexivity.
Qed.

Lemma calculatePoseSimilarity_zero_witness :
  (List.length (keypoints sample_pose) <> List.length (keypoints short_pose) /\
   calculatePoseSimilarity sample_pose short_pose = Return zero) /\
  (no_confident_pair unsure_pose small_frame_pose /\
   calculatePoseSimilarity unsure_pose small_frame_pose = Return zero).
Proof.
  assert (H1 : List.length (keypoints sample_pose)
               <> List.length (keypoints short_pose))
    by (simpl; lia).
  assert (H2 : no_confident_pair unsure_pose small_frame_pose).
  { intros [| [| i]] kp1 kp2 Hk1 Hk2; simpl in Hk1, Hk2; try discriminate.
    inv Hk1. inv Hk2. reflexivity. }
  split; (split; [assumption |]).
  - apply (calculatePoseSimilarity_zero sample_pose short_pose). left. exact H1.
  - apply (calculatePoseSimilarity_zero unsure_pose small_frame_pose).
    right. exact H2.
Defined.

(* ================================================================== *)
(** * Similarity: bounds *)
(* ================================================================== *)

Lemma score_in_unit_interval (r : number) :
  score r = true -> leb zero r = true /\ leb r one = true.
Proof.
  destruct r as [[|] | [|] | | [|] m e]; simpl; intros H; try discriminate H.
  - split; reflexivity.
  - apply andb_true_iff in H. destruct H as [_ H]. split; [reflexivity | exact H].
Qed.

(** [Math.max(0, 1 - q)] for a [q] that is not negative: NaN or a score. *)
Lemma Math_max_zero_one_minus (q : number) :
  not_negative q = true ->
  is_nan (Math_max zero (sub one q)) = true \/
  score (Math_max zero (sub one q)) = true.
Proof.
  destruct q as [[|] | [|] | | [|] mq eq]; simpl; intros Hq;
    try discriminate Hq.
  - right. reflexivity.
  - right. reflexivity.
  - left. reflexivity.
  - unfold sub, SFsub, one. cbv zeta.
    set (ez := Z.min (-52) eq).
    destruct (shl_align 4503599627370496 (-52) ez) as [ma ea] eqn:Ha.
    destruct (shl_align mq eq ez) as [mb eb] eqn:Hb.
    apply shl_align_one in Ha; [| unfold ez; lia]. destruct Ha as [_ Hma].
    unfold cond_Zopp, fst.
    destruct (Z.pos ma - Z.pos mb)%Z as [| p | p] eqn:Hz.
    + right. reflexivity.
    + unfold binary_normalize.
      destruct (binary_round_rounds_to false p ez)
        as (mz & ez' & Hle & Hmz & HP0 & _ & Hr).
      pose proof (rounds_to_shape false (Z.pos mz) ez' _ ltac:(lia) HP0 Hr) as Hs.
      assert (Hlt : (Z.pos mz < 2 ^ (- ez'))%Z).
      { rewrite Hmz.
        replace (- ez')%Z with (- ez + (ez - ez'))%Z by lia.
        rewrite Z.pow_add_r by (unfold ez in *; lia).
        apply Z.mul_lt_mono_pos_r; [apply Z.pow_pos_nonneg; lia | lia]. }
      pose proof (rounds_to_below_one (Z.pos mz) ez' _ ltac:(lia) HP0 Hlt Hr) as Hb1.
      destruct (binary_round prec emax false p ez) as [s | s | | s q e'];
        simpl in Hs; try contradiction.
      * subst s. right. reflexivity.
      * destruct Hs as [-> Hbd]. right.
        change (Math_max zero (S754_finite false q e'))
          with (S754_finite false q e').
        unfold score, leb. rewrite Hbd, Hb1. reflexivity.
    + unfold binary_normalize.
      destruct (binary_round_rounds_to true p ez)
        as (mz & ez' & Hle & Hmz & HP0 & _ & Hr).
      pose proof (rounds_to_shape true (Z.pos mz) ez' _ ltac:(lia) HP0 Hr) as Hs.
      destruct (binary_round prec emax true p ez) as [s | s | | s q e'];
        simpl in Hs; try contradiction.
      * subst s. right. reflexivity.
      * subst s. right. reflexivity.
      * destruct Hs as [-> _]. right. reflexivity.
Qed.

(** The running total of the loop is never negative. *)
Lemma similarity_loop_not_negative (P Q : PoseData) :
  forall steps i total valid total' valid',
    not_negative total = true ->
    similarity_loop P Q i steps (total, valid) = Return (total', valid') ->
    not_negative total' = true.
Proof.
  induction steps as [| steps IH]; intros i total valid total' valid' Hnn H;
    simpl in H.
  - inversion H; subst. exact Hnn.
  - destruct (nth_error (keypoints P) i) as [kp1 |]; [| discriminate H].
    destruct (gtb (confidence kp1) half); [| exact (IH _ _ _ _ _ Hnn H)].
    destruct (nth_error (keypoints Q) i) as [kp2 |]; [| discriminate H].
    destruct (gtb (confidence kp2) half); [| exact (IH _ _ _ _ _ Hnn H)].
    refine (IH _ _ _ _ _ _ H).
    apply add_not_negative; [exact Hnn |].
    apply div_not_negative; apply sqrt_not_negative; apply add_not_negative;
      apply square_not_negative.
Qed.

(** Every result of [calculatePoseSimilarity] is NaN or a score. *)
Lemma calculatePoseSimilarity_range (P Q : PoseData) :
  exists r, calculatePoseSimilarity P Q = Return r /\
    (is_nan r = true \/ score r = true).
Proof.
  unfold calculatePoseSimilarity.
  destruct (List.length (keypoints P) =? List.length (keypoints Q))%nat eqn:Hlen;
    simpl; [| exists zero; split; [reflexivity | right; reflexivity]].
  apply Nat.eqb_eq in Hlen.
  destruct (similarity_loop_total P Q Hlen (List.length (keypoints P)) 0 (zero, O))
    as [[total valid] Hacc]; [lia |].
  rewrite Hacc. simpl.
  destruct (valid =? 0)%nat;
    [exists zero; split; [reflexivity | right; reflexivity] |].
  eexists. split; [reflexivity |].
  apply Math_max_zero_one_minus.
  apply mul_not_negative; [| exact five_not_negative].
  apply div_not_negative; [| apply of_nat_not_negative].
  apply (similarity_loop_not_negative P Q _ _ zero O total valid eq_refl Hacc).
Qed.

(** C4: the source documents the score as "0-1", and the claim says the
    same, but the code leaves the interval: comparing a pose in a
    zero-sized frame with itself divides a distance of [0] by a diagonal
    of [0]; the total, the average and [Math.max(0, 1 - average * 5)] are
    NaN, which is neither at least 0 nor at most 1. *)
Lemma calculatePoseSimilarity_NaN :
  calculatePoseSimilarity empty_frame_pose empty_frame_pose = Return NaN /\
  leb zero NaN = false /\ leb NaN one = false.
Proof. split; [vm_compute; reflexivity | split; reflexivity]. Qed.

(** X24: NaN is the only way out of the interval: [calculatePoseSimilarity]
    never throws, and every result of it is NaN or a number of [0, 1]. *)
Lemma calculatePoseSimilarity_bounds (P Q : PoseData) :
  exists r, calculatePoseSimilarity P Q = Return r /\
    (r = NaN \/ (leb zero r = true /\ leb r one = true)).
Proof.
  destruct (calculatePoseSimilarity_range P Q) as [r [Hr [Hnan | Hscore]]];
    exists r; (split; [exact Hr |]).
  - left. destruct r; try discriminate Hnan. reflexivity.
  - right. apply score_in_unit_interval. exact Hscore.
Qed.

(* ================================================================== *)
(** * [Array_sort] *)
(* ================================================================== *)

Section SortFacts.
Context {A : Type}.
Variable comparefn : A -> A -> number.

Lemma sort_insert_Permutation (a : A) (l : list A) :
  Permutation (sort_insert comparefn a l) (a :: l).
Proof.
  induction l as [| b l IH]; simpl.
  - apply Permutation_refl.
  - destruct (comes_after comparefn a b).
    + apply perm_trans with (b :: a :: l).
      * apply perm_skip. exact IH.
      * apply perm_swap.
    + apply Permutation_refl.
Qed.

Lemma Array_sort_Permutation (l : list A) :
  Permutation (Array_sort comparefn l) l.
Proof.
  induction l as [| a l IH]; simpl.
  - apply Permutation_refl.
  - apply perm_trans with (a :: Array_sort comparefn l).
    + apply sort_insert_Permutation.
    + apply perm_skip. exact IH.
Qed.

(** Elements the comparator never orders against each other keep their
    relative order: the sort is stable. *)
Lemma sort_insert_filter (p : A -> bool) (a : A) (l : list A) :
  (forall b, In b l -> p a = true -> p b = true -> comes_after comparefn a b = false) ->
  filter p (sort_insert comparefn a l) = filter p (a :: l).
Proof.
  induction l as [| b l IH]; intros H; [reflexivity |].
  cbn [sort_insert]. destruct (comes_after comparefn a b) eqn:Hab; [| reflexivity].
  cbn [filter]. rewrite IH by (intros c Hc; apply H; right; exact Hc).
  cbn [filter].
  destruct (p a) eqn:Hpa, (p b) eqn:Hpb; try reflexivity.
  rewrite (H b (or_introl eq_refl) eq_refl Hpb) in Hab. discriminate Hab.
Qed.

Lemma Array_sort_filter (p : A -> bool) (l : list A) :
  (forall a b, In a l -> In b l -> p a = true -> p b = true ->
     comes_after comparefn a b = false) ->
  filter p (Array_sort comparefn l) = filter p l.
Proof.
  induction l as [| a l IH]; intros H; [reflexivity |].
  cbn [Array_sort fold_right].
  change (fold_right (sort_insert comparefn) [] l) with (Array_sort comparefn l).
  rewrite sort_insert_filter.
  - cbn [filter]. rewrite IH; [reflexivity |].
    intros b c Hb Hc. apply H; right; assumption.
  - intros b Hb. apply H; [left; reflexivity |].
    right. apply (Permutation_in b (Array_sort_Permutation l) Hb).
Qed.

(** On elements on which the comparator decides a transitive order, the
    result is sorted. *)
Variable ok : A -> Prop.
Variable before : A -> A -> Prop.
Hypothesis before_trans :
  forall a b c, before a b -> before b c -> before a c.
Hypothesis after_before :
  forall a b, ok a -> ok b -> comes_after comparefn a b = true -> before b a.
Hypothesis not_after_before :
  forall a b, ok a -> ok b -> comes_after comparefn a b = false -> before a b.

Lemma sort_insert_sorted (a : A) (l : list A) :
  ok a -> Forall ok l ->
  StronglySorted before l -> StronglySorted before (sort_insert comparefn a l).
Proof.
  intros Ha. induction l as [| b l IH]; intros Hok Hs; cbn [sort_insert].
  - repeat constructor.
  - inversion Hs as [| b' l' Hsl Hbl]; subst.
    inversion Hok as [| b' l' Hb Hokl]; subst.
    destruct (comes_after comparefn a b) eqn:Hab.
    + constructor; [apply IH; assumption |].
      apply (Permutation_Forall (Permutation_sym (sort_insert_Permutation a l))).
      constructor; [apply after_before; assumption | exact Hbl].
    + constructor; [exact Hs |].
      constructor; [apply not_after_before; assumption |].
      rewrite Forall_forall in *. intros c Hc.
      apply before_trans with b; [apply not_after_before; assumption | auto].
Qed.

Lemma Array_sort_sorted (l : list A) :
  Forall ok l -> StronglySorted before (Array_sort comparefn l).
Proof.
  induction l as [| a l IH]; intros Hok; cbn [Array_sort fold_right].
  - constructor.
  - inversion Hok as [| a' l' Ha Hokl]; subst.
    apply sort_insert_sorted; [exact Ha | | apply IH; exact Hokl].
    apply (Permutation_Forall (Permutation_sym (Array_sort_Permutation l))).
    exact Hokl.
Qed.

End SortFacts.

(* ================================================================== *)
(** * Nearest-neighbour search: filter, order and truncation *)
(* ================================================================== *)

Lemma firstn_min_length (A : Type) (n : nat) (l : list A) :
  firstn (Nat.min n (List.length l)) l = firstn n l.
Proof.
  destruct (Nat.le_ge_cases n (List.length l)) as [H | H].
  - rewrite Nat.min_l by exact H. reflexivity.
  - rewrite Nat.min_r by exact H. rewrite firstn_all.
    symmetry. apply firstn_all2. exact H.
Qed.

Lemma Array_slice0_not_negative (A : Type) (l : list A) (m : number) :
  geb m zero = true -> Array_slice0 l m = take_cap (result_cap m) l.
Proof.
  unfold Array_slice0, result_cap, take_cap.
  destruct m as [s | [|] | | [|] mm em]; intros H; try discriminate H;
    cbn [ToIntegerOrInfinity].
  - change (0 <? 0)%Z with false. cbv iota.
    replace (Z.min 0 (Z.of_nat (List.length l))) with 0%Z by lia. reflexivity.
  - rewrite Nat2Z.id. apply firstn_all.
  - unfold cond_Zopp.
    assert (Hz : (0 <= Z.shiftl (Z.pos mm) em)%Z) by (apply Z.shiftl_nonneg; lia).
    rewrite (proj2 (Z.ltb_ge _ _)) by exact Hz.
    rewrite Z2Nat.inj_min, Nat2Z.id. apply firstn_min_length.
Qed.

Lemma StronglySorted_weaken (A : Type) (ok : A -> Prop) (R R' : A -> A -> Prop)
    (l : list A) :
  (forall a b, ok a -> ok b -> R a b -> R' a b) ->
  Forall ok l -> StronglySorted R l -> StronglySorted R' l.
Proof.
  intros HR Hok Hs. induction Hs as [| a l Hs IH Ha]; [constructor |].
  inversion Hok as [| a' l' Hoka Hokl]; subst.
  constructor; [apply IH; exact Hokl |].
  rewrite Forall_forall in *. intros b Hb. apply HR; auto.
Qed.

Lemma score_candidate_Return (targetPose : PoseData) (p : IdentifiedPose)
    (i : nat) (it : Scored) :
  score_candidate targetPose p i = Return it ->
  pose it = p /\
  calculatePoseSimilarity targetPose (pose_data p) = Return (similarity it).
Proof.
  unfold score_candidate. intros H.
  apply bind_Return_inv in H. destruct H as [s [Hs H]].
  inversion H; subst. split; [reflexivity | exact Hs].
Qed.

(** The [map] of [findSimilarPoses] always succeeds and pairs every
    candidate, in order, with its similarity to the target. *)
Lemma score_candidates_total (targetPose : PoseData) (poses : list IdentifiedPose) :
  exists scored,
    Array_map (score_candidate targetPose) poses = Return scored /\
    map pose scored = poses /\
    Forall (fun it => calculatePoseSimilarity targetPose (pose_data (pose it))
                      = Return (similarity it)) scored.
Proof.
  unfold Array_map.
  destruct (@mapi_from_total _ _ (score_candidate targetPose) poses 0)
    as [scored Hmap].
  { intros i p _. unfold score_candidate.
    destruct (calculatePoseSimilarity_total targetPose (pose_data p)) as [r Hr].
    rewrite Hr. simpl. eauto. }
  exists scored. split; [exact Hmap |].
  apply mapi_from_Return in Hmap. destruct Hmap as [Hlen Hnth].
  split.
  - apply nth_error_ext. intros i. rewrite nth_error_map.
    destruct (nth_error poses i) as [p |] eqn:Hp.
    + destruct (Hnth _ _ Hp) as [it [Hit Hf]]. rewrite Hit. simpl.
      apply score_candidate_Return in Hf. f_equal. tauto.
    + assert (Hnone : nth_error scored i = None).
      { apply nth_error_None. apply nth_error_None in Hp. lia. }
      rewrite Hnone. reflexivity.
  - apply Forall_forall. intros it Hin.
    apply In_nth_error in Hin. destruct Hin as [i Hi].
    destruct (nth_error poses i) as [p |] eqn:Hp.
    + destruct (Hnth _ _ Hp) as [it' [Hit' Hf]].
      rewrite Hi in Hit'. inversion Hit'; subst it'.
      apply score_candidate_Return in Hf. destruct Hf as [<- Hf]. exact Hf.
    + apply nth_error_None in Hp.
      assert (i < List.length scored)%nat by (apply nth_error_Some; congruence).
      lia.
Qed.

Lemma geb_NaN (t : number) : geb NaN t = false.
Proof. destruct t as [s | s | | s m e]; reflexivity. Qed.

(** The similarities that pass the threshold test are scores. *)
Lemma kept_scores (targetPose : PoseData) (t : number) (scored : list Scored) :
  Forall (fun it => calculatePoseSimilarity targetPose (pose_data (pose it))
                    = Return (similarity it)) scored ->
  Forall (fun it => score (similarity it) = true)
         (filter (fun it => geb (similarity it) t) scored).
Proof.
  intros Hall. apply Forall_forall. intros it Hin.
  apply filter_In in Hin. destruct Hin as [Hin Hge].
  rewrite Forall_forall in Hall. specialize (Hall it Hin).
  destruct (calculatePoseSimilarity_range targetPose (pose_data (pose it)))
    as [r [Hr [Hnan | Hscore]]];
    rewrite Hall in Hr; inversion Hr; subst r.
  - destruct (similarity it); try discriminate Hnan.
    rewrite geb_NaN in Hge. discriminate Hge.
  - exact Hscore.
Qed.

Lemma comes_after_rank (a b : Scored) :
  score (similarity a) = true -> score (similarity b) = true ->
  comes_after by_similarity_desc a b
  = (rank (similarity a) <? rank (similarity b))%Z.
Proof.
  intros Ha Hb. unfold comes_after, by_similarity_desc.
  apply score_difference_sign; assumption.
Qed.

Lemma nth_error_overwrite_other (h : store) (r r0 : reference) (o : array_object) :
  r0 <> r -> nth_error (overwrite h r o) r0 = nth_error h r0.
Proof.
  revert r r0. induction h as [| o' h IH]; intros r r0 Hne; [reflexivity |].
  destruct r as [| r], r0 as [| r0]; simpl; try reflexivity; try congruence.
  apply IH. congruence.
Qed.

Lemma length_overwrite (h : store) (r : reference) (o : array_object) :
  List.length (overwrite h r o) = List.length h.
Proof.
  revert r. induction h as [| o' h IH]; intros r; [reflexivity |].
  destruct r; simpl; [reflexivity | rewrite IH; reflexivity].
Qed.

(** The search in a store returns a fresh array holding the result of
    [findSimilarPoses] and leaves every array that existed before the
    call, the candidate array among them, as it was. *)
Lemma findSimilarPoses_in_store_frame (h : store) (targetPose : PoseData)
    (poses : reference) (candidates : list IdentifiedPose)
    (threshold maxResults : option number) :
  nth_error h poses = Some (PoseArray candidates) ->
  exists (similarities : reference) (h' : store) (result : list Scored),
    findSimilarPoses_in_store h targetPose poses threshold maxResults
      = Return (similarities, h') /\
    findSimilarPoses targetPose candidates threshold maxResults = Return result /\
    nth_error h' similarities = Some (ScoredArray result) /\
    (List.length h <= similarities)%nat /\
    forall r, (r < List.length h)%nat -> nth_error h' r = nth_error h r.
Proof.
  intros Hposes. unfold findSimilarPoses_in_store, findSimilarPoses.
  rewrite Hposes.
  destruct (score_candidates_total targetPose candidates) as (scored & Hmap & _).
  rewrite Hmap. cbn [bind allocate].
  set (t := or_default threshold default_threshold).
  set (m := or_default maxResults default_maxResults).
  set (kept := filter (fun item => geb (similarity item) t) scored).
  set (sorted := Array_sort by_similarity_desc kept).
  set (h1 := h ++ [ScoredArray scored]).
  set (h2 := h1 ++ [ScoredArray kept]).
  set (h3 := overwrite h2 (List.length h1) (ScoredArray sorted)).
  do 3 eexists. split; [reflexivity |]. split; [reflexivity |].
  assert (Hlen1 : List.length h1 = S (List.length h))
    by (unfold h1; rewrite length_app; simpl; lia).
  assert (Hlen3 : List.length h3 = S (S (List.length h))).
  { unfold h3. rewrite length_overwrite. unfold h2.
    rewrite length_app. simpl. lia. }
  split; [| split].
  - rewrite nth_error_app2 by lia. rewrite Nat.sub_diag. reflexivity.
  - lia.
  - intros r Hr. rewrite nth_error_app1 by lia.
    unfold h3. rewrite nth_error_overwrite_other by lia.
    unfold h2, h1. rewrite !nth_error_app1; try reflexivity.
    + exact Hr.
    + rewrite length_app. simpl. lia.
Qed.

(** C6, as stated, fails: with [maxResults = -1], [slice(0, -1)] drops the
    last entry only, so three qualifying candidates give two results -
    more than [maxResults]. *)
Lemma findSimilarPoses_negative_maxResults :
  exists result,
    findSimilarPoses small_frame_pose three_candidates
                     (Some default_threshold) (Some (of_Z (-1)))
      = Return result /\
    map (fun it => pose_id (pose it)) result = [ "a"; "b" ]%string /\
    gtb (of_nat (List.length result)) (of_Z (-1)) = true.
Proof.
  eexists. split; [vm_compute; reflexivity |].
  split; reflexivity.
Qed.

(** C6 (amended): for every target pose, candidate list and threshold,
    [findSimilarPoses] computes the similarity of every candidate to the
    target, keeps exactly the candidates whose similarity is at or above
    the threshold, paired with their scores, and sorts them in descending
    similarity with equal-score candidates in their input order; the result
    is [slice(0, maxResults)] of that list, which for every [maxResults]
    that is at least zero consists of its first entries up to the integer
    part of [maxResults] (all of them for [+Infinity]), hence of at most
    [maxResults] entries.  An omitted threshold is 0.7, an omitted
    [maxResults] is 5.  The result is a new array, and every array that
    existed before the call, the candidate array among them, is left as it
    was. *)
Theorem findSimilarPoses_filter_sort_truncate
    (targetPose : PoseData) (poses : list IdentifiedPose)
    (threshold maxResults : option number) :
  let t := or_default threshold default_threshold in
  let m := or_default maxResults default_maxResults in
  exists scored sorted : list Scored,
    map pose scored = poses /\
    Forall (fun it => calculatePoseSimilarity targetPose (pose_data (pose it))
                      = Return (similarity it)) scored /\
    Permutation sorted (filter (fun it => geb (similarity it) t) scored) /\
    StronglySorted (fun a b => geb (similarity a) (similarity b) = true) sorted /\
    (forall s : number,
        filter (fun it => eqb (similarity it) s) sorted
        = filter (fun it => eqb (similarity it) s)
                 (filter (fun it => geb (similarity it) t) scored)) /\
    findSimilarPoses targetPose poses threshold maxResults
      = Return (Array_slice0 sorted m) /\
    (geb m zero = true ->
     findSimilarPoses targetPose poses threshold maxResults
       = Return (take_cap (result_cap m) sorted) /\
     forall n, result_cap m = Some n ->
       (List.length (take_cap (result_cap m) sorted) <= n)%nat) /\
    (forall (h : store) (candidates : reference),
        nth_error h candidates = Some (PoseArray poses) ->
        exists (similarities : reference) (h' : store),
          findSimilarPoses_in_store h targetPose candidates threshold maxResults
            = Return (similarities, h') /\
          nth_error h' similarities = Some (ScoredArray (Array_slice0 sorted m)) /\
          forall r, (r < List.length h)%nat -> nth_error h' r = nth_error h r).
Proof.
  intros t m.
  destruct (score_candidates_total targetPose poses)
    as (scored & Hmap & Hposes & Hsims).
  set (kept := filter (fun it => geb (similarity it) t) scored).
  pose proof (kept_scores targetPose t scored Hsims) as Hkept. fold kept in Hkept.
  exists scored, (Array_sort by_similarity_desc kept).
  assert (Hsorted_scores :
    Forall (fun it => score (similarity it) = true)
           (Array_sort by_similarity_desc kept)).
  { apply (Permutation_Forall
             (Permutation_sym (Array_sort_Permutation by_similarity_desc kept))).
    exact Hkept. }
  assert (Hrun : findSimilarPoses targetPose poses threshold maxResults
                 = Return (Array_slice0 (Array_sort by_similarity_desc kept) m)).
  { unfold findSimilarPoses. fold t. fold m. rewrite Hmap. reflexivity. }
  split; [exact Hposes |]. split; [exact Hsims |].
  split; [apply Array_sort_Permutation |].
  split; [| split; [| split; [| split]]].
  - apply (StronglySorted_weaken Scored
             (fun it => score (similarity it) = true)
             (fun a b => (rank (similarity b) <= rank (similarity a))%Z)).
    + intros a b Ha Hb Hab. unfold geb. change (SFleb ?x ?y) with (leb x y).
      rewrite (score_leb _ _ Hb Ha). apply Z.leb_le. exact Hab.
    + exact Hsorted_scores.
    + apply (Array_sort_sorted by_similarity_desc
               (fun it => score (similarity it) = true)
               (fun a b => (rank (similarity b) <= rank (similarity a))%Z)).
      * intros a b c Hab Hbc. lia.
      * intros a b Ha Hb Hab. rewrite (comes_after_rank a b Ha Hb) in Hab.
        apply Z.ltb_lt in Hab. lia.
      * intros a b Ha Hb Hab. rewrite (comes_after_rank a b Ha Hb) in Hab.
        apply Z.ltb_ge in Hab. exact Hab.
      * exact Hkept.
  - intros s. apply Array_sort_filter. intros a b Ha Hb Hpa Hpb.
    rewrite Forall_forall in Hkept.
    rewrite (comes_after_rank a b (Hkept a Ha) (Hkept b Hb)).
    rewrite (score_eqb_eq _ _ s (Hkept a Ha) (Hkept b Hb) Hpa Hpb).
    apply Z.ltb_irrefl.
  - exact Hrun.
  - intros Hm. split.
    + rewrite Hrun. f_equal. apply Array_slice0_not_negative. exact Hm.
    + intros n Hn. rewrite Hn. cbn [take_cap]. apply firstn_le_length.
  - intros h candidates Hcandidates.
    destruct (findSimilarPoses_in_store_frame h targetPose candidates poses
                threshold maxResults Hcandidates)
      as (similarities & h' & result & Hstore & Hresult & Hfresh & _ & Hframe).
    rewrite Hrun in Hresult. inv Hresult.
    exists similarities, h'. repeat split; assumption.
Qed.

Lemma findSimilarPoses_filter_sort_truncate_witness :
  geb (of_Z 2) zero = true /\
  exists sorted : list Scored,
    findSimilarPoses small_frame_pose three_candidates None (Some (of_Z 2))
      = Return (firstn 2 sorted) /\
    (List.length (firstn 2 sorted) <= 2)%nat.
Proof.
  assert (Hm : geb (of_Z 2) zero = true) by (vm_compute; reflexivity).
  split; [exact Hm |].
  destruct (findSimilarPoses_filter_sort_truncate
              small_frame_pose three_candidates None (Some (of_Z 2)))
    as (scored & sorted & _ & _ & _ & _ & _ & _ & Hcap & _).
  destruct (Hcap Hm) as [Hrun Hlen].
  exists sorted. split; [exact Hrun | apply Hlen; reflexivity].
Defined.

(* ================================================================== *)
(** * Transform composition and the variation catalogue *)
(* ================================================================== *)

Section Composition.
Context {engine : MathImpl}.

Lemma generatePoseVariations_Return (P M : PoseData) :
  mirrorPose P = Return M ->
  generatePoseVariations P = Return (variation_catalog P M).
Proof.
  intros HM. unfold generatePoseVariations. rewrite HM. reflexivity.
Qed.

Lemma truthy_rotation_applies (r : number) : truthy r = rotation_applies r.
Proof. destruct r as [[|] | [|] | | [|] m e]; reflexivity. Qed.

(** C7 (amended): for every PoseData and every transformation object,
    [transformPose] is the sequential composition that applies
    [mirrorPose] first (when [mirror] is true), then [scalePose] to the
    mirrored result (when [scale] is given), then [rotatePose] to the
    scaled result (when [rotation] is given and is neither 0 nor NaN);
    every other step leaves the pose as it is - a rotation of 0, -0 or
    NaN like an omitted one - an exception of the mirror step is the
    exception of the call, and with the three fields omitted the result
    is the input pose, with its keypoints, skeleton, width and height. *)
Theorem transformPose_composition (P : PoseData) (t : Transformations) :
  transformPose P t =
    (mirrored <- match mirror t with
                 | Some true => mirrorPose P
                 | _ => Return P
                 end ;;
     let scaled := match scale t with
                   | Some s => scalePose mirrored (scale_width s) (scale_height s)
                   | None => mirrored
                   end in
     let rotated := match rotation t with
                    | Some r =>
                        if rotation_applies r then rotatePose scaled r else scaled
                    | None => scaled
                    end in
     Return rotated) /\
  (forall (M : PoseData) (s : ScaleTarget) (r : number),
      mirror t = Some true -> scale t = Some s -> rotation t = Some r ->
      rotation_applies r = true -> mirrorPose P = Return M ->
      transformPose P t
      = Return (rotatePose (scalePose M (scale_width s) (scale_height s)) r)) /\
  (forall r : number,
      rotation t = Some r -> rotation_applies r = false ->
      transformPose P t
      = transformPose P {| mirror := mirror t; scale := scale t;
                           rotation := None |}) /\
  (forall e : js_error,
      mirror t = Some true -> mirrorPose P = Throw e ->
      transformPose P t = Throw e) /\
  (mirror t = None -> scale t = None -> rotation t = None ->
   exists R, transformPose P t = Return R /\
     keypoints R = keypoints P /\ skeleton R = skeleton P /\
     width R = width P /\ height R = height P).
Proof.
  split; [| split; [| split; [| split]]].
  - unfold transformPose, mirror_requested, scale_requested, rotation_requested.
    destruct t as [[[|] |] sc ro]; simpl;
      (destruct (mirrorPose P) as [M | err] || idtac); simpl;
      destruct sc as [s |], ro as [r |]; simpl; try reflexivity;
      rewrite <- truthy_rotation_applies; destruct (truthy r); reflexivity.
  - intros M s r Hm Hs Hr Ha HM.
    unfold transformPose, mirror_requested, scale_requested, rotation_requested.
    rewrite Hm, Hs, Hr, HM, truthy_rotation_applies, Ha. reflexivity.
  - intros r Hr Ha.
    unfold transformPose, mirror_requested, scale_requested, rotation_requested.
    cbn [mirror scale rotation]. rewrite Hr, truthy_rotation_applies, Ha.
    reflexivity.
  - intros e Hm HM.
    unfold transformPose, mirror_requested. rewrite Hm, HM. reflexivity.
  - intros Hm Hs Hr. exists P.
    unfold transformPose, mirror_requested, scale_requested, rotation_requested.
    rewrite Hm, Hs, Hr. simpl. split; [reflexivity |].
    split; [reflexivity |]. split; [reflexivity |]. split; reflexivity.
Qed.

(** C10 (amended): whenever [mirrorPose] succeeds on P with result M,
    [generatePoseVariations P] returns exactly six entries, in this
    order and with these identifiers: original, mirrored, scaled-small,
    scaled-large, rotated-15, rotated-minus-15, each with its title and
    transformation tag (none, mirror, scale-0.8, scale-1.2, rotate-15,
    rotate--15), carrying P itself, M, [scalePose] of P to 0.8 times and
    to 1.2 times its width and height, and [rotatePose] of P by 15 and
    by -15.  The result is a function of P alone, so two calls on the
    same input give the same coordinates. *)
Theorem generatePoseVariations_catalog (P M : PoseData) :
  mirrorPose P = Return M ->
  generatePoseVariations P = Return (variation_catalog P M) /\
  List.length (variation_catalog P M) = 6%nat /\
  map variation_id (variation_catalog P M) =
    [ "original"; "mirrored"; "scaled-small"; "scaled-large";
      "rotated-15"; "rotated-minus-15" ]%string.
Proof.
  intros HM. split; [apply generatePoseVariations_Return; exact HM |].
  split; reflexivity.
Qed.

End Composition.

Lemma generatePoseVariations_catalog_witness :
  exists M, mirrorPose sample_pose = Return M /\
    @generatePoseVariations taylor_engine sample_pose
      = Return (@variation_catalog taylor_engine sample_pose M).
Proof.
  destruct (mirrorPose sample_pose) as [M |] eqn:HM;
    [| vm_compute in HM; discriminate HM].
  exists M. split; [reflexivity |].
  exact (proj1 (@generatePoseVariations_catalog taylor_engine sample_pose M HM)).
Defined.

(** C10, as stated, fails: the identifier of the sixth variation is
    [rotated-minus-15]; [rotate--15] is its transformation tag. *)
Lemma generatePoseVariations_sixth_id :
  exists vs, @generatePoseVariations taylor_engine sample_pose = Return vs /\
    map variation_id vs <> specified_variation_ids /\
    option_map variation_id (nth_error vs 5) = Some "rotated-minus-15"%string /\
    option_map transformation (nth_error vs 5) = Some "rotate--15"%string.
Proof.
  destruct (mirrorPose sample_pose) as [M |] eqn:HM;
    [| vm_compute in HM; discriminate HM].
  exists (@variation_catalog taylor_engine sample_pose M).
  split; [exact (@generatePoseVariations_Return taylor_engine sample_pose M HM) |].
  split; [| split; reflexivity].
  simpl. intros H. discriminate H.
Qed.

Lemma transformPose_composition_witness :
  exists M,
    mirrorPose sample_pose = Return M /\
    @transformPose taylor_engine sample_pose
      {| mirror := Some true;
         scale := Some {| scale_width := of_Z 100; scale_height := of_Z 50 |};
         rotation := Some num_15 |}
    = Return (@rotatePose taylor_engine (scalePose M (of_Z 100) (of_Z 50)) num_15) /\
    @transformPose taylor_engine sample_pose
      {| mirror := Some true;
         scale := Some {| scale_width := of_Z 100; scale_height := of_Z 50 |};
         rotation := Some zero |}
    = Return (scalePose M (of_Z 100) (of_Z 50)).
Proof.
  destruct (mirrorPose sample_pose) as [M |] eqn:HM;
    [| vm_compute in HM; discriminate HM].
  exists M. split; [reflexivity |]. split.
  - apply (proj1 (proj2 (@transformPose_composition taylor_engine sample_pose
             {| mirror := Some true;
                scale := Some {| scale_width := of_Z 100; scale_height := of_Z 50 |};
                rotation := Some num_15 |}))
             M {| scale_width := of_Z 100; scale_height := of_Z 50 |} num_15);
      try reflexivity. exact HM.
  - rewrite (proj1 (proj2 (proj2 (@transformPose_composition taylor_engine
               sample_pose
               {| mirror := Some true;
                  scale := Some {| scale_width := of_Z 100;
                                   scale_height := of_Z 50 |};
                  rotation := Some zero |}))) zero eq_refl eq_refl).
    cbn [mirror scale].
    unfold transformPose, mirror_requested, scale_requested, rotation_requested.
    cbn [mirror scale rotation]. rewrite HM. reflexivity.
Defined.

(** C7, as stated, fails: a rotation of 0 is given, yet [transformPose]
    does not apply [rotatePose]: the test of the [if] is falsy at 0 and
    the pose is returned as it is, with x = 0.1, while [rotatePose] by 0
    - the cosine of 0 is 1 and its sine is 0 in every engine - moves the
    point to [(0.1 - 384) + 384 = 0.10000000000002274].  The same test
    skips a rotation of NaN. *)
Lemma transformPose_skips_rotation_zero :
  @transformPose taylor_engine fractional_pose
    {| mirror := None; scale := None; rotation := Some zero |}
  = Return fractional_pose /\
  @Math_cos taylor_engine (div (mul zero Math_PI) (of_Z 180)) = one /\
  @Math_sin taylor_engine (div (mul zero Math_PI) (of_Z 180)) = zero /\
  @rotatePose taylor_engine fractional_pose zero <> fractional_pose /\
  nth_error (map x (keypoints fractional_pose)) 0
  = Some (S754_finite false 7205759403792794 (-56)) /\
  nth_error (map x (keypoints (@rotatePose taylor_engine fractional_pose zero))) 0
  = Some (S754_finite false 7205759403794432 (-56)) /\
  @transformPose taylor_engine fractional_pose
    {| mirror := None; scale := None; rotation := Some NaN |}
  = Return fractional_pose /\
  @rotatePose taylor_engine fractional_pose NaN <> fractional_pose.
Proof.
  split; [reflexivity |].
  split; [vm_compute; reflexivity |].
  split; [vm_compute; reflexivity |].
  split; [vm_compute; intros H; discriminate H |].
  split; [vm_compute; reflexivity |].
  split; [vm_compute; reflexivity |].
  split; [reflexivity |].
  vm_compute. intros H. discriminate H.
Qed.

(* ================================================================== *)
(** * OpenPose interchange: round trip and rejected input *)
(* ================================================================== *)

Lemma length_flat_triples (kps : list Keypoint) :
  List.length (flat_map keypoint_triple kps) = (3 * List.length kps)%nat.
Proof.
  induction kps as [| k kps IH]; simpl; [reflexivity | rewrite IH; lia].
Qed.

Lemma nth_error_flat_triples (pre rest : list Keypoint) (k : Keypoint) (j : nat) :
  (j < 3)%nat ->
  nth_error (flat_map keypoint_triple (pre ++ k :: rest))
            (3 * List.length pre + j)
  = nth_error (keypoint_triple k) j.
Proof.
  intros Hj. rewrite flat_map_app. simpl flat_map.
  rewrite nth_error_app2; rewrite length_flat_triples; [| lia].
  replace (3 * List.length pre + j - 3 * List.length pre)%nat with j by lia.
  change (keypoint_triple k ++ flat_map keypoint_triple rest)
    with (x k :: y k :: confidence k :: flat_map keypoint_triple rest).
  destruct j as [| [| [| j]]]; try reflexivity. lia.
Qed.

(** On an exported array the loop reads the keypoints back one triple per
    iteration. *)
Lemma import_loop_flat_triples (rest : list Keypoint) :
  forall (pre : list Keypoint) (i fuel : nat) (acc : list ImportedKeypoint),
    i = (3 * List.length pre)%nat ->
    (List.length rest <= fuel)%nat ->
    map imported_values
        (import_loop (flat_map keypoint_triple (pre ++ rest)) i fuel acc)
    = map imported_values acc ++ map exported_values rest.
Proof.
  induction rest as [| k rest IH]; intros pre i fuel acc Hi Hfuel.
  - rewrite app_nil_r. simpl map. rewrite app_nil_r.
    destruct fuel as [| fuel]; [reflexivity |].
    cbn [import_loop]. rewrite length_flat_triples.
    rewrite (proj2 (Nat.ltb_ge _ _)) by lia. reflexivity.
  - destruct fuel as [| fuel]; [simpl in Hfuel; lia |].
    cbn [import_loop].
    rewrite length_flat_triples, length_app. cbn [List.length].
    rewrite (proj2 (Nat.ltb_lt _ _)) by lia.
    assert (Hx : nth_error (flat_map keypoint_triple (pre ++ k :: rest)) i
                 = Some (x k)).
    { replace i with (3 * List.length pre + 0)%nat by lia.
      apply nth_error_flat_triples. lia. }
    assert (Hy : nth_error (flat_map keypoint_triple (pre ++ k :: rest)) (i + 1)
                 = Some (y k)).
    { rewrite Hi. apply (nth_error_flat_triples pre rest k 1). lia. }
    assert (Hc : nth_error (flat_map keypoint_triple (pre ++ k :: rest)) (i + 2)
                 = Some (confidence k)).
    { rewrite Hi. apply (nth_error_flat_triples pre rest k 2). lia. }
    rewrite Hx, Hy, Hc.
    replace (pre ++ k :: rest) with ((pre ++ [k]) ++ rest)
      by (rewrite <- app_assoc; reflexivity).
    rewrite (IH (pre ++ [k]) (i + 3)%nat fuel).
    + rewrite map_app, <- app_assoc. reflexivity.
    + rewrite length_app. cbn [List.length]. lia.
    + simpl in Hfuel. lia.
Qed.

(** C8: for every PoseData P with 17 keypoints, importing the export of P
    gives a non-null pose whose keypoints carry, in order, the x, y and
    confidence of P's keypoints, and whose width and height are the
    768x768 defaults, whatever the dimensions of P. *)
Theorem fromOpenPoseFormat_toPoseOpenPoseFormat (P : PoseData) :
  List.length (keypoints P) = 17%nat ->
  exists R, fromOpenPoseFormat (toPoseOpenPoseFormat P) = Some R /\
    map imported_values (imported_keypoints R) = map exported_values (keypoints P) /\
    imported_width R = num_768 /\ imported_height R = num_768.
Proof.
  intros Hlen. unfold fromOpenPoseFormat, toPoseOpenPoseFormat.
  cbn [people pose_keypoints_2d].
  change (fun kp => [x kp; y kp; confidence kp]) with keypoint_triple.
  rewrite length_flat_triples, Hlen.
  change (3 * 17 <? 51)%nat with false. cbv iota.
  eexists. split; [reflexivity |].
  cbn [imported_keypoints imported_width imported_height].
  split; [| split; reflexivity].
  apply (import_loop_flat_triples (keypoints P) [] 0 (3 * 17) []);
    [reflexivity | lia].
Qed.

Lemma fromOpenPoseFormat_toPoseOpenPoseFormat_witness :
  List.length (keypoints wide_pose) = 17%nat /\
  exists R, fromOpenPoseFormat (toPoseOpenPoseFormat wide_pose) = Some R /\
    map imported_values (imported_keypoints R)
      = map exported_values (keypoints wide_pose) /\
    imported_width R = num_768 /\ imported_height R = num_768.
Proof.
  split; [reflexivity |].
  apply (fromOpenPoseFormat_toPoseOpenPoseFormat wide_pose). reflexivity.
Defined.

(** ** The import loop in closed form *)

Lemma imported_count_gt (n k : nat) :
  (3 * k < n)%nat <-> (k < imported_count n)%nat.
Proof.
  unfold imported_count.
  pose proof (Nat.div_mod_eq (n + 2) 3) as Hd.
  pose proof (Nat.mod_upper_bound (n + 2) 3 ltac:(lia)) as Hm.
  lia.
Qed.

(** The loop builds one keypoint per started triple. *)
Lemma import_loop_closed (vals : list number) :
  forall (fuel : nat) (acc : list ImportedKeypoint),
    (imported_count (List.length vals) <= List.length acc + fuel)%nat ->
    import_loop vals (3 * List.length acc) fuel acc
    = acc ++ map (imported_at vals)
               (seq (List.length acc)
                    (imported_count (List.length vals) - List.length acc)).
Proof.
  induction fuel as [| fuel IH]; intros acc Hfuel.
  - cbn [import_loop].
    replace (imported_count (List.length vals) - List.length acc)%nat with 0%nat
      by lia.
    rewrite app_nil_r. reflexivity.
  - cbn [import_loop].
    destruct (3 * List.length acc <? List.length vals)%nat eqn:Hlt.
    + apply Nat.ltb_lt in Hlt. apply imported_count_gt in Hlt.
      replace (3 * List.length acc + 3)%nat
        with (3 * List.length (acc ++ [imported_at vals (List.length acc)]))%nat
        by (rewrite length_app; cbn [List.length]; lia).
      change {| imported_x := nth_error vals (3 * List.length acc);
                imported_y := nth_error vals (3 * List.length acc + 1);
                imported_confidence := nth_error vals (3 * List.length acc + 2);
                imported_label := keypoint_label (List.length acc) |}
        with (imported_at vals (List.length acc)).
      rewrite IH by (rewrite length_app; cbn [List.length]; lia).
      rewrite length_app. cbn [List.length]. rewrite <- app_assoc. f_equal.
      replace (imported_count (List.length vals) - List.length acc)%nat
        with (S (imported_count (List.length vals) - (List.length acc + 1)))%nat
        by lia.
      cbn [seq map app]. f_equal. f_equal. f_equal. lia.
    + apply Nat.ltb_ge in Hlt.
      assert (Hc : ~ (List.length acc < imported_count (List.length vals))%nat).
      { intros H. apply imported_count_gt in H. lia. }
      replace (imported_count (List.length vals) - List.length acc)%nat with 0%nat
        by lia.
      rewrite app_nil_r. reflexivity.
Qed.

Lemma imported_count_le (n : nat) : (imported_count n <= n)%nat.
Proof.
  unfold imported_count.
  pose proof (Nat.div_mod_eq (n + 2) 3) as Hd.
  pose proof (Nat.mod_upper_bound (n + 2) 3 ltac:(lia)) as Hm.
  destruct n as [| [| n]]; [reflexivity | reflexivity |]. lia.
Qed.

Lemma fromOpenPoseFormat_closed (d : OpenPoseData) (vals : list number) :
  first_pose_keypoints_2d d = Some vals ->
  (51 <= List.length vals)%nat ->
  fromOpenPoseFormat d
  = Some {| imported_keypoints :=
              map (imported_at vals) (seq 0 (imported_count (List.length vals)));
            imported_skeleton := COCO_SKELETON;
            imported_width := num_768;
            imported_height := num_768 |}.
Proof.
  unfold first_pose_keypoints_2d, fromOpenPoseFormat. intros Hd Hlen.
  destruct (people d) as [[| person rest] |]; try discriminate Hd.
  rewrite Hd. rewrite (proj2 (Nat.ltb_ge _ _)) by exact Hlen.
  f_equal. f_equal.
  pose proof (import_loop_closed vals (List.length vals) []) as H.
  cbn [List.length app] in H. rewrite Nat.sub_0_r in H.
  apply H. apply imported_count_le.
Qed.

(** The keypoints read from complete triples, with the labels of the
    positions from [off] on. *)
Lemma as_Keypoints_triples (k : nat) :
  forall (vals : list number) (off : nat),
    List.length vals = (3 * k)%nat ->
    exists kps,
      as_Keypoints
        (map (fun j => {| imported_x := nth_error vals (3 * j);
                          imported_y := nth_error vals (3 * j + 1);
                          imported_confidence := nth_error vals (3 * j + 2);
                          imported_label := keypoint_label (off + j) |})
             (seq 0 k)) = Some kps /\
      List.length kps = k /\
      flat_map keypoint_triple kps = vals.
Proof.
  induction k as [| k IH]; intros vals off Hlen.
  - destruct vals; [| discriminate Hlen]. exists []. repeat split.
  - destruct vals as [| a [| b [| c vals]]]; try (simpl in Hlen; lia).
    destruct (IH vals (S off)) as (kps & Hk & Hl & Hf);
      [simpl in Hlen; lia |].
    exists ({| x := a; y := b; confidence := c; label := keypoint_label (off + 0) |}
            :: kps).
    cbn [seq map as_Keypoints]. rewrite <- seq_shift, map_map.
    change (nth_error (a :: b :: c :: vals) (3 * 0)) with (Some a).
    change (nth_error (a :: b :: c :: vals) (3 * 0 + 1)) with (Some b).
    change (nth_error (a :: b :: c :: vals) (3 * 0 + 2)) with (Some c).
    cbn [as_Keypoint imported_x imported_y imported_confidence imported_label].
    erewrite map_ext; [rewrite Hk |].
    + split; [reflexivity |]. split; [simpl; congruence |].
      cbn [flat_map keypoint_triple x y confidence app]. congruence.
    + intros j. cbn beta.
      replace (3 * S j)%nat with (S (S (S (3 * j)))) by lia.
      replace (S (S (S (3 * j))) + 1)%nat with (S (S (S (3 * j + 1)))) by lia.
      replace (S (S (S (3 * j))) + 2)%nat with (S (S (S (3 * j + 2)))) by lia.
      cbn [nth_error]. f_equal. f_equal. lia.
Qed.

(** One incomplete keypoint makes the whole list unreadable as
    [Keypoint]s. *)
Lemma as_Keypoints_In_None (ks : list ImportedKeypoint) (k : ImportedKeypoint) :
  In k ks -> as_Keypoint k = None -> as_Keypoints ks = None.
Proof.
  induction ks as [| k0 ks IH]; intros Hin Hk; [destruct Hin |].
  cbn [as_Keypoints]. destruct Hin as [-> | Hin].
  - rewrite Hk. reflexivity.
  - rewrite (IH Hin Hk). destruct (as_Keypoint k0); reflexivity.
Qed.

Lemma import_rejected_false (d : OpenPoseData) :
  import_rejected d = false ->
  exists vals, first_pose_keypoints_2d d = Some vals /\
               (51 <= List.length vals)%nat.
Proof.
  unfold import_rejected, first_pose_keypoints_2d.
  destruct (people d) as [[| person rest] |]; try discriminate.
  destruct (pose_keypoints_2d person) as [vals |]; try discriminate.
  change (17 * 3)%nat with 51%nat. intros H. apply Nat.ltb_ge in H. eauto.
Qed.

(** ** Rejected and accepted input *)

(** C9, as stated, fails: on an array of 52 values - not rejected, being
    no shorter than 51 - the result is not null, but it is no PoseData
    either: the 18th keypoint has its x and neither y nor confidence,
    so the numbers of the pose cannot all be read and the module's own
    validator returns [false] on it. *)
Lemma fromOpenPoseFormat_ragged_input :
  import_rejected ragged_openpose = false /\
  exists R, fromOpenPoseFormat ragged_openpose = Some R /\
    nth_error (imported_keypoints R) 17
    = Some {| imported_x := Some one; imported_y := None;
              imported_confidence := None;
              imported_label := "keypoint_17" |} /\
    as_PoseData R = None /\
    validatePoseData (ImportedPose_value R) = Return (JSBoolean false).
Proof.
  split; [reflexivity |].
  eexists. split; [vm_compute; reflexivity |].
  split; [reflexivity |]. split; vm_compute; reflexivity.
Qed.

(** C9 (amended): [fromOpenPoseFormat] is total on OpenPose-shaped
    objects - no step of it can throw - and it returns null exactly when
    the [people] array is absent or empty or the first person's
    [pose_keypoints_2d] array is absent or holds fewer than 51 values.
    On every other input it returns a non-null result; that result is a
    PoseData - every keypoint with its x, y and confidence, the values
    of the array in order, in a 768x768 frame - whenever the length of
    the array is a multiple of 3, and with any other length it is not:
    the last keypoint lacks its confidence. *)
Theorem fromOpenPoseFormat_null_iff (d : OpenPoseData) :
  (import_rejected d = true -> fromOpenPoseFormat d = None) /\
  (import_rejected d = false -> exists R, fromOpenPoseFormat d = Some R) /\
  (fromOpenPoseFormat d = None <-> import_rejected d = true) /\
  (import_rejected d = false ->
   exists (R : ImportedPose) (vals : list number),
     fromOpenPoseFormat d = Some R /\
     first_pose_keypoints_2d d = Some vals /\
     (51 <= List.length vals)%nat /\
     ((List.length vals mod 3 = 0)%nat ->
      exists P : PoseData,
        as_PoseData R = Some P /\
        (17 <= List.length (keypoints P))%nat /\
        flat_map keypoint_triple (keypoints P) = vals /\
        width P = num_768 /\ height P = num_768) /\
     ((List.length vals mod 3 <> 0)%nat ->
      as_PoseData R = None /\
      exists last : ImportedKeypoint,
        nth_error (imported_keypoints R) (List.length (imported_keypoints R) - 1)
        = Some last /\
        imported_confidence last = None)).
Proof.
  assert (Hbase :
    (import_rejected d = true -> fromOpenPoseFormat d = None) /\
    (import_rejected d = false -> exists R, fromOpenPoseFormat d = Some R) /\
    (fromOpenPoseFormat d = None <-> import_rejected d = true)).
  { unfold import_rejected, fromOpenPoseFormat.
    destruct (people d) as [[| person rest] |];
      try (split; [| split; [| split]]; intros; (reflexivity || discriminate)).
    destruct (pose_keypoints_2d person) as [values |];
      try (split; [| split; [| split]]; intros; (reflexivity || discriminate)).
    change (17 * 3)%nat with 51%nat.
    destruct (List.length values <? 51)%nat;
      (split; [| split; [| split]]); intros; try reflexivity; try discriminate.
    eexists; reflexivity. }
  destruct Hbase as (H1 & H2 & H3).
  split; [exact H1 |]. split; [exact H2 |]. split; [exact H3 |].
  intros Hacc. destruct (import_rejected_false d Hacc) as (vals & Hd & Hlen).
  eexists. exists vals.
  split; [apply (fromOpenPoseFormat_closed d vals Hd Hlen) |].
  split; [exact Hd |]. split; [exact Hlen |].
  set (n := List.length vals) in *.
  pose proof (Nat.div_mod_eq n 3) as Hdm.
  pose proof (Nat.mod_upper_bound n 3 ltac:(lia)) as Hm.
  pose proof (Nat.div_mod_eq (n + 2) 3) as Hdm2.
  pose proof (Nat.mod_upper_bound (n + 2) 3 ltac:(lia)) as Hm2.
  unfold as_PoseData.
  cbn [imported_keypoints imported_skeleton imported_width imported_height].
  split.
  - intros Hmod.
    assert (Hc : imported_count n = (n / 3)%nat) by (unfold imported_count; lia).
    destruct (as_Keypoints_triples (n / 3) vals 0 ltac:(fold n; lia))
      as (kps & Hkps & Hl & Hf).
    unfold imported_at. cbn [Nat.add] in Hkps. rewrite Hc, Hkps.
    eexists. split; [reflexivity |].
    cbn [keypoints width height]. split; [lia |]. split; [exact Hf |].
    split; reflexivity.
  - intros Hmod.
    assert (Hc : imported_count n = S (n / 3)) by (unfold imported_count; lia).
    rewrite length_map, length_seq, Hc.
    replace (S (n / 3) - 1)%nat with (n / 3)%nat by lia.
    assert (Hlast : nth_error (map (imported_at vals) (seq 0 (S (n / 3)))) (n / 3)
                    = Some (imported_at vals (n / 3))).
    { rewrite nth_error_map, nth_error_seq.
      rewrite (proj2 (Nat.ltb_lt _ _)) by lia. reflexivity. }
    assert (Hconf : imported_confidence (imported_at vals (n / 3)) = None).
    { cbn [imported_at imported_confidence]. apply nth_error_None. fold n. lia. }
    split.
    + rewrite (as_Keypoints_In_None _ (imported_at vals (n / 3)));
        [reflexivity | exact (nth_error_In _ _ Hlast) |].
      unfold as_Keypoint. rewrite Hconf.
      destruct (imported_x (imported_at vals (n / 3)));
        [destruct (imported_y (imported_at vals (n / 3))) |]; reflexivity.
    + exists (imported_at vals (n / 3)). split; [exact Hlast | exact Hconf].
Qed.

Lemma fromOpenPoseFormat_null_iff_witness :
  fromOpenPoseFormat {| version := None; people := None |} = None /\
  fromOpenPoseFormat {| version := Some num_1_3; people := Some [] |} = None /\
  fromOpenPoseFormat {| version := Some num_1_3; people := Some [empty_person] |}
    = None /\
  fromOpenPoseFormat (toPoseOpenPoseFormat short_pose) = None /\
  (exists R, fromOpenPoseFormat (toPoseOpenPoseFormat wide_pose) = Some R) /\
  (exists R P, fromOpenPoseFormat (toPoseOpenPoseFormat wide_pose) = Some R /\
     as_PoseData R = Some P /\
     flat_map keypoint_triple (keypoints P)
     = flat_map keypoint_triple (keypoints wide_pose)) /\
  (exists R, fromOpenPoseFormat ragged_openpose = Some R /\ as_PoseData R = None).
Proof.
  split; [| split; [| split; [| split; [| split; [| split]]]]].
  - apply (proj1 (fromOpenPoseFormat_null_iff _)). reflexivity.
  - apply (proj1 (fromOpenPoseFormat_null_iff _)). reflexivity.
  - apply (proj1 (fromOpenPoseFormat_null_iff _)). reflexivity.
  - apply (proj1 (fromOpenPoseFormat_null_iff _)). reflexivity.
  - apply (proj1 (proj2 (fromOpenPoseFormat_null_iff _))). reflexivity.
  - destruct (proj2 (proj2 (proj2 (fromOpenPoseFormat_null_iff
                (toPoseOpenPoseFormat wide_pose)))) eq_refl)
      as (R & vals & HR & Hd & _ & Hfull & _).
    injection Hd as <-.
    destruct (Hfull eq_refl) as (P & HP & _ & Hf & _).
    exists R, P. split; [exact HR |]. split; [exact HP | exact Hf].
  - destruct (proj2 (proj2 (proj2 (fromOpenPoseFormat_null_iff ragged_openpose)))
                eq_refl)
      as (R & vals & HR & Hd & _ & _ & Hrag).
    injection Hd as <-.
    exists R. split; [exact HR |]. apply Hrag. vm_compute. intros H. discriminate H.
Defined.

(* ================================================================== *)
(** * Further properties of the code *)
(* ================================================================== *)

(** The remaining sections go beyond the specification: they cover
    [scalePose], [rotatePose] and [validatePoseData], and the error and
    edge behaviour of the functions above. *)

(* ================================================================== *)
(** * Double arithmetic: exact and absorbing cases *)
(* ================================================================== *)

(** A finite number minus itself is [+0]. *)
Lemma sub_diag_finite (a : number) :
  finite_number a = true -> sub a a = zero.
Proof.
  destruct a as [[|] | s | | s m e]; intros H; try discriminate H;
    try reflexivity.
  unfold sub, SFsub. cbv zeta. rewrite Z.sub_diag. reflexivity.
Qed.

(** [+0] divided by a number that is neither zero nor NaN nor negative. *)
Lemma div_zero_positive (d : number) :
  truthy d = true -> not_negative d = true -> div zero d = zero.
Proof.
  destruct d as [s | [|] | | [|] m e]; intros Ht Hn; try discriminate;
    reflexivity.
Qed.

Lemma of_nat_S_positive (n : nat) :
  truthy (of_nat (S n)) = true /\ not_negative (of_nat (S n)) = true.
Proof.
  split; [| apply of_nat_not_negative].
  unfold of_nat, of_Z, binary_normalize.
  destruct (Z.of_nat (S n)) as [| p | p] eqn:Hn; [lia | | lia].
  destruct (binary_round_rounds_to false p 0)
    as (mz & ez & Hle & Hmz & HP0 & Hmin & Hr).
  pose proof (rounds_to_shape false (Z.pos mz) ez _ ltac:(lia) HP0 Hr) as Hs.
  pose proof (rounds_to_nonzero false (Z.pos mz) ez _ ltac:(lia)
                (Hmin ltac:(lia)) Hr) as Hnz.
  destruct (binary_round prec emax false p 0) as [s | s | | s q e'];
    simpl in Hs; try contradiction; reflexivity.
Qed.

Lemma frame_diagonal_not_negative (P : PoseData) :
  not_negative (frame_diagonal P) = true.
Proof.
  unfold frame_diagonal. apply sqrt_not_negative. apply add_not_negative;
    apply square_not_negative.
Qed.

(** A finite non-zero number divided by itself is exactly 1. *)
Lemma div_diag_finite (a : number) :
  finite_nonzero a = true -> div a a = one.
Proof.
  destruct a as [s | s | | s m e]; intros H; try discriminate H.
  unfold div, SFdiv, SFdiv_core_binary. cbv zeta.
  replace (Zdigits2 (Z.pos m) + e - (Zdigits2 (Z.pos m) + e))%Z with 0%Z by lia.
  rewrite Z.sub_diag.
  change (Z.min (fexp prec emax 0) 0) with (-53)%Z.
  change (0 - -53)%Z with 53%Z. cbv iota.
  rewrite Z.shiftl_mul_pow2 by lia.
  assert (Hdiv : Z.div_eucl (Z.pos m * 2 ^ 53) (Z.pos m) = (2 ^ 53, 0)%Z).
  { pose proof (Z.div_eucl_eq (Z.pos m * 2 ^ 53) (Z.pos m) ltac:(lia)) as Heq.
    pose proof (Z.mod_pos_bound (Z.pos m * 2 ^ 53) (Z.pos m) ltac:(lia)) as Hb.
    unfold Z.modulo in Hb.
    assert (Hq : (Z.pos m * 2 ^ 53 / Z.pos m = 2 ^ 53)%Z).
    { rewrite Z.mul_comm. apply Z.div_mul. lia. }
    unfold Z.div in Hq.
    destruct (Z.div_eucl (Z.pos m * 2 ^ 53) (Z.pos m)) as [q r].
    cbn [fst snd] in *. subst q. f_equal. nia. }
  change IntDef.Z.div_eucl with Z.div_eucl.
  rewrite Hdiv.
  assert (Hloc : new_location (Z.pos m) 0 = loc_Exact).
  { unfold new_location, new_location_even, new_location_odd.
    destruct (Z.even (Z.pos m)); reflexivity. }
  change IntDef.Z.even with Z.even in *.
  rewrite Hloc, xorb_nilpotent.
  change (2 ^ 53)%Z with (Z.pos 4503599627370496 * 2 ^ 1)%Z.
  apply (binary_round_aux_exact false 4503599627370496 1 (-53));
    [lia | reflexivity].
Qed.

(** Multiplying a double by 1 leaves it as it is. *)
Lemma mul_one_r (a : number) : double a = true -> mul a one = a.
Proof.
  destruct a as [s | s | | s m e]; intros H; cbn [double] in H.
  - unfold mul, one. cbn [SFmul]. rewrite xorb_false_r. reflexivity.
  - unfold mul, one. cbn [SFmul]. rewrite xorb_false_r. reflexivity.
  - reflexivity.
  - unfold mul, one. cbn [SFmul]. rewrite xorb_false_r.
    replace (Z.pos (m * 4503599627370496)) with (Z.pos m * 2 ^ 52)%Z
      by (change (2 ^ 52)%Z with 4503599627370496%Z; lia).
    replace e with ((e + -52) + 52)%Z at 2 by lia.
    apply binary_round_aux_exact; [lia |].
    replace (e + -52 + 52)%Z with e by lia. exact H.
Qed.

(** A quotient by zero or by NaN is never finite. *)
Lemma div_by_falsy (a d : number) :
  truthy d = false -> finite_number (div a d) = false.
Proof.
  destruct d as [sd | sd | | sd md ed]; intros H; try discriminate H;
    destruct a as [sa | sa | | sa ma ea]; reflexivity.
Qed.

(** A product with a factor that is not finite is not finite. *)
Lemma mul_by_not_finite (a f : number) :
  finite_number f = false -> finite_number (mul a f) = false.
Proof.
  destruct f as [sf | sf | | sf mf ef]; intros H; try discriminate H;
    destruct a as [sa | sa | | sa ma ea]; reflexivity.
Qed.

Lemma mul_zero_finite (s : bool) (c : number) :
  finite_number c = true -> exists s', mul (S754_zero s) c = S754_zero s'.
Proof.
  destruct c as [sc | sc | | sc mc ec]; intros H; try discriminate H;
    eexists; reflexivity.
Qed.

Lemma sub_zeros (s1 s2 : bool) :
  exists s', sub (S754_zero s1) (S754_zero s2) = S754_zero s'.
Proof. destruct s1, s2; eexists; reflexivity. Qed.

Lemma add_zeros (s1 s2 : bool) :
  exists s', add (S754_zero s1) (S754_zero s2) = S754_zero s'.
Proof. destruct s1, s2; eexists; reflexivity. Qed.

Lemma add_zero_finite (s : bool) (c : number) :
  finite_nonzero c = true -> add (S754_zero s) c = c.
Proof. destruct c; intros H; try discriminate H; reflexivity. Qed.

Lemma add_NaN_l (a : number) : add NaN a = NaN.
Proof. reflexivity. Qed.

Lemma add_NaN_r (a : number) : add a NaN = NaN.
Proof. destruct a; reflexivity. Qed.

Lemma sub_NaN_r (a : number) : sub a NaN = NaN.
Proof. destruct a; reflexivity. Qed.

Lemma mul_NaN_r (a : number) : mul a NaN = NaN.
Proof. destruct a; reflexivity. Qed.

(** The distance of two keypoints one of whose coordinates is NaN. *)
Lemma distance_NaN (kp1 kp2 : Keypoint) (d : number) :
  is_nan (x kp1) || is_nan (y kp1) || is_nan (x kp2) || is_nan (y kp2) = true ->
  div (sqrt (add (mul (sub (x kp1) (x kp2)) (sub (x kp1) (x kp2)))
                 (mul (sub (y kp1) (y kp2)) (sub (y kp1) (y kp2))))) d = NaN.
Proof.
  intros H.
  assert (Hd : sub (x kp1) (x kp2) = NaN \/ sub (y kp1) (y kp2) = NaN).
  { destruct (x kp1) as [| | |]; try (left; reflexivity);
      destruct (x kp2) as [| | |]; try (left; reflexivity);
      destruct (y kp1) as [| | |]; try (right; reflexivity);
      destruct (y kp2) as [| | |]; try (right; reflexivity);
      discriminate H. }
  destruct Hd as [-> | ->].
  - change (mul NaN NaN) with NaN. rewrite add_NaN_l. reflexivity.
  - change (mul NaN NaN) with NaN. rewrite add_NaN_r. reflexivity.
Qed.

(* ================================================================== *)
(** * Where the mirror transform throws *)
(* ================================================================== *)

(** A failing [map] has met an element on which the callback throws. *)
Lemma mapi_from_Throw (A B : Type) (f : A -> nat -> js B) (l : list A) :
  forall (s : nat) (e : js_error),
    mapi_from f s l = Throw e ->
    exists i a, nth_error l i = Some a /\ f a (s + i)%nat = Throw e.
Proof.
  induction l as [| a0 l IH]; simpl; intros s e H; [discriminate H |].
  destruct (f a0 s) as [b0 | e0] eqn:Hb0; simpl in H.
  - destruct (mapi_from f (S s) l) as [bs | e1] eqn:Hbs; simpl in H;
      [discriminate H |].
    inversion H; subst e1.
    destruct (IH _ _ Hbs) as (i & a & Hi & Hf).
    exists (S i), a. split; [exact Hi |]. rewrite Nat.add_succ_r. exact Hf.
  - inversion H; subst e0. exists 0%nat, a0. split; [reflexivity |].
    rewrite Nat.add_0_r. exact Hb0.
Qed.

Lemma mirrorPose_Throw (P : PoseData) (e : js_error) :
  mirrorPose P = Throw e ->
  e = TypeError "Cannot read properties of undefined (reading 'x')".
Proof.
  destruct P as [kps sk w h]. unfold mirrorPose, Array_map. intros H.
  destruct (mapi_from (mirrorKeypoint kps w) 0 kps) as [ks | e0] eqn:Hmap;
    simpl in H; [discriminate H |].
  inversion H; subst e0.
  apply mapi_from_Throw in Hmap. destruct Hmap as (i & a & _ & Hf).
  unfold mirrorKeypoint in Hf.
  destruct (match Map_get MIRROR_MAPPING (0 + i) with
            | Some j => nth_error kps j
            | None => Some a
            end); inversion Hf. reflexivity.
Qed.

Lemma partners_in_range_parity (n : nat) :
  partners_in_range n = negb (partner_missing n).
Proof.
  destruct (Nat.lt_ge_cases n 17) as [Hlt | Hge].
  - do 17 (destruct n as [| n]; [reflexivity |]). lia.
  - rewrite (mirror_source_ge17 n Hge). unfold partner_missing.
    rewrite (proj2 (Nat.leb_gt n 16)) by lia. rewrite andb_false_r. reflexivity.
Qed.

(** [mirrorPose] by keypoint count. *)
Lemma mirrorPose_by_count (P : PoseData) :
  (partner_missing (List.length (keypoints P)) = true ->
   mirrorPose P
   = Throw (TypeError "Cannot read properties of undefined (reading 'x')")) /\
  (partner_missing (List.length (keypoints P)) = false ->
   exists M, mirrorPose P = Return M).
Proof.
  pose proof (partners_in_range_parity (List.length (keypoints P))) as Hp.
  split; intros H; rewrite H in Hp; cbn [negb] in Hp.
  - destruct (mirrorPose P) as [M | e] eqn:HM.
    + apply mirrorPose_Return_in_range in HM. congruence.
    + f_equal. apply (mirrorPose_Throw P e HM).
  - apply mirrorPose_total. exact Hp.
Qed.

(** X1: [mirrorPose] throws exactly on the poses with 2, 4, ..., 16
    keypoints - the counts at which the last position is a left-side
    keypoint whose right-side partner is missing - and the exception is
    the TypeError of reading [x] of [undefined]; on every other pose,
    the empty one included, it returns. *)
Theorem mirrorPose_throws_iff (P : PoseData) :
  (partner_missing (List.length (keypoints P)) = true ->
   mirrorPose P
   = Throw (TypeError "Cannot read properties of undefined (reading 'x')")) /\
  (partner_missing (List.length (keypoints P)) = false ->
   exists M, mirrorPose P = Return M) /\
  (partner_missing (List.length (keypoints P)) = true <->
   exists i, (i < List.length (keypoints P))%nat /\
             (List.length (keypoints P) <= mirror_source i)%nat).
Proof.
  split; [apply mirrorPose_by_count |]. split; [apply mirrorPose_by_count |].
  pose proof (partners_in_range_parity (List.length (keypoints P))) as Hp.
  split.
  - intros H. rewrite H in Hp. cbn [negb] in Hp.
    destruct (List.length (keypoints P)) as [| n] eqn:Hn; [discriminate H |].
    exists n. split; [lia |].
    unfold partner_missing in H.
    do 17 (destruct n as [| n]; [first [discriminate H | vm_compute; lia] |]).
    apply andb_true_iff in H. destruct H as [_ H]. discriminate H.
  - intros (i & Hi & Hsrc).
    destruct (partner_missing (List.length (keypoints P))); [reflexivity |].
    cbn [negb] in Hp. rewrite partners_in_range_spec in Hp.
    specialize (Hp i Hi). lia.
Qed.

Lemma mirrorPose_throws_iff_witness :
  mirrorPose short_pose
  = Throw (TypeError "Cannot read properties of undefined (reading 'x')") /\
  exists M, mirrorPose small_frame_pose = Return M.
Proof.
  split.
  - apply (proj1 (mirrorPose_throws_iff short_pose)). reflexivity.
  - apply (proj1 (proj2 (mirrorPose_throws_iff small_frame_pose))). reflexivity.
Defined.

(* ================================================================== *)
(** * The axis of the mirror transform *)
(* ================================================================== *)

(** X2: the mirror axis is the vertical line [x = width / 2].  In a frame
    whose width is an even integer [2c] below 2^53, a keypoint without a
    mirror partner (the nose, or a position from 17 on) that lies on the
    axis, at [x = c], is returned by [mirrorPose] unchanged. *)
Theorem mirrorPose_axis (P M : PoseData) (c : Z) (i : nat) (k : Keypoint) :
  mirrorPose P = Return M ->
  width P = of_Z (2 * c) -> (0 <= c)%Z -> (2 * c < 9007199254740992)%Z ->
  nth_error (keypoints P) i = Some k ->
  mirror_source i = i -> x k = of_Z c ->
  nth_error (keypoints M) i = Some k.
Proof.
  intros HM Hw Hc Hlt Hk Hsrc Hx.
  destruct (mirrorPose_Return_image P M HM) as (_ & _ & _ & _ & Hnth).
  destruct (Hnth i k Hk) as (src & Hs & ->).
  rewrite Hsrc, Hk in Hs. injection Hs as <-.
  rewrite Hw, Hx, (sub_of_Z (2 * c) c) by lia.
  replace (2 * c - c)%Z with c by lia. rewrite <- Hx.
  destruct k; reflexivity.
Qed.

Lemma mirrorPose_axis_witness :
  exists M, mirrorPose sample_pose = Return M /\
    nth_error (keypoints M) NOSE
    = Some (mkKeypoint (of_Z 384) (of_Z 200) one "nose").
Proof.
  destruct (mirrorPose sample_pose) as [M |] eqn:HM;
    [| vm_compute in HM; discriminate HM].
  exists M. split; [reflexivity |].
  apply (mirrorPose_axis sample_pose M 384 NOSE
           (mkKeypoint (of_Z 384) (of_Z 200) one "nose") HM);
    try reflexivity; lia.
Defined.

(* ================================================================== *)
(** * Scaling: the same size, a degenerate frame *)
(* ================================================================== *)

(** X3: rescaling a pose to the size it already has changes nothing: both
    scale factors are exactly 1 when the width and the height are finite
    and not zero, and a double times 1 is that double. *)
Theorem scalePose_same_size (P : PoseData) :
  finite_nonzero (width P) = true -> finite_nonzero (height P) = true ->
  Forall (fun k => double (x k) = true /\ double (y k) = true) (keypoints P) ->
  scalePose P (width P) (height P) = P.
Proof.
  destruct P as [kps sk w h]. cbn [width height keypoints scalePose].
  intros Hw Hh Hk.
  rewrite (div_diag_finite w Hw), (div_diag_finite h Hh).
  f_equal. rewrite <- (map_id kps) at 2.
  apply map_ext_in. intros k Hin.
  rewrite Forall_forall in Hk. destruct (Hk k Hin) as [Hx Hy].
  rewrite (mul_one_r _ Hx), (mul_one_r _ Hy). destruct k; reflexivity.
Qed.

Lemma scalePose_same_size_witness :
  scalePose fractional_pose (width fractional_pose) (height fractional_pose)
  = fractional_pose.
Proof.
  apply (scalePose_same_size fractional_pose); try reflexivity.
  apply Forall_forall. intros k Hin. simpl in Hin.
  repeat (destruct Hin as [<- | Hin]; [split; vm_compute; reflexivity |]).
  destruct Hin.
Defined.

(** X4: [scalePose] divides by the width and the height of the source
    frame without a guard.  When the width is zero (or NaN), no keypoint
    of the result has a finite x, whatever the target size; the same
    holds for the height and y. *)
Theorem scalePose_degenerate_frame (P : PoseData) (newWidth newHeight : number) :
  (truthy (width P) = false ->
   Forall (fun k => finite_number (x k) = false)
          (keypoints (scalePose P newWidth newHeight))) /\
  (truthy (height P) = false ->
   Forall (fun k => finite_number (y k) = false)
          (keypoints (scalePose P newWidth newHeight))).
Proof.
  destruct P as [kps sk w h]. cbn [width height keypoints scalePose].
  split; intros H; apply Forall_forall; intros k Hin;
    apply in_map_iff in Hin; destruct Hin as (k0 & <- & _); cbn [x y];
    apply mul_by_not_finite; apply div_by_falsy; exact H.
Qed.

Lemma scalePose_degenerate_frame_witness :
  Forall (fun k => finite_number (x k) = false)
         (keypoints (scalePose empty_frame_pose (of_Z 100) (of_Z 100))) /\
  Forall (fun k => finite_number (y k) = false)
         (keypoints (scalePose empty_frame_pose (of_Z 100) (of_Z 100))).
Proof.
  split.
  - apply (proj1 (scalePose_degenerate_frame empty_frame_pose (of_Z 100) (of_Z 100))).
    reflexivity.
  - apply (proj2 (scalePose_degenerate_frame empty_frame_pose (of_Z 100) (of_Z 100))).
    reflexivity.
Defined.

(* ================================================================== *)
(** * Rotation: the centre of the frame *)
(* ================================================================== *)

Section RotationFacts.
Context {engine : MathImpl}.

(** X5: the centre of the frame is a fixed point of [rotatePose]: a
    keypoint that sits at [(width / 2, height / 2)] is returned unchanged,
    for every angle whose cosine and sine the engine computes as finite
    numbers, when the two centre coordinates are finite and not zero. *)
Theorem rotatePose_centre_fixed (P : PoseData) (angle : number) (i : nat)
    (k : Keypoint) :
  let centerX := div (width P) (of_Z 2) in
  let centerY := div (height P) (of_Z 2) in
  let radians := div (mul angle Math_PI) (of_Z 180) in
  finite_number (Math_cos radians) = true ->
  finite_number (Math_sin radians) = true ->
  finite_nonzero centerX = true -> finite_nonzero centerY = true ->
  nth_error (keypoints P) i = Some k ->
  x k = centerX -> y k = centerY ->
  nth_error (keypoints (rotatePose P angle)) i = Some k.
Proof.
  destruct P as [kps sk w h]. cbn [width height keypoints rotatePose].
  cbv zeta.
  set (cx := div w (of_Z 2)). set (cy := div h (of_Z 2)).
  set (radians := div (mul angle Math_PI) (of_Z 180)).
  intros Hcos Hsin Hcx Hcy Hk Hx Hy.
  rewrite nth_error_map, Hk. cbn [option_map]. f_equal.
  rewrite Hx, Hy.
  assert (Hfx : finite_number cx = true) by (destruct cx; try discriminate; reflexivity).
  assert (Hfy : finite_number cy = true) by (destruct cy; try discriminate; reflexivity).
  rewrite (sub_diag_finite cx Hfx), (sub_diag_finite cy Hfy). unfold zero.
  destruct (mul_zero_finite false _ Hcos) as [s1 ->].
  destruct (mul_zero_finite false _ Hsin) as [s2 ->].
  destruct (sub_zeros s1 s2) as [s3 ->].
  destruct (add_zeros s2 s1) as [s4 ->].
  rewrite (add_zero_finite s3 cx Hcx), (add_zero_finite s4 cy Hcy).
  destruct k; cbn in *; subst; reflexivity.
Qed.

End RotationFacts.

Lemma rotatePose_centre_fixed_witness :
  nth_error (keypoints (@rotatePose taylor_engine centred_pose num_15)) 0
  = Some (mkKeypoint (of_Z 384) (of_Z 384) one "nose").
Proof.
  apply (@rotatePose_centre_fixed taylor_engine centred_pose num_15 0
           (mkKeypoint (of_Z 384) (of_Z 384) one "nose"));
    vm_compute; reflexivity.
Defined.

(* ================================================================== *)
(** * What the transforms keep *)
(* ================================================================== *)

Section TransformFacts.
Context {engine : MathImpl}.

Lemma scalePose_keeps (P : PoseData) (w h : number) :
  map label (keypoints (scalePose P w h)) = map label (keypoints P) /\
  map confidence (keypoints (scalePose P w h)) = map confidence (keypoints P) /\
  skeleton (scalePose P w h) = skeleton P.
Proof.
  destruct P as [kps sk w0 h0]. cbn [scalePose keypoints skeleton].
  rewrite !map_map. repeat split; reflexivity.
Qed.

Lemma rotatePose_keeps (P : PoseData) (angle : number) :
  map label (keypoints (rotatePose P angle)) = map label (keypoints P) /\
  map confidence (keypoints (rotatePose P angle)) = map confidence (keypoints P) /\
  skeleton (rotatePose P angle) = skeleton P /\
  width (rotatePose P angle) = width P /\ height (rotatePose P angle) = height P.
Proof.
  destruct P as [kps sk w0 h0].
  cbn [rotatePose keypoints skeleton width height].
  rewrite !map_map. repeat split; reflexivity.
Qed.

Lemma mirrorPose_keeps (P M : PoseData) :
  mirrorPose P = Return M ->
  map label (keypoints M) = map label (keypoints P) /\
  (forall i, nth_error (map confidence (keypoints M)) i
             = nth_error (map confidence (keypoints P)) (mirror_source i)) /\
  skeleton M = skeleton P /\ width M = width P /\ height M = height P.
Proof.
  intros HM.
  pose proof (mirrorPose_Return_in_range P M HM) as Hr.
  rewrite partners_in_range_spec in Hr.
  destruct (mirrorPose_Return_image P M HM) as (Hw & Hh & Hs & Hlen & Hnth).
  repeat split; try assumption.
  - apply nth_error_ext. intros i. rewrite !nth_error_map.
    destruct (nth_error (keypoints P) i) as [k |] eqn:Hk.
    + destruct (Hnth i k Hk) as (src & _ & ->). reflexivity.
    + apply nth_error_None in Hk.
      rewrite (proj2 (nth_error_None (keypoints M) i)) by lia. reflexivity.
  - intros i. rewrite !nth_error_map.
    destruct (nth_error (keypoints P) i) as [k |] eqn:Hk.
    + destruct (Hnth i k Hk) as (src & -> & ->). reflexivity.
    + apply nth_error_None in Hk.
      rewrite (proj2 (nth_error_None (keypoints M) i)) by lia.
      assert (Hsrc : (List.length (keypoints P) <= mirror_source i)%nat).
      { destruct (Nat.lt_ge_cases (mirror_source i) (List.length (keypoints P)))
          as [Hlt | Hge]; [| exact Hge].
        specialize (Hr _ Hlt). rewrite mirror_source_involutive in Hr. lia. }
      rewrite (proj2 (nth_error_None (keypoints P) (mirror_source i)) Hsrc).
      reflexivity.
Qed.

(** X6: whatever [transformPose] is asked to do, a result it returns has
    as many keypoints as the input, with the same labels in the same
    order, and the same skeleton; its size is the requested scale target,
    and the input's size without one; the confidence at a position is
    the input's confidence at that position, or at its mirror partner
    when the mirror was requested. *)
Theorem transformPose_keeps (P R : PoseData) (t : Transformations) :
  transformPose P t = Return R ->
  List.length (keypoints R) = List.length (keypoints P) /\
  map label (keypoints R) = map label (keypoints P) /\
  skeleton R = skeleton P /\
  width R = match scale t with Some s => scale_width s | None => width P end /\
  height R = match scale t with Some s => scale_height s | None => height P end /\
  forall i, nth_error (map confidence (keypoints R)) i
            = nth_error (map confidence (keypoints P)) (confidence_source t i).
Proof.
  unfold transformPose, confidence_source, scale_requested. intros H.
  apply bind_Return_inv in H. destruct H as (M & HM & H).
  injection H as HR.
  assert (HMk : map label (keypoints M) = map label (keypoints P) /\
                (forall i, nth_error (map confidence (keypoints M)) i
                           = nth_error (map confidence (keypoints P))
                               (if mirror_requested t then mirror_source i else i)) /\
                skeleton M = skeleton P /\ width M = width P /\ height M = height P).
  { destruct (mirror_requested t).
    - apply mirrorPose_keeps. exact HM.
    - inversion HM; subst M. repeat split; reflexivity. }
  destruct HMk as (Hl & Hc & Hs & Hw & Hh).
  set (S1 := match scale t with
             | Some s => scalePose M (scale_width s) (scale_height s)
             | None => M
             end) in *.
  assert (HS : map label (keypoints S1) = map label (keypoints M) /\
               map confidence (keypoints S1) = map confidence (keypoints M) /\
               skeleton S1 = skeleton M /\
               width S1 = match scale t with
                          | Some s => scale_width s | None => width M end /\
               height S1 = match scale t with
                           | Some s => scale_height s | None => height M end).
  { unfold S1. destruct (scale t) as [s |].
    - destruct (scalePose_keeps M (scale_width s) (scale_height s)) as (H1 & H2 & H3).
      destruct M; repeat split; assumption.
    - repeat split; reflexivity. }
  destruct HS as (Hl1 & Hc1 & Hs1 & Hw1 & Hh1).
  assert (HRk : map label (keypoints R) = map label (keypoints S1) /\
                map confidence (keypoints R) = map confidence (keypoints S1) /\
                skeleton R = skeleton S1 /\ width R = width S1 /\
                height R = height S1).
  { rewrite <- HR. destruct (rotation_requested t) as [r |].
    - apply rotatePose_keeps.
    - repeat split; reflexivity. }
  destruct HRk as (Hl2 & Hc2 & Hs2 & Hw2 & Hh2).
  assert (Hlab : map label (keypoints R) = map label (keypoints P)) by congruence.
  split.
  { rewrite <- (length_map label (keypoints R)), Hlab. apply length_map. }
  split; [exact Hlab |]. split; [congruence |].
  split; [rewrite Hw2, Hw1; destruct (scale t); congruence |].
  split; [rewrite Hh2, Hh1; destruct (scale t); congruence |].
  intros i. rewrite Hc2, Hc1. apply Hc.
Qed.

(** X7: [transformPose] throws only through its mirror step: it returns
    whenever the mirror is not requested, and with the mirror requested
    it throws exactly on the poses with 2, 4, ..., 16 keypoints, whatever
    scale and rotation are asked for. *)
Theorem transformPose_throws_iff (P : PoseData) (t : Transformations) :
  (mirror_requested t && partner_missing (List.length (keypoints P)) = true ->
   transformPose P t
   = Throw (TypeError "Cannot read properties of undefined (reading 'x')")) /\
  (mirror_requested t && partner_missing (List.length (keypoints P)) = false ->
   exists R, transformPose P t = Return R).
Proof.
  unfold transformPose. split; intros H.
  - apply andb_true_iff in H. destruct H as [Hm Hp]. rewrite Hm.
    rewrite (proj1 (mirrorPose_by_count P) Hp). reflexivity.
  - destruct (mirror_requested t); cbn [andb] in H.
    + destruct (proj2 (mirrorPose_by_count P) H) as [M ->]. cbn [bind]. eauto.
    + cbn [bind]. eauto.
Qed.

End TransformFacts.

Lemma transformPose_keeps_witness :
  exists R,
    @transformPose taylor_engine sample_pose
      {| mirror := Some true;
         scale := Some {| scale_width := of_Z 100; scale_height := of_Z 50 |};
         rotation := Some num_15 |} = Return R /\
    List.length (keypoints R) = 17%nat /\
    map label (keypoints R) = coco_labels /\
    width R = of_Z 100 /\ height R = of_Z 50.
Proof.
  destruct (@transformPose taylor_engine sample_pose
              {| mirror := Some true;
                 scale := Some {| scale_width := of_Z 100; scale_height := of_Z 50 |};
                 rotation := Some num_15 |}) as [R | e] eqn:HR.
  - exists R. split; [reflexivity |].
    destruct (@transformPose_keeps taylor_engine sample_pose R _ HR)
      as (Hlen & Hlab & _ & Hw & Hh & _).
    split; [exact Hlen |]. split; [exact Hlab |]. split; [exact Hw | exact Hh].
  - exfalso. unfold transformPose in HR.
    destruct (mirrorPose sample_pose) as [M | e'] eqn:HM;
      [discriminate HR | vm_compute in HM; discriminate HM].
Defined.

Lemma transformPose_throws_iff_witness :
  @transformPose taylor_engine short_pose
    {| mirror := Some true; scale := None; rotation := None |}
  = Throw (TypeError "Cannot read properties of undefined (reading 'x')") /\
  exists R, @transformPose taylor_engine short_pose
    {| mirror := Some false; scale := None; rotation := Some num_15 |} = Return R.
Proof.
  split.
  - apply (proj1 (@transformPose_throws_iff taylor_engine short_pose _)). reflexivity.
  - apply (proj2 (@transformPose_throws_iff taylor_engine short_pose _)). reflexivity.
Defined.

(* ================================================================== *)
(** * Similarity: identical poses, NaN coordinates, what is read *)
(* ================================================================== *)

(** Comparing a pose with itself adds [+0] to the total at every confident
    keypoint with finite coordinates. *)
Lemma similarity_loop_identical (P : PoseData) :
  truthy (frame_diagonal P) = true ->
  Forall (fun k => confident k = true ->
                   finite_number (x k) = true /\ finite_number (y k) = true)
         (keypoints P) ->
  forall steps i valid,
    (i + steps <= List.length (keypoints P))%nat ->
    exists valid',
      similarity_loop P P i steps (zero, valid) = Return (zero, valid') /\
      (valid <= valid')%nat /\
      forall j k, (i <= j < i + steps)%nat ->
        nth_error (keypoints P) j = Some k -> confident k = true ->
        (valid < valid')%nat.
Proof.
  intros Hd Hfin. rewrite Forall_forall in Hfin.
  induction steps as [| steps IH]; intros i valid Hi.
  - exists valid. split; [reflexivity |]. split; [lia |]. intros j k Hj. lia.
  - cbn [similarity_loop].
    destruct (nth_error (keypoints P) i) as [kp |] eqn:Hkp;
      [| apply nth_error_None in Hkp; lia].
    fold (confident kp).
    destruct (confident kp) eqn:Hc.
    + destruct (Hfin kp (nth_error_In _ _ Hkp) Hc) as [Hx Hy].
      rewrite (sub_diag_finite _ Hx), (sub_diag_finite _ Hy).
      change (sqrt (add (mul zero zero) (mul zero zero))) with zero.
      fold (frame_diagonal P).
      rewrite (div_zero_positive _ Hd (frame_diagonal_not_negative P)).
      change (add zero zero) with zero.
      destruct (IH (S i) (S valid) ltac:(lia)) as (v' & Hrun & Hle & Hlt).
      exists v'. split; [exact Hrun |]. split; [lia |].
      intros j k Hj Hk Hck. lia.
    + destruct (IH (S i) valid ltac:(lia)) as (v' & Hrun & Hle & Hlt).
      exists v'. split; [exact Hrun |]. split; [lia |].
      intros j k Hj Hk Hck.
      destruct (Nat.eq_dec j i) as [-> | Hne].
      * rewrite Hkp in Hk. inversion Hk; subst. congruence.
      * apply (Hlt j k); [lia | assumption | assumption].
Qed.

(** X8: a pose compared with itself scores exactly 1 - the documented
    "1 is identical" - provided one keypoint at least is confident, the
    confident keypoints have finite coordinates and the frame diagonal is
    neither zero nor NaN. *)
Theorem calculatePoseSimilarity_identical (P : PoseData) :
  truthy (frame_diagonal P) = true ->
  Exists (fun k => confident k = true) (keypoints P) ->
  Forall (fun k => confident k = true ->
                   finite_number (x k) = true /\ finite_number (y k) = true)
         (keypoints P) ->
  calculatePoseSimilarity P P = Return one.
Proof.
  intros Hd Hex Hfin. unfold calculatePoseSimilarity.
  rewrite Nat.eqb_refl. cbn [negb].
  destruct (similarity_loop_identical P Hd Hfin (List.length (keypoints P)) 0 0
              ltac:(lia)) as (valid & Hrun & _ & Hlt).
  rewrite Hrun. cbn [bind].
  apply Exists_exists in Hex. destruct Hex as (k & Hin & Hk).
  apply In_nth_error in Hin. destruct Hin as [j Hj].
  assert (Hjlt : (j < List.length (keypoints P))%nat)
    by (apply nth_error_Some; congruence).
  specialize (Hlt j k ltac:(lia) Hj Hk).
  destruct valid as [| n]; [lia |].
  cbn [Nat.eqb].
  destruct (of_nat_S_positive n) as [Ht Hn].
  rewrite (div_zero_positive _ Ht Hn). reflexivity.
Qed.

Lemma calculatePoseSimilarity_identical_witness :
  calculatePoseSimilarity sample_pose sample_pose = Return one.
Proof.
  apply (calculatePoseSimilarity_identical sample_pose).
  - vm_compute. reflexivity.
  - apply Exists_cons_hd. vm_compute. reflexivity.
  - apply Forall_forall. intros k Hin. simpl in Hin.
    repeat (destruct Hin as [<- | Hin]; [intros _; split; reflexivity |]).
    destruct Hin.
Defined.

(** Once the total is NaN it stays NaN. *)
Lemma similarity_loop_NaN (P Q : PoseData) :
  List.length (keypoints P) = List.length (keypoints Q) ->
  forall steps i valid,
    (i + steps <= List.length (keypoints P))%nat ->
    exists valid', similarity_loop P Q i steps (NaN, valid) = Return (NaN, valid') /\
                   (valid <= valid')%nat.
Proof.
  intros Hlen. induction steps as [| steps IH]; intros i valid Hi;
    cbn [similarity_loop]; [eauto |].
  destruct (nth_error (keypoints P) i) as [kp1 |] eqn:H1;
    [| apply nth_error_None in H1; lia].
  destruct (nth_error (keypoints Q) i) as [kp2 |] eqn:H2;
    [| apply nth_error_None in H2; lia].
  destruct (gtb (confidence kp1) half);
    [destruct (gtb (confidence kp2) half) |].
  - rewrite add_NaN_l.
    destruct (IH (S i) (S valid) ltac:(lia)) as (v' & -> & Hle). eauto with arith.
  - destruct (IH (S i) valid ltac:(lia)) as (v' & -> & Hle). eauto.
  - destruct (IH (S i) valid ltac:(lia)) as (v' & -> & Hle). eauto.
Qed.

Lemma similarity_loop_hits_NaN (P Q : PoseData) (j : nat) (kp1 kp2 : Keypoint) :
  List.length (keypoints P) = List.length (keypoints Q) ->
  nth_error (keypoints P) j = Some kp1 ->
  nth_error (keypoints Q) j = Some kp2 ->
  both_confident kp1 kp2 = true ->
  is_nan (x kp1) || is_nan (y kp1) || is_nan (x kp2) || is_nan (y kp2) = true ->
  forall steps i total valid,
    (i <= j < i + steps)%nat -> (i + steps <= List.length (keypoints P))%nat ->
    exists valid', similarity_loop P Q i steps (total, valid) = Return (NaN, valid') /\
                   (valid < valid')%nat.
Proof.
  intros Hlen Hj1 Hj2 Hc Hnan.
  apply andb_true_iff in Hc. destruct Hc as [Hc1 Hc2].
  induction steps as [| steps IH]; intros i total valid Hij Hi; [lia |].
  cbn [similarity_loop].
  destruct (Nat.eq_dec i j) as [-> | Hne].
  - rewrite Hj1, Hc1, Hj2, Hc2. rewrite (distance_NaN kp1 kp2 _ Hnan), add_NaN_r.
    destruct (similarity_loop_NaN P Q Hlen steps (S j) (S valid) ltac:(lia))
      as (v' & -> & Hle).
    exists v'. split; [reflexivity | lia].
  - destruct (nth_error (keypoints P) i) as [k1 |] eqn:H1;
      [| apply nth_error_None in H1; lia].
    destruct (nth_error (keypoints Q) i) as [k2 |] eqn:H2;
      [| apply nth_error_None in H2; lia].
    destruct (gtb (confidence k1) half);
      [destruct (gtb (confidence k2) half) |].
    + match goal with
      | |- context [similarity_loop P Q (S i) steps (?t, S valid)] =>
          destruct (IH (S i) t (S valid) ltac:(lia) ltac:(lia)) as (v' & -> & Hlt)
      end.
      exists v'. split; [reflexivity | lia].
    + apply IH; lia.
    + apply IH; lia.
Qed.

(** X9: a NaN coordinate is not rejected and not skipped: when the two
    poses have the same number of keypoints and, at some position, both
    keypoints are confident and one of the four coordinates is NaN, the
    similarity is NaN - it neither is 0 nor lies in the documented range. *)
Theorem calculatePoseSimilarity_NaN_coordinate (P Q : PoseData) (j : nat)
    (kp1 kp2 : Keypoint) :
  List.length (keypoints P) = List.length (keypoints Q) ->
  nth_error (keypoints P) j = Some kp1 ->
  nth_error (keypoints Q) j = Some kp2 ->
  both_confident kp1 kp2 = true ->
  is_nan (x kp1) || is_nan (y kp1) || is_nan (x kp2) || is_nan (y kp2) = true ->
  calculatePoseSimilarity P Q = Return NaN.
Proof.
  intros Hlen Hj1 Hj2 Hc Hnan. unfold calculatePoseSimilarity.
  rewrite Hlen, Nat.eqb_refl. cbn [negb]. rewrite <- Hlen.
  assert (Hj : (j < List.length (keypoints P))%nat)
    by (apply nth_error_Some; congruence).
  destruct (similarity_loop_hits_NaN P Q j kp1 kp2 Hlen Hj1 Hj2 Hc Hnan
              (List.length (keypoints P)) 0 zero 0 ltac:(lia) ltac:(lia))
    as (valid & -> & Hlt).
  cbn [bind]. destruct valid as [| n]; [lia |]. reflexivity.
Qed.

Lemma calculatePoseSimilarity_NaN_coordinate_witness :
  calculatePoseSimilarity
    {| keypoints := [ mkKeypoint NaN zero one "nose" ]; skeleton := [];
       width := num_768; height := num_768 |}
    small_frame_pose = Return NaN.
Proof.
  apply (calculatePoseSimilarity_NaN_coordinate _ small_frame_pose 0
           (mkKeypoint NaN zero one "nose") (mkKeypoint zero zero one "nose"));
    reflexivity.
Defined.

Lemma nth_error_triples (l l' : list Keypoint) (i : nat) :
  map keypoint_triple l' = map keypoint_triple l ->
  match nth_error l' i, nth_error l i with
  | Some k', Some k => x k' = x k /\ y k' = y k /\ confidence k' = confidence k
  | None, None => True
  | _, _ => False
  end.
Proof.
  intros H.
  assert (Hi : nth_error (map keypoint_triple l') i
               = nth_error (map keypoint_triple l) i) by (rewrite H; reflexivity).
  rewrite !nth_error_map in Hi.
  destruct (nth_error l' i) as [k' |], (nth_error l i) as [k |];
    cbn [option_map] in Hi; try discriminate Hi; [| exact I].
  unfold keypoint_triple in Hi. injection Hi as Hx Hy Hc. auto.
Qed.

Lemma similarity_loop_reads (P P' Q Q' : PoseData) :
  map keypoint_triple (keypoints P') = map keypoint_triple (keypoints P) ->
  map keypoint_triple (keypoints Q') = map keypoint_triple (keypoints Q) ->
  width P' = width P -> height P' = height P ->
  forall steps i acc,
    similarity_loop P' Q' i steps acc = similarity_loop P Q i steps acc.
Proof.
  intros HP HQ Hw Hh. induction steps as [| steps IH]; intros i acc;
    cbn [similarity_loop]; [reflexivity |].
  destruct acc as [total valid].
  pose proof (nth_error_triples _ _ i HP) as H1.
  pose proof (nth_error_triples _ _ i HQ) as H2.
  destruct (nth_error (keypoints P') i) as [k1' |],
           (nth_error (keypoints P) i) as [k1 |]; try contradiction;
    [| reflexivity].
  destruct H1 as (Hx1 & Hy1 & Hc1). rewrite Hc1.
  destruct (gtb (confidence k1) half); [| apply IH].
  destruct (nth_error (keypoints Q') i) as [k2' |],
           (nth_error (keypoints Q) i) as [k2 |]; try contradiction;
    [| reflexivity].
  destruct H2 as (Hx2 & Hy2 & Hc2). rewrite Hc2.
  destruct (gtb (confidence k2) half); [| apply IH].
  rewrite Hx1, Hy1, Hx2, Hy2, Hw, Hh. apply IH.
Qed.

(** X10: the similarity reads the x, y and confidence of the keypoints of
    both poses and the width and height of the first pose, and nothing
    else: the labels, the skeletons and the frame of the second pose have
    no influence on the result. *)
Theorem calculatePoseSimilarity_reads (P P' Q Q' : PoseData) :
  map keypoint_triple (keypoints P') = map keypoint_triple (keypoints P) ->
  map keypoint_triple (keypoints Q') = map keypoint_triple (keypoints Q) ->
  width P' = width P -> height P' = height P ->
  calculatePoseSimilarity P' Q' = calculatePoseSimilarity P Q.
Proof.
  intros HP HQ Hw Hh. unfold calculatePoseSimilarity.
  assert (HlP : List.length (keypoints P') = List.length (keypoints P)).
  { rewrite <- (length_map keypoint_triple (keypoints P')), HP. apply length_map. }
  assert (HlQ : List.length (keypoints Q') = List.length (keypoints Q)).
  { rewrite <- (length_map keypoint_triple (keypoints Q')), HQ. apply length_map. }
  rewrite HlP, HlQ, (similarity_loop_reads P P' Q Q' HP HQ Hw Hh). reflexivity.
Qed.

Lemma calculatePoseSimilarity_reads_witness :
  calculatePoseSimilarity fractional_pose wide_pose
  = calculatePoseSimilarity fractional_pose fractional_pose.
Proof.
  apply (calculatePoseSimilarity_reads fractional_pose fractional_pose
           fractional_pose wide_pose); reflexivity.
Defined.

(* ================================================================== *)
(** * Nearest-neighbour search: members, empty results, the best match *)
(* ================================================================== *)

(** The steps of [findSimilarPoses], named. *)
Lemma findSimilarPoses_steps (targetPose : PoseData) (poses : list IdentifiedPose)
    (threshold maxResults : option number) :
  exists scored : list Scored,
    map pose scored = poses /\
    Forall (fun it => calculatePoseSimilarity targetPose (pose_data (pose it))
                      = Return (similarity it)) scored /\
    findSimilarPoses targetPose poses threshold maxResults
    = Return (Array_slice0
                (Array_sort by_similarity_desc
                   (filter (fun it => geb (similarity it)
                                          (or_default threshold default_threshold))
                           scored))
                (or_default maxResults default_maxResults)).
Proof.
  destruct (score_candidates_total targetPose poses)
    as (scored & Hmap & Hposes & Hsims).
  exists scored. split; [exact Hposes |]. split; [exact Hsims |].
  unfold findSimilarPoses. rewrite Hmap. reflexivity.
Qed.

Lemma Array_slice0_firstn (A : Type) (l : list A) (m : number) :
  exists n, Array_slice0 l m = firstn n l.
Proof. unfold Array_slice0. eexists; reflexivity. Qed.

Lemma In_firstn (A : Type) (n : nat) (l : list A) (a : A) :
  In a (firstn n l) -> In a l.
Proof.
  intros H. rewrite <- (firstn_skipn n l). apply in_or_app. left. exact H.
Qed.

Lemma length_filter_le (A : Type) (p : A -> bool) (l : list A) :
  (List.length (filter p l) <= List.length l)%nat.
Proof.
  induction l as [| a l IH]; simpl; [lia |].
  destruct (p a); simpl; lia.
Qed.

(** X11: every entry [findSimilarPoses] returns is one of the candidates,
    paired with its own similarity to the target; that similarity is at
    or above the threshold and is a number of [0, 1], never NaN; and
    there are never more entries than candidates.  This holds for every
    threshold and every [maxResults], the negative ones included. *)
Theorem findSimilarPoses_members (targetPose : PoseData)
    (poses : list IdentifiedPose) (threshold maxResults : option number)
    (result : list Scored) :
  findSimilarPoses targetPose poses threshold maxResults = Return result ->
  (List.length result <= List.length poses)%nat /\
  Forall (fun it =>
            In (pose it) poses /\
            calculatePoseSimilarity targetPose (pose_data (pose it))
            = Return (similarity it) /\
            geb (similarity it) (or_default threshold default_threshold) = true /\
            leb zero (similarity it) = true /\ leb (similarity it) one = true)
         result.
Proof.
  intros Hrun.
  destruct (findSimilarPoses_steps targetPose poses threshold maxResults)
    as (scored & Hposes & Hsims & Hrun').
  rewrite Hrun' in Hrun. injection Hrun as <-.
  set (t := or_default threshold default_threshold) in *.
  set (kept := filter (fun it => geb (similarity it) t) scored).
  pose proof (kept_scores targetPose t scored Hsims) as Hkept. fold kept in Hkept.
  destruct (Array_slice0_firstn _ (Array_sort by_similarity_desc kept)
              (or_default maxResults default_maxResults)) as [n ->].
  split.
  - apply Nat.le_trans with (List.length (Array_sort by_similarity_desc kept));
      [rewrite length_firstn; apply Nat.le_min_r |].
    rewrite (Permutation_length (Array_sort_Permutation by_similarity_desc kept)).
    rewrite <- Hposes, length_map. apply length_filter_le.
  - apply Forall_forall. intros it Hin. apply In_firstn in Hin.
    apply (Permutation_in it (Array_sort_Permutation by_similarity_desc kept)) in Hin.
    rewrite Forall_forall in Hkept. pose proof (Hkept it Hin) as Hscore.
    apply filter_In in Hin. destruct Hin as [Hin Hge].
    rewrite Forall_forall in Hsims.
    split; [rewrite <- Hposes; apply in_map; exact Hin |].
    split; [apply Hsims; exact Hin |].
    split; [exact Hge |].
    apply score_in_unit_interval. exact Hscore.
Qed.

Lemma findSimilarPoses_members_witness :
  exists result,
    findSimilarPoses small_frame_pose three_candidates None (Some (of_Z (-1)))
    = Return result /\
    (List.length result <= 3)%nat /\
    Forall (fun it => In (pose it) three_candidates) result.
Proof.
  destruct (findSimilarPoses small_frame_pose three_candidates None
              (Some (of_Z (-1)))) as [result | e] eqn:Hrun;
    [| vm_compute in Hrun; discriminate Hrun].
  exists result. split; [reflexivity |].
  destruct (findSimilarPoses_members _ _ _ _ _ Hrun) as [Hlen Hall].
  split; [exact Hlen |].
  apply (Forall_impl _ (fun it H => proj1 H) Hall).
Defined.

(** Among finite positive numbers, nothing lies at or below [u] and at
    or above something strictly greater than [u]. *)
Lemma leb_ltb_geb (m k : positive) (e ek : Z) (t : number) :
  SFleb (S754_finite false m e) (S754_finite false k ek) = true ->
  SFltb (S754_finite false k ek) t = true ->
  SFleb t (S754_finite false m e) = false.
Proof.
  intros Hle Ht.
  destruct t as [st | [|] | | [|] mt et]; try discriminate Ht; try reflexivity.
  unfold SFltb, SFcompare in Ht. unfold SFleb, SFcompare in Hle.
  unfold SFleb, SFcompare.
  destruct (Z.compare_spec e ek) as [He | He | He];
    destruct (Z.compare_spec ek et) as [Het | Het | Het];
    destruct (Z.compare_spec et e) as [Hte | Hte | Hte];
    try reflexivity; try discriminate; try lia.
  subst.
  destruct (Pos.compare_cont Eq m k) eqn:H1; try discriminate Hle;
    destruct (Pos.compare_cont Eq k mt) eqn:H2; try discriminate Ht;
    destruct (Pos.compare_cont Eq mt m) eqn:H3; try reflexivity;
    change (Pos.compare_cont Eq ?a ?b) with (Pos.compare a b) in *;
    rewrite ?Pos.compare_eq_iff, ?Pos.compare_lt_iff in *; lia.
Qed.

(** No score passes a threshold above one. *)
Lemma score_below_threshold (s t : number) :
  score s = true -> gtb t one = true -> geb s t = false.
Proof.
  intros Hs Ht.
  destruct (score_cases s Hs) as [-> | (m & e & -> & Hb)].
  - destruct t as [st | st | | [|] mt et]; try discriminate Ht; try reflexivity.
    destruct st; [discriminate Ht | reflexivity].
  - assert (Hle : leb (S754_finite false m e) one = true).
    { simpl in Hs. apply andb_true_iff in Hs. tauto. }
    exact (leb_ltb_geb m _ e _ t Hle Ht).
Qed.

Lemma filter_none (A : Type) (p : A -> bool) (l : list A) :
  Forall (fun a => p a = false) l -> filter p l = [].
Proof.
  induction 1 as [| a l Ha _ IH]; simpl; [reflexivity |].
  rewrite Ha. exact IH.
Qed.

Lemma Array_slice0_nil (A : Type) (m : number) : Array_slice0 (@nil A) m = [].
Proof. unfold Array_slice0. apply firstn_nil. Qed.

Lemma Array_slice0_falsy (A : Type) (l : list A) (m : number) :
  truthy m = false -> Array_slice0 l m = [].
Proof.
  unfold Array_slice0.
  destruct m as [s | s | | s mm em]; intros H; try discriminate H;
    cbn [ToIntegerOrInfinity]; change (0 <? 0)%Z with false; cbv iota;
    replace (Z.min 0 (Z.of_nat (List.length l))) with 0%Z by lia; reflexivity.
Qed.

(** X12: the search returns the empty list - it does not throw - when
    there is no candidate, when the threshold is NaN or above 1 (no
    similarity reaches it), and when [maxResults] is 0, -0 or NaN. *)
Theorem findSimilarPoses_empty (targetPose : PoseData)
    (poses : list IdentifiedPose) (threshold maxResults : option number) :
  poses = [] \/
  is_nan (or_default threshold default_threshold) = true \/
  gtb (or_default threshold default_threshold) one = true \/
  truthy (or_default maxResults default_maxResults) = false ->
  findSimilarPoses targetPose poses threshold maxResults = Return [].
Proof.
  intros H.
  destruct (findSimilarPoses_steps targetPose poses threshold maxResults)
    as (scored & Hposes & Hsims & ->).
  set (t := or_default threshold default_threshold) in *.
  set (m := or_default maxResults default_maxResults) in *.
  f_equal.
  assert (Hnone : Forall (fun it => geb (similarity it) t = false) scored ->
                  Array_slice0
                    (Array_sort by_similarity_desc
                       (filter (fun it => geb (similarity it) t) scored)) m = []).
  { intros Hf. rewrite (filter_none _ _ _ Hf). apply Array_slice0_nil. }
  destruct H as [Hp | [Hnan | [Hgt | Hm]]].
  - subst poses. destruct scored; [| discriminate Hposes]. apply Array_slice0_nil.
  - apply Hnone. apply Forall_forall. intros it _.
    destruct t; try discriminate Hnan.
    destruct (similarity it) as [s | s | | s ms es]; reflexivity.
  - apply Hnone. apply Forall_forall. intros it Hin.
    destruct (geb (similarity it) t) eqn:Hge; [| reflexivity].
    pose proof (kept_scores targetPose t scored Hsims) as Hkept.
    rewrite Forall_forall in Hkept.
    assert (Hscore : score (similarity it) = true).
    { apply Hkept. apply filter_In. split; assumption. }
    rewrite (score_below_threshold _ _ Hscore Hgt) in Hge. discriminate Hge.
  - apply Array_slice0_falsy. exact Hm.
Qed.

Lemma findSimilarPoses_empty_witness :
  findSimilarPoses small_frame_pose [] None None = Return [] /\
  findSimilarPoses small_frame_pose three_candidates (Some NaN) None = Return [] /\
  findSimilarPoses small_frame_pose three_candidates (Some (of_Z 2)) None
  = Return [] /\
  findSimilarPoses small_frame_pose three_candidates None (Some zero) = Return [] /\
  findSimilarPoses small_frame_pose three_candidates None (Some NaN) = Return [].
Proof.
  split; [| split; [| split; [| split]]]; apply findSimilarPoses_empty.
  - left. reflexivity.
  - right. left. reflexivity.
  - right. right. left. vm_compute. reflexivity.
  - right. right. right. reflexivity.
  - right. right. right. reflexivity.
Defined.

(** Scores with the same rank are the same double. *)
Lemma score_rank_inj (a b : number) :
  score a = true -> score b = true -> rank a = rank b -> a = b.
Proof.
  intros Ha Hb.
  destruct (score_cases a Ha) as [-> | (ma & ea & -> & Hba)];
    destruct (score_cases b Hb) as [-> | (mb & eb & -> & Hbb)];
    unfold rank, zero; intros H.
  - reflexivity.
  - destruct (bounded_facts mb eb Hbb) as (H1 & H2 & _). lia.
  - destruct (bounded_facts ma ea Hba) as (H1 & H2 & _). lia.
  - destruct (bounded_facts ma ea Hba) as (H1 & H2 & _).
    destruct (bounded_facts mb eb Hbb) as (H3 & H4 & _).
    assert (ea = eb) by lia. subst eb.
    assert (Z.pos ma = Z.pos mb) by lia. congruence.
Qed.

Lemma Array_slice0_head (A : Type) (a : A) (l : list A) (m : number) :
  geb m zero = true -> result_cap m <> Some O ->
  exists rest, Array_slice0 (a :: l) m = a :: rest.
Proof.
  intros Hm Hcap. rewrite (Array_slice0_not_negative _ _ _ Hm).
  destruct (result_cap m) as [[| n] |]; cbn [take_cap firstn].
  - congruence.
  - eauto.
  - eauto.
Qed.

(** X13: a candidate that scores exactly 1 against the target - a copy of
    the target does - is never ranked below another one: when the
    threshold is at most 1 and [maxResults] is at least 1, the result is
    not empty and its first entry has similarity 1. *)
Theorem findSimilarPoses_best_first (targetPose : PoseData)
    (poses : list IdentifiedPose) (threshold maxResults : option number)
    (c : IdentifiedPose) :
  In c poses ->
  calculatePoseSimilarity targetPose (pose_data c) = Return one ->
  geb one (or_default threshold default_threshold) = true ->
  geb (or_default maxResults default_maxResults) zero = true ->
  result_cap (or_default maxResults default_maxResults) <> Some O ->
  exists first rest,
    findSimilarPoses targetPose poses threshold maxResults
    = Return (first :: rest) /\
    similarity first = one /\ In (pose first) poses.
Proof.
  intros Hc Hone Ht Hm Hcap.
  destruct (findSimilarPoses_steps targetPose poses threshold maxResults)
    as (scored & Hposes & Hsims & ->).
  set (t := or_default threshold default_threshold) in *.
  set (m := or_default maxResults default_maxResults) in *.
  set (kept := filter (fun it => geb (similarity it) t) scored).
  pose proof (kept_scores targetPose t scored Hsims) as Hkept. fold kept in Hkept.
  set (sorted := Array_sort by_similarity_desc kept).
  pose proof (Array_sort_Permutation by_similarity_desc kept) as Hperm.
  fold sorted in Hperm.
  assert (Hsorted_scores : Forall (fun it => score (similarity it) = true) sorted).
  { apply (Permutation_Forall (Permutation_sym Hperm)). exact Hkept. }
  assert (Hsorted :
    StronglySorted (fun a b => (rank (similarity b) <= rank (similarity a))%Z) sorted).
  { apply (Array_sort_sorted by_similarity_desc
             (fun it => score (similarity it) = true)
             (fun a b => (rank (similarity b) <= rank (similarity a))%Z)).
    - intros a b d Hab Hbd. lia.
    - intros a b Ha Hb Hab. rewrite (comes_after_rank a b Ha Hb) in Hab.
      apply Z.ltb_lt in Hab. lia.
    - intros a b Ha Hb Hab. rewrite (comes_after_rank a b Ha Hb) in Hab.
      apply Z.ltb_ge in Hab. exact Hab.
    - exact Hkept. }
  (* the entry of the candidate *)
  subst poses. apply in_map_iff in Hc.
  destruct Hc as (it & Hit & Hin).
  rewrite Forall_forall in Hsims. pose proof (Hsims it Hin) as Hsim.
  rewrite Hit, Hone in Hsim. injection Hsim as Hsim.
  assert (Hin_kept : In it kept).
  { apply filter_In. split; [exact Hin |]. rewrite <- Hsim. exact Ht. }
  assert (Hin_sorted : In it sorted)
    by (apply (Permutation_in it (Permutation_sym Hperm)); exact Hin_kept).
  destruct sorted as [| first tl] eqn:Hs; [destruct Hin_sorted |].
  destruct (Array_slice0_head _ first tl m Hm Hcap) as [rest ->].
  exists first, rest. split; [reflexivity |].
  inversion Hsorted_scores as [| ? ? Hfirst Htl]; subst.
  assert (Hin_first : In first kept).
  { apply (Permutation_in first Hperm). left. reflexivity. }
  split.
  - apply score_rank_inj; [exact Hfirst | exact (eq_refl true) |].
    assert (Hle : (rank (similarity first) <= rank one)%Z).
    { apply Z.leb_le.
      rewrite <- (score_leb (similarity first) one Hfirst (eq_refl true)).
      apply score_in_unit_interval. exact Hfirst. }
    assert (Hge : (rank one <= rank (similarity first))%Z).
    { destruct Hin_sorted as [<- | Hin_tl]; [rewrite <- Hsim; lia |].
      inversion Hsorted as [| ? ? _ Hall]; subst.
      rewrite Forall_forall in Hall. specialize (Hall it Hin_tl).
      rewrite <- Hsim in Hall. exact Hall. }
    lia.
  - apply filter_In in Hin_first. destruct Hin_first as [Hf _].
    apply in_map. exact Hf.
Qed.

Lemma findSimilarPoses_best_first_witness :
  exists first rest,
    findSimilarPoses sample_pose
      [ {| pose_id := "other"; pose_data := fractional_pose |};
        {| pose_id := "same"; pose_data := sample_pose |} ] None None
    = Return (first :: rest) /\
    similarity first = one /\
    In (pose first)
       [ {| pose_id := "other"; pose_data := fractional_pose |};
         {| pose_id := "same"; pose_data := sample_pose |} ].
Proof.
  apply (findSimilarPoses_best_first sample_pose _ None None
           {| pose_id := "same"; pose_data := sample_pose |}).
  - right. left. reflexivity.
  - vm_compute. reflexivity.
  - vm_compute. reflexivity.
  - vm_compute. reflexivity.
  - vm_compute. intros H. discriminate H.
Defined.

(** Zero does not reach a positive threshold. *)
Lemma zero_below_positive (t : number) : gtb t zero = true -> geb zero t = false.
Proof.
  destruct t as [s | [|] | | [|] m e]; intros H; try discriminate H; reflexivity.
Qed.

(** X14: with a positive threshold - the default 0.7 is one - the search
    only returns candidates that can be compared with the target: a
    candidate with a different number of keypoints, or without a position
    at which both poses are confident, scores 0 and is dropped, silently. *)
Theorem findSimilarPoses_comparable (targetPose : PoseData)
    (poses : list IdentifiedPose) (threshold maxResults : option number)
    (result : list Scored) :
  gtb (or_default threshold default_threshold) zero = true ->
  findSimilarPoses targetPose poses threshold maxResults = Return result ->
  Forall (fun it =>
            List.length (keypoints (pose_data (pose it)))
            = List.length (keypoints targetPose) /\
            ~ no_confident_pair targetPose (pose_data (pose it)))
         result.
Proof.
  intros Ht Hrun.
  destruct (findSimilarPoses_steps targetPose poses threshold maxResults)
    as (scored & Hposes & Hsims & Hrun').
  rewrite Hrun' in Hrun. injection Hrun as <-.
  set (t := or_default threshold default_threshold) in *.
  destruct (Array_slice0_firstn _
              (Array_sort by_similarity_desc
                 (filter (fun it => geb (similarity it) t) scored))
              (or_default maxResults default_maxResults)) as [n ->].
  apply Forall_forall. intros it Hin. apply In_firstn in Hin.
  apply (Permutation_in it (Array_sort_Permutation by_similarity_desc _)) in Hin.
  apply filter_In in Hin. destruct Hin as [Hin Hge].
  rewrite Forall_forall in Hsims. pose proof (Hsims it Hin) as Hsim.
  assert (Hnz : similarity it <> zero).
  { intros Hz. rewrite Hz, (zero_below_positive t Ht) in Hge. discriminate Hge. }
  unfold calculatePoseSimilarity in Hsim.
  destruct (List.length (keypoints targetPose)
            =? List.length (keypoints (pose_data (pose it))))%nat eqn:Hlen;
    cbn [negb] in Hsim.
  2:{ injection Hsim as Hsim. congruence. }
  apply Nat.eqb_eq in Hlen. split; [symmetry; exact Hlen |].
  intros Hno.
  rewrite (similarity_loop_skips _ _ Hlen Hno) in Hsim by lia.
  cbn [bind Nat.eqb] in Hsim. injection Hsim as Hsim. congruence.
Qed.

Lemma findSimilarPoses_comparable_witness :
  exists result,
    findSimilarPoses small_frame_pose
      [ {| pose_id := "short"; pose_data := short_pose |};
        {| pose_id := "unsure"; pose_data := unsure_pose |};
        {| pose_id := "same"; pose_data := small_frame_pose |} ] None None
    = Return result /\
    Forall (fun it => List.length (keypoints (pose_data (pose it))) = 1%nat) result.
Proof.
  destruct (findSimilarPoses small_frame_pose
              [ {| pose_id := "short"; pose_data := short_pose |};
                {| pose_id := "unsure"; pose_data := unsure_pose |};
                {| pose_id := "same"; pose_data := small_frame_pose |} ] None None)
    as [result | e] eqn:Hrun; [| vm_compute in Hrun; discriminate Hrun].
  exists result. split; [reflexivity |].
  apply (Forall_impl _ (fun it H => proj1 H)
           (findSimilarPoses_comparable _ _ None None result eq_refl Hrun)).
Defined.

(* ================================================================== *)
(** * Validation: what is accepted, what is guaranteed, what throws *)
(* ================================================================== *)

Lemma validKeypoint_Keypoint_value (k : Keypoint) :
  validKeypoint (Keypoint_value k) = Return true.
Proof. reflexivity. Qed.

Lemma Array_every_all (f : value -> js bool) (l : list value) :
  Forall (fun a => f a = Return true) l -> Array_every f l = Return true.
Proof.
  induction 1 as [| a l Ha _ IH]; cbn [Array_every]; [reflexivity |].
  rewrite Ha. cbn [bind]. exact IH.
Qed.

(** X15: the validator accepts every [PoseData]: an object whose
    [keypoints] are keypoint objects is accepted with any numbers for the
    coordinates, the confidences, the width and the height - NaN, zero and
    negative ones included - with any number of keypoints, and with any
    array whatever as [skeleton], whose entries are never inspected. *)
Theorem validatePoseData_accepts (kps : list Keypoint) (connections : list value)
    (w h : number) :
  validatePoseData
    (pose_object (JSArray (map Keypoint_value kps)) (JSArray connections)
                 (JSNumber w) (JSNumber h))
  = Return (JSBoolean true) /\
  forall P : PoseData, validatePoseData (PoseData_value P) = Return (JSBoolean true).
Proof.
  assert (H : forall ks cs w0 h0,
    validatePoseData
      (pose_object (JSArray (map Keypoint_value ks)) (JSArray cs)
                   (JSNumber w0) (JSNumber h0))
    = Return (JSBoolean true)).
  { intros ks cs w0 h0. unfold validatePoseData, pose_object.
    cbn [ToBoolean negb Get own_property String.eqb Ascii.eqb Bool.eqb bind
         Array_isArray typeof_number].
    rewrite Array_every_all; [reflexivity |].
    apply Forall_forall. intros e He. apply in_map_iff in He.
    destruct He as (k & <- & _). apply validKeypoint_Keypoint_value. }
  split; [apply H |]. intros P. apply H.
Qed.

Lemma Array_every_true (f : value -> js bool) (l : list value) :
  Array_every f l = Return true -> Forall (fun a => f a = Return true) l.
Proof.
  induction l as [| a l IH]; cbn [Array_every]; intros H; [constructor |].
  destruct (f a) as [[|] | e] eqn:Ha; cbn [bind] in H; try discriminate H.
  constructor; [exact Ha | apply IH; exact H].
Qed.

Lemma validKeypoint_true (e : value) :
  validKeypoint e = Return true -> exists k, reads_as_keypoint e k.
Proof.
  unfold validKeypoint, reads_as_keypoint. intros H.
  destruct (Get e "x") as [vx | err]; cbn [bind] in H; [| discriminate H].
  destruct vx as [| | | nx | | |]; cbn [typeof_number negb] in H;
    try discriminate H.
  destruct (Get e "y") as [vy | err]; cbn [bind] in H; [| discriminate H].
  destruct vy as [| | | ny | | |]; cbn [typeof_number negb] in H;
    try discriminate H.
  destruct (Get e "confidence") as [vc | err]; cbn [bind] in H; [| discriminate H].
  destruct vc as [| | | nc | | |]; cbn [typeof_number negb] in H;
    try discriminate H.
  destruct (Get e "label") as [vl | err]; cbn [bind] in H; [| discriminate H].
  destruct vl as [| | | | sl | |]; cbn [typeof_string] in H;
    try discriminate H.
  exists {| x := nx; y := ny; confidence := nc; label := sl |}.
  repeat split.
Qed.

(** X16: what an accepted value guarantees.  When the validator returns
    [true], the value has an array [keypoints], an array [skeleton] and
    numbers [width] and [height], and every entry of [keypoints] has
    numbers [x], [y], [confidence] and a string [label]: the keypoints
    read as a list of [Keypoint]s.  Nothing is guaranteed about the
    entries of [skeleton]. *)
Theorem validatePoseData_true (v : value) :
  validatePoseData v = Return (JSBoolean true) ->
  exists (elements connections : list value) (w h : number) (kps : list Keypoint),
    Get v "keypoints" = Return (JSArray elements) /\
    Get v "skeleton" = Return (JSArray connections) /\
    Get v "width" = Return (JSNumber w) /\
    Get v "height" = Return (JSNumber h) /\
    Forall2 reads_as_keypoint elements kps.
Proof.
  unfold validatePoseData. intros H.
  destruct (ToBoolean v) eqn:Hv; cbn [negb] in H.
  2:{ injection H as ->. discriminate Hv. }
  destruct (Get v "keypoints") as [vk | err]; cbn [bind] in H; [| discriminate H].
  destruct vk as [| | | | | elements |]; cbn [Array_isArray negb] in H;
    try discriminate H.
  destruct (Get v "skeleton") as [vs | err]; cbn [bind] in H; [| discriminate H].
  destruct vs as [| | | | | connections |]; cbn [Array_isArray negb] in H;
    try discriminate H.
  destruct (Get v "width") as [vw | err]; cbn [bind] in H; [| discriminate H].
  destruct vw as [| | | w | | |]; cbn [typeof_number negb] in H;
    try discriminate H.
  destruct (Get v "height") as [vh | err]; cbn [bind] in H; [| discriminate H].
  destruct vh as [| | | h | | |]; cbn [typeof_number negb] in H;
    try discriminate H.
  destruct (Array_every validKeypoint elements) as [[|] | err] eqn:He;
    cbn [bind] in H; try discriminate H.
  apply Array_every_true in He.
  assert (Hk : exists kps, Forall2 reads_as_keypoint elements kps).
  { clear H. induction He as [| e es Hv1 _ IH].
    - exists []. constructor.
    - destruct IH as [kps Hkps]. destruct (validKeypoint_true e Hv1) as [k Hk].
      exists (k :: kps). constructor; assumption. }
  destruct Hk as [kps Hkps].
  exists elements, connections, w, h, kps. repeat split; try reflexivity.
  exact Hkps.
Qed.

Lemma validatePoseData_true_witness :
  exists (elements connections : list value) (w h : number) (kps : list Keypoint),
    Get (PoseData_value short_pose) "keypoints" = Return (JSArray elements) /\
    Get (PoseData_value short_pose) "skeleton" = Return (JSArray connections) /\
    Get (PoseData_value short_pose) "width" = Return (JSNumber w) /\
    Get (PoseData_value short_pose) "height" = Return (JSNumber h) /\
    Forall2 reads_as_keypoint elements kps.
Proof.
  apply (validatePoseData_true (PoseData_value short_pose)). reflexivity.
Defined.

Lemma validKeypoint_nullish (e : value) :
  nullish e = true -> exists msg, validKeypoint e = Throw (TypeError msg).
Proof.
  destruct e; intros H; try discriminate H; eexists; reflexivity.
Qed.

Lemma validKeypoint_not_nullish (e : value) :
  nullish e = false -> exists b, validKeypoint e = Return b.
Proof.
  intros H. unfold validKeypoint.
  assert (HG : forall key, exists r, Get e key = Return r).
  { intros key. destruct e; try discriminate H; eexists; reflexivity. }
  destruct (HG "x"%string) as [vx ->]. cbn [bind].
  destruct (negb (typeof_number vx)); [eauto |].
  destruct (HG "y"%string) as [vy ->]. cbn [bind].
  destruct (negb (typeof_number vy)); [eauto |].
  destruct (HG "confidence"%string) as [vc ->]. cbn [bind].
  destruct (negb (typeof_number vc)); [eauto |].
  destruct (HG "label"%string) as [vl ->]. cbn [bind]. eauto.
Qed.

Lemma Array_every_total (l : list value) :
  Forall (fun e => nullish e = false) l ->
  exists b, Array_every validKeypoint l = Return b.
Proof.
  induction 1 as [| e l He _ IH]; cbn [Array_every]; [eauto |].
  destruct (validKeypoint_not_nullish e He) as [b ->]. cbn [bind].
  destruct b; [exact IH | eauto].
Qed.

Lemma Array_every_nullish (pre post : list value) (bad : value) :
  Forall (fun e => validKeypoint e = Return true) pre ->
  nullish bad = true ->
  exists msg, Array_every validKeypoint (pre ++ bad :: post) = Throw (TypeError msg).
Proof.
  intros Hpre Hbad. induction Hpre as [| e pre He _ IH]; cbn [app Array_every].
  - destruct (validKeypoint_nullish bad Hbad) as [msg ->]. cbn [bind]. eauto.
  - rewrite He. cbn [bind]. exact IH.
Qed.

(** X17: the validator is not total.  It returns - its falsy argument
    itself when the argument is falsy (so [null] for [null], not
    [false]), and a boolean otherwise - on every value whose [keypoints]
    hold no [null] and no [undefined]; but a [null] or [undefined] entry
    that follows well-formed keypoints in an otherwise well-formed pose
    makes it throw a TypeError instead of returning [false]. *)
Theorem validatePoseData_throws :
  (forall v : value,
      (forall elements, Get v "keypoints" = Return (JSArray elements) ->
                        Forall (fun e => nullish e = false) elements) ->
      exists r, validatePoseData v = Return r /\
        (if ToBoolean v then exists b, r = JSBoolean b else r = v)) /\
  (forall (kps : list Keypoint) (bad : value) (post connections : list value)
          (w h : number),
      nullish bad = true ->
      exists msg,
        validatePoseData
          (pose_object (JSArray (map Keypoint_value kps ++ bad :: post))
                       (JSArray connections) (JSNumber w) (JSNumber h))
        = Throw (TypeError msg)).
Proof.
  split.
  - intros v Hel. unfold validatePoseData.
    destruct (ToBoolean v) eqn:Hv; cbn [negb]; [| eauto].
    assert (HG : forall key, exists r, Get v key = Return r).
    { intros key. destruct v; try discriminate Hv; eexists; reflexivity. }
    destruct (HG "keypoints"%string) as [vk Hk]. rewrite Hk. cbn [bind].
    destruct vk as [| | | | | elements |]; cbn [Array_isArray negb]; eauto.
    destruct (HG "skeleton"%string) as [vs ->]. cbn [bind].
    destruct (negb (Array_isArray vs)); [eauto |].
    destruct (HG "width"%string) as [vw ->]. cbn [bind].
    destruct (negb (typeof_number vw)); [eauto |].
    destruct (HG "height"%string) as [vh ->]. cbn [bind].
    destruct (negb (typeof_number vh)); [eauto |].
    destruct (Array_every_total elements (Hel elements Hk)) as [b ->].
    cbn [bind]. eauto.
  - intros kps bad post connections w h Hbad.
    unfold validatePoseData, pose_object.
    cbn [ToBoolean negb Get own_property String.eqb Ascii.eqb Bool.eqb bind
         Array_isArray typeof_number].
    destruct (Array_every_nullish (map Keypoint_value kps) post bad) as [msg ->];
      [| exact Hbad | cbn [bind]; eauto].
    apply Forall_forall. intros e He. apply in_map_iff in He.
    destruct He as (k & <- & _). reflexivity.
Qed.

Lemma validatePoseData_throws_witness :
  validatePoseData JSNull = Return JSNull /\
  validatePoseData (JSNumber zero) = Return (JSNumber zero) /\
  validatePoseData (JSString "pose") = Return (JSBoolean false) /\
  exists msg,
    validatePoseData
      (pose_object (JSArray (map Keypoint_value (keypoints short_pose) ++ [JSNull]))
                   (JSArray []) (JSNumber num_768) (JSNumber num_768))
    = Throw (TypeError msg).
Proof.
  assert (Hnull : exists r, validatePoseData JSNull = Return r /\ r = JSNull).
  { apply (proj1 validatePoseData_throws JSNull). intros els H. discriminate H. }
  assert (Hzero : exists r, validatePoseData (JSNumber zero) = Return r /\
                            r = JSNumber zero).
  { apply (proj1 validatePoseData_throws (JSNumber zero)). intros els H.
    discriminate H. }
  destruct Hnull as (r1 & H1 & ->). destruct Hzero as (r2 & H2 & ->).
  split; [exact H1 |]. split; [exact H2 |]. split; [reflexivity |].
  apply (proj2 validatePoseData_throws (keypoints short_pose) JSNull [] []
           num_768 num_768). reflexivity.
Defined.

(* ================================================================== *)
(** * Variations of a validated pose *)
(* ================================================================== *)

Section VariationFacts.
Context {engine : MathImpl}.

Lemma validatePoseData_PoseData_value (P : PoseData) :
  validatePoseData (PoseData_value P) = Return (JSBoolean true).
Proof.
  unfold validatePoseData, PoseData_value, pose_object.
  cbn [ToBoolean negb Get own_property String.eqb Ascii.eqb Bool.eqb bind
       Array_isArray typeof_number].
  rewrite Array_every_all; [reflexivity |].
  apply Forall_forall. intros e He. apply in_map_iff in He.
  destruct He as (k & <- & _). reflexivity.
Qed.

(** X18: the callers guard [generatePoseVariations] with
    [validatePoseData], but the guard does not see the keypoint count.
    Every [PoseData] passes it, and [generatePoseVariations] then throws
    the TypeError of [mirrorPose] on the poses with 2, 4, ..., 16
    keypoints - although five of the six variations do not need the
    mirror - and returns on all others six variations, each with as many
    keypoints as the source, the same labels and the same skeleton. *)
Theorem generatePoseVariations_after_validation (P : PoseData) :
  validatePoseData (PoseData_value P) = Return (JSBoolean true) /\
  (partner_missing (List.length (keypoints P)) = true ->
   generatePoseVariations P
   = Throw (TypeError "Cannot read properties of undefined (reading 'x')")) /\
  (partner_missing (List.length (keypoints P)) = false ->
   exists vs, generatePoseVariations P = Return vs /\
     List.length vs = 6%nat /\
     Forall (fun v =>
               List.length (keypoints (poseData v)) = List.length (keypoints P) /\
               map label (keypoints (poseData v)) = map label (keypoints P) /\
               skeleton (poseData v) = skeleton P) vs).
Proof.
  split; [apply validatePoseData_PoseData_value |]. split; intros H.
  - unfold generatePoseVariations.
    rewrite (proj1 (mirrorPose_by_count P) H). reflexivity.
  - destruct (proj2 (mirrorPose_by_count P) H) as [M HM].
    exists (variation_catalog P M).
    split; [apply generatePoseVariations_Return; exact HM |].
    split; [reflexivity |].
    destruct (mirrorPose_keeps P M HM) as (HlM & _ & HsM & _ & _).
    assert (Hlen : forall Q, map label (keypoints Q) = map label (keypoints P) ->
                             List.length (keypoints Q) = List.length (keypoints P)).
    { intros Q HQ. rewrite <- (length_map label (keypoints Q)), HQ.
      apply length_map. }
    assert (Hscale : forall w h,
      List.length (keypoints (scalePose P w h)) = List.length (keypoints P) /\
      map label (keypoints (scalePose P w h)) = map label (keypoints P) /\
      skeleton (scalePose P w h) = skeleton P).
    { intros w h. destruct (scalePose_keeps P w h) as (H1 & _ & H3).
      split; [apply Hlen; exact H1 |]. split; assumption. }
    assert (Hrot : forall a,
      List.length (keypoints (rotatePose P a)) = List.length (keypoints P) /\
      map label (keypoints (rotatePose P a)) = map label (keypoints P) /\
      skeleton (rotatePose P a) = skeleton P).
    { intros a. destruct (rotatePose_keeps P a) as (H1 & _ & H3 & _).
      split; [apply Hlen; exact H1 |]. split; assumption. }
    unfold variation_catalog.
    repeat (apply Forall_cons; cbn [poseData]);
      [ auto | split; [apply Hlen; exact HlM | split; assumption]
      | apply Hscale | apply Hscale | apply Hrot | apply Hrot | constructor ].
Qed.

End VariationFacts.

Lemma generatePoseVariations_after_validation_witness :
  @generatePoseVariations taylor_engine short_pose
  = Throw (TypeError "Cannot read properties of undefined (reading 'x')") /\
  exists vs, @generatePoseVariations taylor_engine sample_pose = Return vs /\
    List.length vs = 6%nat.
Proof.
  split.
  - apply (proj1 (proj2 (@generatePoseVariations_after_validation
                           taylor_engine short_pose))). reflexivity.
  - destruct (proj2 (proj2 (@generatePoseVariations_after_validation
                              taylor_engine sample_pose)) eq_refl)
      as (vs & Hvs & Hlen & _).
    exists vs. split; assumption.
Defined.

(* ================================================================== *)
(** * OpenPose interchange: the import loop in closed form *)
(* ================================================================== *)

(** X19: on every input it accepts, [fromOpenPoseFormat] reads the first
    person only and builds one keypoint per started triple of the flat
    array - [ceil(n / 3)] keypoints for [n] values - the keypoint at
    position [j] holding the values at [3j], [3j+1], [3j+2] and the label
    of position [j]: the COCO key up to position 16, [keypoint_j] beyond.
    When [n] is not a multiple of 3 the last keypoint is incomplete: its
    confidence is [undefined]. *)
Theorem fromOpenPoseFormat_keypoints (d : OpenPoseData) (vals : list number) :
  first_pose_keypoints_2d d = Some vals ->
  (51 <= List.length vals)%nat ->
  exists R, fromOpenPoseFormat d = Some R /\
    List.length (imported_keypoints R) = imported_count (List.length vals) /\
    (forall j, (j < imported_count (List.length vals))%nat ->
       nth_error (imported_keypoints R) j = Some (imported_at vals j)) /\
    imported_skeleton R = COCO_SKELETON /\
    (List.length vals mod 3 <> 0 ->
     exists last,
       nth_error (imported_keypoints R) (imported_count (List.length vals) - 1)
       = Some last /\
       imported_confidence last = None)%nat.
Proof.
  intros Hd Hlen. rewrite (fromOpenPoseFormat_closed d vals Hd Hlen).
  eexists. split; [reflexivity |]. cbn [imported_keypoints imported_skeleton].
  assert (Hnth : forall j, (j < imported_count (List.length vals))%nat ->
            nth_error (map (imported_at vals)
                           (seq 0 (imported_count (List.length vals)))) j
            = Some (imported_at vals j)).
  { intros j Hj. rewrite nth_error_map.
    rewrite nth_error_seq. rewrite (proj2 (Nat.ltb_lt _ _) Hj). reflexivity. }
  split; [rewrite length_map, length_seq; reflexivity |].
  split; [exact Hnth |]. split; [reflexivity |].
  intros Hmod.
  assert (Hpos : (0 < imported_count (List.length vals))%nat).
  { apply imported_count_gt. lia. }
  exists (imported_at vals (imported_count (List.length vals) - 1)).
  split; [apply Hnth; lia |].
  cbn [imported_at imported_confidence]. apply nth_error_None.
  unfold imported_count in *.
  pose proof (Nat.div_mod_eq (List.length vals + 2) 3) as Hdm.
  pose proof (Nat.mod_upper_bound (List.length vals + 2) 3 ltac:(lia)) as Hm.
  pose proof (Nat.div_mod_eq (List.length vals) 3) as Hdm'.
  pose proof (Nat.mod_upper_bound (List.length vals) 3 ltac:(lia)) as Hm'.
  lia.
Qed.

Lemma fromOpenPoseFormat_keypoints_witness :
  exists R,
    fromOpenPoseFormat ragged_openpose = Some R /\
    List.length (imported_keypoints R) = 18%nat /\
    nth_error (imported_keypoints R) 17
    = Some {| imported_x := Some one; imported_y := None;
              imported_confidence := None;
              imported_label := "keypoint_17" |}.
Proof.
  destruct (fromOpenPoseFormat_keypoints ragged_openpose (repeat one 52)
              eq_refl ltac:(simpl; lia))
    as (R & HR & Hlen & Hnth & _).
  exists R. split; [exact HR |]. split; [exact Hlen |].
  apply (Hnth 17%nat). vm_compute. lia.
Defined.

(* ================================================================== *)
(** * OpenPose interchange: import, then export *)
(* ================================================================== *)

(** X20: importing an OpenPose object whose flat array holds [k >= 17]
    complete triples and exporting the result gives back exactly that
    array: the imported pose has [k] keypoints, none of its numbers is
    [undefined], and [toPoseOpenPoseFormat] writes the same values in the
    same order. *)
Theorem toPoseOpenPoseFormat_fromOpenPoseFormat (d : OpenPoseData)
    (vals : list number) (k : nat) :
  first_pose_keypoints_2d d = Some vals ->
  List.length vals = (3 * k)%nat -> (17 <= k)%nat ->
  exists R P,
    fromOpenPoseFormat d = Some R /\ as_PoseData R = Some P /\
    List.length (keypoints P) = k /\
    first_pose_keypoints_2d (toPoseOpenPoseFormat P) = Some vals.
Proof.
  intros Hd Hlen Hk.
  rewrite (fromOpenPoseFormat_closed d vals Hd ltac:(lia)).
  assert (Hc : imported_count (List.length vals) = k).
  { unfold imported_count. rewrite Hlen.
    pose proof (Nat.div_mod_eq (3 * k + 2) 3) as Hdm.
    pose proof (Nat.mod_upper_bound (3 * k + 2) 3 ltac:(lia)) as Hm. lia. }
  rewrite Hc.
  destruct (as_Keypoints_triples k vals 0 Hlen) as (kps & Hkps & Hl & Hf).
  eexists. exists {| keypoints := kps; skeleton := COCO_SKELETON;
                     width := num_768; height := num_768 |}.
  split; [reflexivity |].
  unfold as_PoseData. cbn [imported_keypoints imported_skeleton imported_width
                           imported_height].
  unfold imported_at. cbn [Nat.add] in Hkps. rewrite Hkps.
  split; [reflexivity |]. split; [exact Hl |].
  unfold first_pose_keypoints_2d, toPoseOpenPoseFormat.
  cbn [people pose_keypoints_2d keypoints].
  change (fun kp => [x kp; y kp; confidence kp]) with keypoint_triple.
  rewrite Hf. reflexivity.
Qed.

Lemma toPoseOpenPoseFormat_fromOpenPoseFormat_witness :
  exists R P,
    fromOpenPoseFormat (toPoseOpenPoseFormat sample_pose) = Some R /\
    as_PoseData R = Some P /\
    List.length (keypoints P) = 17%nat /\
    first_pose_keypoints_2d (toPoseOpenPoseFormat P)
    = first_pose_keypoints_2d (toPoseOpenPoseFormat sample_pose).
Proof.
  apply (toPoseOpenPoseFormat_fromOpenPoseFormat
           (toPoseOpenPoseFormat sample_pose) _ 17);
    [reflexivity | reflexivity | lia].
Defined.

(* ================================================================== *)
(** * OpenPose interchange: export, then import *)
(* ================================================================== *)

(** X21: the export of a pose can be imported exactly when the pose has at
    least 17 keypoints.  The import then returns every keypoint's x, y and
    confidence, in order; the labels, the skeleton and the frame size of
    the pose are not carried over: the labels are those of the positions,
    the skeleton is the COCO skeleton and the frame is 768x768. *)
Theorem fromOpenPoseFormat_export (P : PoseData) :
  ((List.length (keypoints P) < 17)%nat ->
   fromOpenPoseFormat (toPoseOpenPoseFormat P) = None) /\
  ((17 <= List.length (keypoints P))%nat ->
   exists R, fromOpenPoseFormat (toPoseOpenPoseFormat P) = Some R /\
     map imported_values (imported_keypoints R)
     = map exported_values (keypoints P) /\
     map imported_label (imported_keypoints R)
     = map keypoint_label (seq 0 (List.length (keypoints P))) /\
     imported_skeleton R = COCO_SKELETON /\
     imported_width R = num_768 /\ imported_height R = num_768).
Proof.
  split; intros Hlen.
  - unfold fromOpenPoseFormat, toPoseOpenPoseFormat.
    cbn [people pose_keypoints_2d].
    change (fun kp => [x kp; y kp; confidence kp]) with keypoint_triple.
    rewrite length_flat_triples.
    rewrite (proj2 (Nat.ltb_lt _ _)) by lia. reflexivity.
  - assert (Hd : first_pose_keypoints_2d (toPoseOpenPoseFormat P)
                 = Some (flat_map keypoint_triple (keypoints P))) by reflexivity.
    assert (Hn : List.length (flat_map keypoint_triple (keypoints P))
                 = (3 * List.length (keypoints P))%nat)
      by apply length_flat_triples.
    assert (Hc : imported_count (3 * List.length (keypoints P))
                 = List.length (keypoints P)).
    { unfold imported_count.
      pose proof (Nat.div_mod_eq (3 * List.length (keypoints P) + 2) 3) as Hdm.
      pose proof (Nat.mod_upper_bound (3 * List.length (keypoints P) + 2) 3
                    ltac:(lia)) as Hm. lia. }
    pose proof (fromOpenPoseFormat_closed _ _ Hd ltac:(lia)) as Hrun.
    rewrite Hn, Hc in Hrun.
    eexists. split; [exact Hrun |].
    cbn [imported_keypoints imported_skeleton imported_width imported_height].
    split; [| split; [| repeat split]].
    + pose proof (import_loop_flat_triples (keypoints P) [] 0
                    (List.length (keypoints P)) [] eq_refl (Nat.le_refl _)) as Hl.
      cbn [app map] in Hl. rewrite <- Hl.
      pose proof (import_loop_closed (flat_map keypoint_triple (keypoints P))
                    (List.length (keypoints P)) []) as Hcl.
      cbn [List.length app] in Hcl. change (3 * 0)%nat with 0%nat in Hcl.
      rewrite Nat.sub_0_r, Hn, Hc in Hcl.
      rewrite (Hcl ltac:(lia)). reflexivity.
    + rewrite map_map. reflexivity.
Qed.

Lemma fromOpenPoseFormat_export_witness :
  fromOpenPoseFormat (toPoseOpenPoseFormat short_pose) = None /\
  exists R, fromOpenPoseFormat (toPoseOpenPoseFormat wide_pose) = Some R /\
    map imported_label (imported_keypoints R) = COCO_KEYPOINTS.keys /\
    imported_width R = num_768.
Proof.
  split.
  - apply (proj1 (fromOpenPoseFormat_export short_pose)). simpl. lia.
  - destruct (proj2 (fromOpenPoseFormat_export wide_pose) ltac:(simpl; lia))
      as (R & HR & _ & Hlab & _ & Hw & _).
    exists R. split; [exact HR |]. split; [exact Hlab | exact Hw].
Defined.

(* ================================================================== *)
(** * OpenPose interchange: the imported pose and the validator *)
(* ================================================================== *)

Lemma Array_every_last_false (f : value -> js bool) (pre : list value) (bad : value) :
  Forall (fun e => f e = Return true) pre -> f bad = Return false ->
  Array_every f (pre ++ [bad]) = Return false.
Proof.
  intros Hpre Hbad. induction Hpre as [| e pre He _ IH]; cbn [app Array_every].
  - rewrite Hbad. reflexivity.
  - rewrite He. cbn [bind]. exact IH.
Qed.

(** A triple that lies within the array gives a well-formed keypoint. *)
Lemma validKeypoint_imported_complete (vals : list number) (j : nat) :
  (3 * j + 2 < List.length vals)%nat ->
  validKeypoint (ImportedKeypoint_value (imported_at vals j)) = Return true.
Proof.
  intros Hj. unfold imported_at, ImportedKeypoint_value.
  cbn [imported_x imported_y imported_confidence imported_label].
  destruct (nth_error vals (3 * j)) as [vx |] eqn:Hx;
    [| apply nth_error_None in Hx; lia].
  destruct (nth_error vals (3 * j + 1)) as [vy |] eqn:Hy;
    [| apply nth_error_None in Hy; lia].
  destruct (nth_error vals (3 * j + 2)) as [vc |] eqn:Hc;
    [| apply nth_error_None in Hc; lia].
  reflexivity.
Qed.

(** A triple that runs past the end of the array does not. *)
Lemma validKeypoint_imported_incomplete (vals : list number) (j : nat) :
  (List.length vals <= 3 * j + 2)%nat ->
  validKeypoint (ImportedKeypoint_value (imported_at vals j)) = Return false.
Proof.
  intros Hj. unfold imported_at, ImportedKeypoint_value.
  cbn [imported_x imported_y imported_confidence imported_label].
  rewrite (proj2 (nth_error_None vals (3 * j + 2)) Hj).
  destruct (nth_error vals (3 * j)) as [vx |];
    destruct (nth_error vals (3 * j + 1)) as [vy |]; reflexivity.
Qed.

(** X22: the pose [fromOpenPoseFormat] returns passes [validatePoseData]
    exactly when the flat array holds complete triples: with a length
    that is not a multiple of 3 the last keypoint lacks its confidence
    and the validator returns [false] on the imported pose. *)
Theorem fromOpenPoseFormat_validates (d : OpenPoseData) (vals : list number) :
  first_pose_keypoints_2d d = Some vals ->
  (51 <= List.length vals)%nat ->
  exists R, fromOpenPoseFormat d = Some R /\
    validatePoseData (ImportedPose_value R)
    = Return (JSBoolean (List.length vals mod 3 =? 0)%nat).
Proof.
  intros Hd Hlen. rewrite (fromOpenPoseFormat_closed d vals Hd Hlen).
  eexists. split; [reflexivity |].
  unfold validatePoseData, ImportedPose_value, pose_object.
  cbn [imported_keypoints imported_skeleton imported_width imported_height
       ToBoolean negb Get own_property String.eqb Ascii.eqb Bool.eqb bind
       Array_isArray typeof_number].
  set (n := List.length vals) in *.
  pose proof (Nat.div_mod_eq n 3) as Hdm.
  pose proof (Nat.mod_upper_bound n 3 ltac:(lia)) as Hm.
  pose proof (Nat.div_mod_eq (n + 2) 3) as Hdm2.
  pose proof (Nat.mod_upper_bound (n + 2) 3 ltac:(lia)) as Hm2.
  destruct (n mod 3 =? 0)%nat eqn:Hmod.
  - apply Nat.eqb_eq in Hmod.
    rewrite Array_every_all; [reflexivity |].
    apply Forall_forall. intros e He. apply in_map_iff in He.
    destruct He as (k & <- & Hk). apply in_map_iff in Hk.
    destruct Hk as (j & <- & Hj). apply in_seq in Hj.
    apply validKeypoint_imported_complete. unfold imported_count in Hj.
    fold n in Hj |- *. lia.
  - apply Nat.eqb_neq in Hmod.
    assert (Hc : imported_count n = S (n / 3)) by (unfold imported_count; lia).
    rewrite Hc, seq_S, !map_app. cbn [map Nat.add].
    rewrite Array_every_last_false; [reflexivity | |].
    + apply Forall_forall. intros e He. apply in_map_iff in He.
      destruct He as (k & <- & Hk). apply in_map_iff in Hk.
      destruct Hk as (j & <- & Hj). apply in_seq in Hj.
      apply validKeypoint_imported_complete. fold n. lia.
    + apply validKeypoint_imported_incomplete. fold n. lia.
Qed.

Lemma fromOpenPoseFormat_validates_witness :
  (exists R, fromOpenPoseFormat (toPoseOpenPoseFormat sample_pose) = Some R /\
     validatePoseData (ImportedPose_value R) = Return (JSBoolean true)) /\
  (exists R, fromOpenPoseFormat ragged_openpose = Some R /\
     validatePoseData (ImportedPose_value R) = Return (JSBoolean false)).
Proof.
  split.
  - apply (fromOpenPoseFormat_validates (toPoseOpenPoseFormat sample_pose) _
             eq_refl). simpl. lia.
  - apply (fromOpenPoseFormat_validates ragged_openpose (repeat one 52) eq_refl).
    simpl. lia.
Defined.

Lemma COCO_SKELETON_below_17 :
  forallb (connection_in_range 17) COCO_SKELETON = true.
Proof. reflexivity. Qed.

(** X23: the skeleton of an imported pose only names keypoints the pose
    has: [fromOpenPoseFormat] returns at least 17 keypoints, and every
    connection of the skeleton it attaches joins two positions below 17. *)
Theorem fromOpenPoseFormat_skeleton_in_range (d : OpenPoseData) (R : ImportedPose) :
  fromOpenPoseFormat d = Some R ->
  (17 <= List.length (imported_keypoints R))%nat /\
  forallb (connection_in_range (List.length (imported_keypoints R)))
          (imported_skeleton R) = true.
Proof.
  intros HR.
  assert (Hvals : exists vals, first_pose_keypoints_2d d = Some vals /\
                               (51 <= List.length vals)%nat).
  { unfold fromOpenPoseFormat, first_pose_keypoints_2d in *.
    destruct (people d) as [[| person rest] |]; try discriminate HR.
    destruct (pose_keypoints_2d person) as [vals |]; try discriminate HR.
    exists vals. split; [reflexivity |].
    destruct (List.length vals <? 51)%nat eqn:Hlt; [discriminate HR |].
    apply Nat.ltb_ge in Hlt. exact Hlt. }
  destruct Hvals as (vals & Hd & Hlen).
  rewrite (fromOpenPoseFormat_closed d vals Hd Hlen) in HR.
  injection HR as <-. cbn [imported_keypoints imported_skeleton].
  rewrite length_map, length_seq.
  assert (Hc : (17 <= imported_count (List.length vals))%nat).
  { unfold imported_count.
    pose proof (Nat.div_mod_eq (List.length vals + 2) 3) as Hdm.
    pose proof (Nat.mod_upper_bound (List.length vals + 2) 3 ltac:(lia)) as Hm.
    lia. }
  split; [exact Hc |].
  apply forallb_forall. intros c Hin.
  pose proof (proj1 (forallb_forall _ _) COCO_SKELETON_below_17 c Hin) as H17.
  unfold connection_in_range in *.
  apply andb_true_iff in H17. destruct H17 as [Ha Hb].
  apply Nat.ltb_lt in Ha. apply Nat.ltb_lt in Hb.
  apply andb_true_iff. split; apply Nat.ltb_lt; lia.
Qed.

Lemma fromOpenPoseFormat_skeleton_in_range_witness :
  exists R, fromOpenPoseFormat (toPoseOpenPoseFormat wide_pose) = Some R /\
    (17 <= List.length (imported_keypoints R))%nat /\
    forallb (connection_in_range (List.length (imported_keypoints R)))
            (imported_skeleton R) = true.
Proof.
  destruct (fromOpenPoseFormat (toPoseOpenPoseFormat wide_pose)) as [R |] eqn:HR;
    [| vm_compute in HR; discriminate HR].
  exists R. split; [reflexivity |].
  apply (fromOpenPoseFormat_skeleton_in_range _ R HR).
Defined.
